(** * Career Suite AI: the Master Job Manager application tracker

    A shallow embedding of the reconciliation core of the tracker
    (MJM_Config.gs, MJM_ParsingUtils.gs and the two scheduled entry points of
    MJM_main.gs) and the properties of its status merge, peak status,
    identity resolution, message de-duplication and staleness sweep;
    further, of what the run calls: the extraction tiers and the platform
    detection, the Gemini call loop and MJM_columnToLetter
    (MJM_SheetUtils.gs), the thread outcomes and final labels
    (MJM_GmailUtils.gs) and the time-driven triggers (MJM_Triggers.gs).

    Modelling conventions.
    - A JavaScript string is a [string] whose characters are the code units
      0..255 (the Latin-1 range); [length], [toLowerCase], [trim] and the
      white-space class are exact on that range.
    - A [Date] is its time value, a [Z] of milliseconds since the epoch.
    - An object used as a table is a [gmap] over its own keys.  Where the
      code indexes such an object by a string that comes from the input
      (the status table, the cache of the run), a lookup that finds no own
      key falls back on the members that the object inherits from
      [Object.prototype].
    - The sheet is a list of rows; a row is the record of the eleven
      columns that the MJM_APP_*_COL constants name. *)

From Stdlib Require Import ZArith Ascii String List Bool Lia.
From stdpp Require Import base option list gmap strings sorting.

Local Open Scope string_scope.

(** ** JavaScript string primitives *)

Module JS.

(** WhiteSpace and LineTerminator code units below 256: TAB, LF, VT, FF,
    CR, SP and NBSP.  Both [String.prototype.trim] and the regular
    expression class [\s] use this set. *)
Definition isWhiteSpace (c : ascii) : bool :=
  let n := nat_of_ascii c in
  (((9 <=? n) && (n <=? 13)) || (n =? 32) || (n =? 160))%nat.

(** [toLowerCase] on one code unit: A..Z and the Latin-1 capitals
    U+00C0..U+00DE (U+00D7, the multiplication sign, excepted). *)
Definition lowerChar (c : ascii) : ascii :=
  let n := nat_of_ascii c in
  if (((65 <=? n) && (n <=? 90))
      || ((192 <=? n) && (n <=? 222) && negb (n =? 215)))%nat
  then ascii_of_nat (n + 32) else c.

Fixpoint toLowerCase (s : string) : string :=
  match s with
  | EmptyString => EmptyString
  | String c r => String (lowerChar c) (toLowerCase r)
  end.

Fixpoint trimStart (s : string) : string :=
  match s with
  | EmptyString => EmptyString
  | String c r => if isWhiteSpace c then trimStart r else s
  end.

Fixpoint trimEnd (s : string) : string :=
  match s with
  | EmptyString => EmptyString
  | String c r =>
      match trimEnd r with
      | EmptyString => if isWhiteSpace c then EmptyString else String c EmptyString
      | r' => String c r'
      end
  end.

Definition trim (s : string) : string := trimEnd (trimStart s).

Fixpoint startsWith (s k : string) : bool :=
  match k, s with
  | EmptyString, _ => true
  | String _ _, EmptyString => false
  | String a k', String b s' => if Ascii.eqb a b then startsWith s' k' else false
  end.

(** [s.includes(k)] *)
Fixpoint includes (s k : string) : bool :=
  startsWith s k ||
  match s with
  | EmptyString => false
  | String _ r => includes r k
  end.

(** [x || d] for a string [x]: the empty string is falsy. *)
Definition orElse (x d : string) : string :=
  if String.eqb x "" then d else x.

(** [Array.prototype.sort(cmp)], which is stable; [gt a b] stands for
    [cmp(a, b) > 0].  An element is inserted in front of the first element
    that need not precede it. *)
Fixpoint insertBy {A : Type} (gt : A -> A -> bool) (x : A) (l : list A) : list A :=
  match l with
  | [] => [x]
  | y :: l' => if gt x y then y :: insertBy gt x l' else x :: y :: l'
  end.

Definition sort {A : Type} (gt : A -> A -> bool) (l : list A) : list A :=
  foldr (insertBy gt) [] l.

(** *** Members of plain objects

    What a member lookup gives where the code expects a number: a number,
    or an object, namely a member that the object inherits from
    [Object.prototype].  The comparison operators convert an object to a
    string, which is kept here as [text]. *)
Inductive Value : Type :=
  | Number (n : Z)
  | Object (text : string).

(** [a < b] on strings: the order of the code units. *)
Fixpoint ltString (a b : string) : bool :=
  match a, b with
  | _, EmptyString => false
  | EmptyString, String _ _ => true
  | String x a', String y b' =>
      (nat_of_ascii x <? nat_of_ascii y)%nat
      || ((nat_of_ascii x =? nat_of_ascii y)%nat && ltString a' b')
  end.

(** [a >= b] and [a > b].  Two numbers compare as numbers.  An object
    against a number: the text of the object is no numeric literal, so it
    converts to NaN and the comparison is false.  Two objects compare by
    their texts. *)
Definition ge (a b : Value) : bool :=
  match a, b with
  | Number x, Number y => bool_decide (y ≤ x)%Z
  | Object s, Object t => negb (ltString s t)
  | _, _ => false
  end.

Definition gt (a b : Value) : bool :=
  match a, b with
  | Number x, Number y => bool_decide (y < x)%Z
  | Object s, Object t => ltString t s
  | _, _ => false
  end.

(** The members that every object written [{}] or [{ ... }] inherits from
    [Object.prototype], on the V8 runtime (which the script needs for its
    [?.] and [??]): the name, the text that the member converts to, and the
    [length] of a member that is a function ([__proto__] gives the
    prototype itself, which has none). *)
Definition objectPrototype : list (string * (string * option Z)) :=
  [ ("constructor", ("function Object() { [native code] }", Some 1%Z));
    ("__defineGetter__", ("function __defineGetter__() { [native code] }", Some 2%Z));
    ("__defineSetter__", ("function __defineSetter__() { [native code] }", Some 2%Z));
    ("hasOwnProperty", ("function hasOwnProperty() { [native code] }", Some 1%Z));
    ("__lookupGetter__", ("function __lookupGetter__() { [native code] }", Some 1%Z));
    ("__lookupSetter__", ("function __lookupSetter__() { [native code] }", Some 1%Z));
    ("isPrototypeOf", ("function isPrototypeOf() { [native code] }", Some 1%Z));
    ("propertyIsEnumerable",
       ("function propertyIsEnumerable() { [native code] }", Some 1%Z));
    ("toString", ("function toString() { [native code] }", Some 0%Z));
    ("valueOf", ("function valueOf() { [native code] }", Some 0%Z));
    ("__proto__", ("[object Object]", None));
    ("toLocaleString", ("function toLocaleString() { [native code] }", Some 0%Z)) ].

(** The inherited member of that name, if there is one. *)
Definition inherited (name : string) : option (string * option Z) :=
  snd <$> List.find (λ kv, String.eqb kv.1 name) objectPrototype.

End JS.

(** ** Configuration (MJM_Config.gs, Global_Constants.gs) *)

Module Config.

Definition MANUAL_REVIEW_NEEDED_TEXT : string := "N/A - Manual Review".

Definition MJM_APP_DEFAULT_STATUS : string := "Applied".
Definition MJM_APP_REJECTED_STATUS : string := "Rejected".
Definition MJM_APP_OFFER_STATUS : string := "Offer Received".
Definition MJM_APP_ACCEPTED_STATUS : string := "Offer Accepted".
Definition MJM_APP_INTERVIEW_STATUS : string := "Interview Scheduled".
Definition MJM_APP_ASSESSMENT_STATUS : string := "Assessment/Screening".
Definition MJM_APP_VIEWED_STATUS : string := "Application Viewed".

(** The entries of the object literal [MJM_APP_STATUS_HIERARCHY]. *)
Definition hierarchyEntries : list (string * Z) :=
  [ (MANUAL_REVIEW_NEEDED_TEXT, -1);
    ("Update/Other", 0);
    (MJM_APP_DEFAULT_STATUS, 1);
    (MJM_APP_VIEWED_STATUS, 2);
    (MJM_APP_ASSESSMENT_STATUS, 3);
    (MJM_APP_INTERVIEW_STATUS, 4);
    (MJM_APP_OFFER_STATUS, 5);
    (MJM_APP_REJECTED_STATUS, 5);
    (MJM_APP_ACCEPTED_STATUS, 6) ]%Z.

(** The own keys of the table.  The table is a plain object: what a lookup
    gives for a status that is not an own key is said by
    [Tracker.rankValue]. *)
Definition MJM_APP_STATUS_HIERARCHY : gmap string Z := list_to_map hierarchyEntries.

Definition MJM_STALE_WEEKS_THRESHOLD : Z := 7.

Definition MJM_STALE_FINAL_STATUSES_FOR_CHECK : gset string :=
  {[ MJM_APP_REJECTED_STATUS; MJM_APP_ACCEPTED_STATUS; "Withdrawn" ]}.

Definition MJM_REJECTION_KEYWORDS : list string :=
  [ "unfortunately"; "regret to inform"; "not moving forward";
    "decided not to proceed"; "other candidates"; "filled the position";
    "thank you for your time but" ].
Definition MJM_OFFER_KEYWORDS : list string :=
  [ "pleased to offer"; "offer of employment"; "job offer";
    "formally offer you the position" ].
Definition MJM_INTERVIEW_KEYWORDS : list string :=
  [ "invitation to interview"; "schedule an interview"; "interview request";
    "like to speak with you"; "next steps involve an interview";
    "interview availability" ].
Definition MJM_ASSESSMENT_KEYWORDS : list string :=
  [ "assessment"; "coding challenge"; "online test"; "technical screen";
    "next step is a skill assessment"; "take a short test" ].
Definition MJM_APP_VIEWED_KEYWORDS : list string :=
  [ "application was viewed"; "your application was viewed by";
    "recruiter viewed your application"; "company viewed your application";
    "viewed your profile for the role" ].

End Config.

(** ** The keyword fallback for the status (MJM_ParsingUtils.gs) *)

Module Parsing.
Import Config.

(** The characters of the class that the normalisation blanks out:
    . , ! ? ; : ( ) [ ] { } ' (34, the double quote) and the hyphen.  The
    typographic quotes and dashes of the class lie above code unit 255. *)
Definition isStatusPunctuation (c : ascii) : bool :=
  bool_decide (nat_of_ascii c ∈
    [46; 44; 33; 63; 59; 58; 40; 41; 91; 93; 123; 125; 39; 34; 45]%nat).

(** [.replace(/[...]/g, ' ')] *)
Fixpoint blankPunctuation (s : string) : string :=
  match s with
  | EmptyString => EmptyString
  | String c r =>
      String (if isStatusPunctuation c then " "%char else c) (blankPunctuation r)
  end.

(** [.replace(/\s+/g, ' ')]: every maximal run of white space becomes one
    space; [inRun] tells that the previous character was white space. *)
Fixpoint collapseFrom (inRun : bool) (s : string) : string :=
  match s with
  | EmptyString => EmptyString
  | String c r =>
      if JS.isWhiteSpace c
      then (if inRun then collapseFrom true r else String " " (collapseFrom true r))
      else String c (collapseFrom false r)
  end.

Definition collapseWhiteSpace (s : string) : string := collapseFrom false s.

Definition normalizeBody (plainBody : string) : string :=
  JS.trim (collapseWhiteSpace (blankPunctuation (JS.toLowerCase plainBody))).

(** [keywords.some(k => bodyLower.includes(k))] *)
Definition someIncluded (bodyLower : string) (keywords : list string) : bool :=
  existsb (JS.includes bodyLower) keywords.

(** [MJM_parseBodyForStatus]; [None] is the [null] result. *)
Definition MJM_parseBodyForStatus (plainBody : string) : option string :=
  if (String.length plainBody <? 10)%nat then None
  else
    let bodyLower := normalizeBody plainBody in
    if someIncluded bodyLower MJM_OFFER_KEYWORDS then Some MJM_APP_OFFER_STATUS
    else if someIncluded bodyLower MJM_INTERVIEW_KEYWORDS then Some MJM_APP_INTERVIEW_STATUS
    else if someIncluded bodyLower MJM_ASSESSMENT_KEYWORDS then Some MJM_APP_ASSESSMENT_STATUS
    else if someIncluded bodyLower MJM_APP_VIEWED_KEYWORDS then Some MJM_APP_VIEWED_STATUS
    else if someIncluded bodyLower MJM_REJECTION_KEYWORDS then Some MJM_APP_REJECTED_STATUS
    else None.

(** The reading of the specification: five keyword sets in the order
    offer, interview, assessment, viewed, rejection, each with its status;
    the first set with a keyword contained in the normalised body wins. *)
Definition statusKeywordSets : list (list string * string) :=
  [ (MJM_OFFER_KEYWORDS, MJM_APP_OFFER_STATUS);
    (MJM_INTERVIEW_KEYWORDS, MJM_APP_INTERVIEW_STATUS);
    (MJM_ASSESSMENT_KEYWORDS, MJM_APP_ASSESSMENT_STATUS);
    (MJM_APP_VIEWED_KEYWORDS, MJM_APP_VIEWED_STATUS);
    (MJM_REJECTION_KEYWORDS, MJM_APP_REJECTED_STATUS) ].

Definition spec_firstMatchingSet (bodyLower : string) : option string :=
  snd <$> List.find (λ set, someIncluded bodyLower set.1) statusKeywordSets.

End Parsing.

(** ** The application tracker (MJM_main.gs, MJM_processJobApplicationEmails) *)

Module Tracker.
Import Config.

(** A cell of a date column: a [Date] value, or text ([CText ""] is the
    blank cell). *)
Inductive cell : Type :=
  | CDate (t : Z)
  | CText (s : string).

#[global] Instance cell_eq_dec : EqDecision cell.
Proof. solve_decision. Defined.

(** One row of the Applications sheet; the fields are the columns 1 to 11
    (MJM_APP_PROCESSED_TIMESTAMP_COL ... MJM_APP_EMAIL_ID_COL).  The three
    date columns hold a [cell]; the other columns hold text, which is what
    the tracker writes into them, so [String(x)] is the identity there. *)
Record Row : Type := mkRow {
  PROCESSED_TIMESTAMP : cell;
  EMAIL_DATE : cell;
  PLATFORM : string;
  COMPANY : string;
  JOB_TITLE : string;
  STATUS : string;
  PEAK_STATUS : string;
  LAST_UPDATE_DATE : cell;
  EMAIL_SUBJECT : string;
  EMAIL_LINK : string;
  EMAIL_ID : string
}.

#[global] Instance Row_eq_dec : EqDecision Row.
Proof. solve_decision. Defined.

(** What [getRange(...).getValues()] gives for a row without content. *)
Definition blankRow : Row :=
  mkRow (CText "") (CText "") "" "" "" "" "" (CText "") "" "" "".

(** An element of the arrays held by [applicationDataCache]. *)
Record Entry : Type := mkEntry {
  rowNum : nat;
  emailId : string;
  company : string;
  title : string;
  status : string;
  peakStatus : string
}.

#[global] Instance Entry_eq_dec : EqDecision Entry.
Proof. solve_decision. Defined.

(** A Gmail message together with what the extraction stage (Gemini, then
    the regular-expression fallback) produced for it.  [extractedStatus] is
    [None] when no tier gave a status. *)
Record Message : Type := mkMessage {
  messageId : string;
  emailDate : Z;
  emailSubject : string;
  detectedPlatform : string;
  extractedCompany : string;
  extractedTitle : string;
  extractedStatus : option string
}.

(** [extractedStatus || MJM_APP_DEFAULT_STATUS] *)
Definition finalStatusToLog (m : Message) : string :=
  match extractedStatus m with
  | Some s => JS.orElse s MJM_APP_DEFAULT_STATUS
  | None => MJM_APP_DEFAULT_STATUS
  end.

Definition emailPermalink (m : Message) : string :=
  "https://mail.google.com/mail/u/0/#inbox/" ++ messageId m.

(** The rank of a status in the table, [d] for a status that is not one of
    its keys. *)
Definition rankOr (d : Z) (s : string) : Z :=
  default d (MJM_APP_STATUS_HIERARCHY !! s).

(** [MJM_APP_STATUS_HIERARCHY[s] ?? d] as the code evaluates it: the rank
    of an own key; for a status that is the name of a member of
    [Object.prototype] that member, which is not nullish, so that [d] does
    not apply; [d] for every other status. *)
Definition rankValue (d : Z) (s : string) : JS.Value :=
  match MJM_APP_STATUS_HIERARCHY !! s with
  | Some r => JS.Number r
  | None =>
      match JS.inherited s with
      | Some member => JS.Object member.1
      | None => JS.Number d
      end
  end.

(** [excludedPeak] and [excludedPInit] are the same set. *)
Definition excludedPeak : gset string :=
  {[ MJM_APP_REJECTED_STATUS; MJM_APP_ACCEPTED_STATUS;
     MANUAL_REVIEW_NEEDED_TEXT; "Update/Other" ]}.

(** *** Merging a message into the row of an existing record *)

(** [String(cell || MJM_APP_DEFAULT_STATUS).trim()] at line 694. *)
Definition statusInSheet (stored : string) : string :=
  JS.trim (JS.orElse stored MJM_APP_DEFAULT_STATUS).

(** The guard of line 698. *)
Definition statusOverrides (current new : string) : bool :=
  JS.ge (rankValue 0 new) (rankValue 0 current)
  || bool_decide (new = MJM_APP_REJECTED_STATUS)
  || bool_decide (new = MJM_APP_OFFER_STATUS).

(** Lines 694 to 700: the value of the status cell after the merge. *)
Definition mergeStatus (stored new : string) : string :=
  if bool_decide (statusInSheet stored ≠ MJM_APP_ACCEPTED_STATUS)
     || bool_decide (new = MJM_APP_ACCEPTED_STATUS)
  then (if statusOverrides (statusInSheet stored) new then new else stored)
  else stored.

(** Line 702: the peak the merge starts from: the cache entry's, else the
    trimmed cell, else the default. *)
Definition peakBefore (cachedPeak storedPeak : string) : string :=
  JS.orElse cachedPeak (JS.orElse (JS.trim storedPeak) MJM_APP_DEFAULT_STATUS).

(** Lines 704 and 705. *)
Definition mergePeak (peak updatedStatusInSheet : string) : string :=
  if JS.gt (rankValue (-2) updatedStatusInSheet) (rankValue (-2) peak)
     && bool_decide (updatedStatusInSheet ∉ excludedPeak)
  then updatedStatusInSheet
  else if bool_decide (peak = MJM_APP_DEFAULT_STATUS)
          && bool_decide (updatedStatusInSheet ∉ excludedPeak)
          && JS.gt (rankValue 0 updatedStatusInSheet) (rankValue 0 MJM_APP_DEFAULT_STATUS)
  then updatedStatusInSheet
  else peak.

(** Lines 691 and 692, for the company and for the title. *)
Definition mergeField (stored extracted : string) : string :=
  if bool_decide (extracted ≠ MANUAL_REVIEW_NEEDED_TEXT)
     && (bool_decide (stored = MANUAL_REVIEW_NEEDED_TEXT)
         || bool_decide (JS.toLowerCase stored ≠ JS.toLowerCase extracted))
  then extracted else stored.

(** Lines 721 and 722. *)
Definition initPeak (final : string) : string :=
  if bool_decide (final ∉ excludedPeak) then final else MJM_APP_DEFAULT_STATUS.

Section WithDateParse.

(** [new Date(text).getTime()], [None] when it is NaN. *)
Variable dateParse : string -> option Z.

(** The date a cell stands for, if any (lines 683 and 686). *)
Definition cellTime (c : cell) : option Z :=
  match c with
  | CDate t => Some t
  | CText s => if bool_decide (s = "") then None else dateParse s
  end.

(** Lines 684 and 687: the cell takes the message date when it holds no
    date or an older one. *)
Definition mergeDate (c : cell) (emailDate : Z) : cell :=
  match cellTime c with
  | Some t => if bool_decide (t < emailDate)%Z then CDate emailDate else c
  | None => CDate emailDate
  end.

(** Lines 680 to 706: the row written back for an existing record;
    [cachedPeak] is [existingApplicationEntry.peakStatus] and [now] the
    clock reading of line 682. *)
Definition updateRow (row : Row) (cachedPeak : string) (m : Message) (now : Z) : Row :=
  let updatedStatusInSheet := mergeStatus (STATUS row) (finalStatusToLog m) in
  {| PROCESSED_TIMESTAMP := CDate now;
     EMAIL_DATE := mergeDate (EMAIL_DATE row) (emailDate m);
     PLATFORM := detectedPlatform m;
     COMPANY := mergeField (COMPANY row) (extractedCompany m);
     JOB_TITLE := mergeField (JOB_TITLE row) (extractedTitle m);
     STATUS := updatedStatusInSheet;
     PEAK_STATUS := mergePeak (peakBefore cachedPeak (PEAK_STATUS row)) updatedStatusInSheet;
     LAST_UPDATE_DATE := mergeDate (LAST_UPDATE_DATE row) (emailDate m);
     EMAIL_SUBJECT := emailSubject m;
     EMAIL_LINK := emailPermalink m;
     EMAIL_ID := messageId m |}.

(** *** The life of one record

    A record is its sheet row together with the [peakStatus] of its cache
    entry, which line 702 reads first. *)

(** One reconciliation into the record during a run: the row is rewritten
    and line 712 stores the new peak in the entry. *)
Definition reconcile (rs : Row * string) (ev : Message * Z) : Row * string :=
  let row' := updateRow rs.1 rs.2 ev.1 ev.2 in (row', PEAK_STATUS row').

Definition reconcileAll (rs : Row * string) (evs : list (Message * Z)) : Row * string :=
  fold_left reconcile evs rs.

(** Between two runs the entry is rebuilt from the row (line 577). *)
Definition reload (rs : Row * string) : Row * string :=
  (rs.1, JS.trim (PEAK_STATUS rs.1)).

Inductive Step : Type :=
  | Reconcile (m : Message) (now : Z)
  | NewRun.

Definition step (rs : Row * string) (s : Step) : Row * string :=
  match s with
  | Reconcile m now => reconcile rs (m, now)
  | NewRun => reload rs
  end.

Definition runSteps (rs : Row * string) (steps : list Step) : Row * string :=
  fold_left step steps rs.


End WithDateParse.

(** Lines 715 to 723: the row appended for a new record. *)
Definition newRow (m : Message) (now : Z) : Row :=
  {| PROCESSED_TIMESTAMP := CDate now;
     EMAIL_DATE := CDate (emailDate m);
     PLATFORM := detectedPlatform m;
     COMPANY := extractedCompany m;
     JOB_TITLE := extractedTitle m;
     STATUS := finalStatusToLog m;
     PEAK_STATUS := initPeak (finalStatusToLog m);
     LAST_UPDATE_DATE := CDate (emailDate m);
     EMAIL_SUBJECT := emailSubject m;
     EMAIL_LINK := emailPermalink m;
     EMAIL_ID := messageId m |}.

(** *** The cache of the run and its preload (lines 553 to 583) *)

(** [applicationDataCache]: the own keys of the object, each a lower-cased
    company with the array of its entries. *)
Abbreviation Cache := (gmap string (list Entry)).

(** What [applicationDataCache[k]] gives: the array of an own key; for the
    name of a member of [Object.prototype] that member, a truthy object
    that is no array, with its [length] if it has one; [undefined]
    otherwise. *)
Inductive Member : Type :=
  | Matches (entries : list Entry)
  | Inherited (length : option Z)
  | Undefined.

Definition cacheGet (cache : Cache) (k : string) : Member :=
  match cache !! k with
  | Some entries => Matches entries
  | None =>
      match JS.inherited k with
      | Some member => Inherited member.2
      | None => Undefined
      end
  end.

(** The test of line 573 on the lower-cased, trimmed company. *)
Definition cacheable (companyLCKey : string) : bool :=
  bool_decide (companyLCKey ≠ "")
  && bool_decide (companyLCKey ≠ JS.toLowerCase MANUAL_REVIEW_NEEDED_TEXT)
  && bool_decide (companyLCKey ≠ "n/a").

Definition entryOfRow (sheetRowIndex : nat) (r : Row) : Entry :=
  {| rowNum := sheetRowIndex + 2;
     emailId := JS.trim (EMAIL_ID r);
     company := JS.trim (COMPANY r);
     title := JS.trim (JOB_TITLE r);
     status := JS.trim (STATUS r);
     peakStatus := JS.trim (PEAK_STATUS r) |}.

(** [if (!cache[k]) cache[k] = []; cache[k].push(e)] where it does not
    throw. *)
Definition pushEntry (k : string) (e : Entry) (cache : Cache) : Cache :=
  <[k := (default [] (cache !! k) ++ [e])%list]> cache.

(** Where it throws: [cache[k]] is an inherited member, which is truthy and
    has no [push]. *)
Definition pushThrows (k : string) (cache : Cache) : bool :=
  match cacheGet cache k with
  | Inherited _ => true
  | _ => false
  end.

(** The [forEach] of line 568 from data row [sheetRowIndex] on.  When
    [push] throws, the [catch] of line 582 ends the preload with the cache
    as filled so far. *)
Fixpoint preloadFrom (sheetRowIndex : nat) (rows : list Row) (cache : Cache) : Cache :=
  match rows with
  | [] => cache
  | r :: rest =>
      let companyLCKey := JS.toLowerCase (JS.trim (COMPANY r)) in
      if cacheable companyLCKey then
        if pushThrows companyLCKey cache then cache
        else preloadFrom (S sheetRowIndex) rest
               (pushEntry companyLCKey (entryOfRow sheetRowIndex r) cache)
      else preloadFrom (S sheetRowIndex) rest cache
  end.

(** The sheet is the list of its data rows: element [i] is sheet row
    [i + 2], below the header row. *)
Definition preloadCache (sheet : list Row) : Cache := preloadFrom 0 sheet ∅.

(** *** Identity resolution (lines 667 to 675) *)

Definition companyCacheKeyForSearch (m : Message) : string :=
  if bool_decide (extractedCompany m ≠ MANUAL_REVIEW_NEEDED_TEXT)
  then JS.toLowerCase (extractedCompany m)
  else "_mrev_entry_key_" ++ messageId m.

(** The comparator [(a, b) => b.rowNum - a.rowNum] is positive when [b]
    has the greater row number. *)
Definition byRowNumDesc (a b : Entry) : bool := bool_decide (rowNum a < rowNum b).

Definition titleMatches (extractedTitle : string) (e : Entry) : bool :=
  bool_decide (JS.toLowerCase (title e) = JS.toLowerCase extractedTitle).

(** How lines 670 to 675 end: with an entry, with none, or with a
    TypeError, which the [catch] of line 741 takes. *)
Inductive Resolution : Type :=
  | Existing (e : Entry)
  | NoMatch
  | TypeError.

(** The entry chosen for the message, and the cache afterwards: line 673
    sorts the company's array in place.  When [cache[key]] is an inherited
    member, [matches.find] is no function (line 672), and with an
    unresolved title neither is [matches.sort] (line 673), which is reached
    when the member has a positive [length]. *)
Definition resolveIdentity (cache : Cache) (m : Message) : Resolution * Cache :=
  if bool_decide (extractedCompany m ≠ MANUAL_REVIEW_NEEDED_TEXT) then
    match cacheGet cache (companyCacheKeyForSearch m) with
    | Matches matches =>
        let byTitle :=
          if bool_decide (extractedTitle m ≠ MANUAL_REVIEW_NEEDED_TEXT)
          then List.find (titleMatches (extractedTitle m)) matches
          else None in
        match byTitle with
        | Some e => (Existing e, cache)
        | None =>
            match matches with
            | [] => (NoMatch, cache)
            | _ :: _ =>
                let sorted := JS.sort byRowNumDesc matches in
                (match head sorted with Some e => Existing e | None => NoMatch end,
                 <[companyCacheKeyForSearch m := sorted]> cache)
            end
        end
    | Inherited length =>
        if bool_decide (extractedTitle m ≠ MANUAL_REVIEW_NEEDED_TEXT)
        then (TypeError, cache)
        else
          match length with
          | Some n => if bool_decide (0 < n)%Z then (TypeError, cache) else (NoMatch, cache)
          | None => (NoMatch, cache)
          end
    | Undefined => (NoMatch, cache)
    end
  else (NoMatch, cache).

(** *** One iteration of the message loop (lines 618 to 750) *)

Record State : Type := mkState {
  sheet : list Row;
  cache : Cache
}.

(** [getRange(rowNum, 1, 1, 11).getValues()[0]] *)
Definition readRow (sheet : list Row) (rowNum : nat) : Row :=
  default blankRow (sheet !! (rowNum - 2)).

(** [getRange(rowNum, 1, 1, 11).setValues([row])]; writing below the last
    row extends the sheet. *)
Definition writeRow (sheet : list Row) (rowNum : nat) (row : Row) : list Row :=
  if bool_decide (rowNum - 2 < length sheet)
  then <[rowNum - 2 := row]> sheet
  else (sheet ++ replicate (rowNum - 2 - length sheet) blankRow ++ [row])%list.

(** [Object.assign(cacheItem, {...})] on the first entry of the array
    whose row number is [n] (lines 711 and 712). *)
Fixpoint assignFirst (n : nat) (upd : Entry -> Entry) (l : list Entry) : list Entry :=
  match l with
  | [] => []
  | e :: l' => if bool_decide (rowNum e = n) then upd e :: l' else e :: assignFirst n upd l'
  end.

Section WithDateParseRun.

Variable dateParse : string -> option Z.

(** The branch of line 678: the row of the entry is rewritten and the
    entry refreshed. *)
Definition updateExisting (st : State) (e : Entry) (m : Message) (now : Z) : State :=
  let row' := updateRow dateParse (readRow (sheet st) (rowNum e)) (peakStatus e) m now in
  let refresh (c : Entry) : Entry :=
    {| rowNum := rowNum c;
       emailId := messageId m;
       company := COMPANY row';
       title := JOB_TITLE row';
       status := STATUS row';
       peakStatus := PEAK_STATUS row' |} in
  {| sheet := writeRow (sheet st) (rowNum e) row';
     cache := alter (assignFirst (rowNum e) refresh) (companyCacheKeyForSearch m) (cache st) |}.

(** The branch of line 713: a row is appended and entered in the cache;
    [getLastRow()] is then the row number of the appended row.  When the
    [push] of line 730 throws, the row is in the sheet already and the
    cache stays as it was. *)
Definition appendNew (st : State) (m : Message) (now : Z) : State :=
  let row := newRow m now in
  let sheet' := (sheet st ++ [row])%list in
  {| sheet := sheet';
     cache := if pushThrows (companyCacheKeyForSearch m) (cache st) then cache st
              else pushEntry (companyCacheKeyForSearch m)
                     {| rowNum := length sheet' + 1;
                        emailId := messageId m;
                        company := extractedCompany m;
                        title := extractedTitle m;
                        status := finalStatusToLog m;
                        peakStatus := initPeak (finalStatusToLog m) |}
                     (cache st) |}.

(** Lines 667 to 731 for one message: sheet and cache afterwards.  A
    TypeError of the resolution leaves both as they were. *)
Definition processMessage (st : State) (m : Message) (now : Z) : State :=
  match resolveIdentity (cache st) m with
  | (Existing e, cache') => updateExisting {| sheet := sheet st; cache := cache' |} e m now
  | (NoMatch, cache') => appendNew {| sheet := sheet st; cache := cache' |} m now
  | (TypeError, cache') => {| sheet := sheet st; cache := cache' |}
  end.

(** Whether these lines throw, so that the [catch] of line 741 marks the
    thread for manual review. *)
Definition processThrows (st : State) (m : Message) : bool :=
  match resolveIdentity (cache st) m with
  | (Existing _, _) => false
  | (NoMatch, cache') => pushThrows (companyCacheKeyForSearch m) cache'
  | (TypeError, _) => true
  end.

(** *** Collecting the unseen messages (lines 585 to 612) *)

Record Thread : Type := mkThread {
  threadId : string;
  messages : list Message
}.

Definition MAX_THREADS_TO_SCAN : nat := 15.
Definition MAX_MESSAGES_TO_PROCESS_THIS_RUN : nat := 20.

(** Line 594: the ids of the entries of the cache, the empty id left out. *)
Definition emailIdsAlreadyInSheet (cache : Cache) : gset string :=
  list_to_set
    (filter (λ id, id ≠ "") (emailId <$> concat ((map_to_list cache).*2))).

(** The body of the inner [forEach] of line 598; the accumulator is
    [newMessagesList] with [alreadyProcessedMsgIdsThisRun]. *)
Definition scanMessage (inSheet : gset string)
    (acc : list Message * gset string) (msg : Message) : list Message * gset string :=
  if bool_decide (messageId msg ∉ inSheet) && bool_decide (messageId msg ∉ acc.2)
  then ((acc.1 ++ [msg])%list, {[ messageId msg ]} ∪ acc.2)
  else acc.

Definition scanThreads (inSheet : gset string) (threads : list Thread)
    : list Message * gset string :=
  fold_left (λ acc th, fold_left (scanMessage inSheet) (messages th) acc) threads ([], ∅).

(** [(a, b) => new Date(a.emailDate) - new Date(b.emailDate)] *)
Definition byEmailDate (a b : Message) : bool := bool_decide (emailDate b < emailDate a)%Z.

Definition newMessagesList (cache : Cache) (threads : list Thread) : list Message :=
  JS.sort byEmailDate (scanThreads (emailIdsAlreadyInSheet cache) (take MAX_THREADS_TO_SCAN threads)).1.

(** *** The run *)

(** Clock readings: the start of the script, and for iteration [idx] of
    the message loop the reading of the budget test (line 619) and the one
    stamped on the row (lines 682 and 716). *)
Variable scriptStart : Z.
Variable timeAtCheck : nat -> Z.
Variable timeAtWrite : nat -> Z.

(** The [for] loop of line 618; [idx] also is
    [processedMessagesCountThisRun]. *)
Fixpoint messageLoop (st : State) (idx : nat) (msgs : list Message) : State :=
  match msgs with
  | [] => st
  | m :: rest =>
      if bool_decide (MAX_MESSAGES_TO_PROCESS_THIS_RUN ≤ idx)%nat
         || bool_decide (330 * 1000 < timeAtCheck idx - scriptStart)%Z
      then st
      else messageLoop (processMessage st m (timeAtWrite idx)) (S idx) rest
  end.

(** The sheet after a run over the threads under the To Process label.
    Extraction and the writes are taken on their success path. *)
Definition MJM_processJobApplicationEmails (sheet : list Row) (threads : list Thread) : list Row :=
  let applicationDataCache := preloadCache sheet in
  Tracker.sheet
    (messageLoop {| sheet := sheet; cache := applicationDataCache |} 0
       (newMessagesList applicationDataCache threads)).

End WithDateParseRun.

(** The record as its creation leaves it: the appended row, and the peak
    pushed into the cache with it (line 730). *)
Definition createRecord (m : Message) (now : Z) : Row * string :=
  (newRow m now, initPeak (finalStatusToLog m)).

(** The rows that the preload reaches: those before the first row at which
    [push] throws, a row whose key is the name of an inherited member. *)
Fixpoint preloadedRows (rows : list Row) : list Row :=
  match rows with
  | [] => []
  | r :: rest =>
      let companyLCKey := JS.toLowerCase (JS.trim (COMPANY r)) in
      if cacheable companyLCKey && bool_decide (JS.inherited companyLCKey ≠ None)
      then [] else r :: preloadedRows rest
  end.

(** No own key of the cache is the name of an inherited member: [push]
    throws before such a key could be made. *)
Definition ownKeysOnly (cache : Cache) : Prop :=
  ∀ k, is_Some (cache !! k) → JS.inherited k = None.

(** The entries that the preload files under key [k]: those of the data
    rows whose trimmed, lower-cased company is [k], in sheet order. *)
Fixpoint entriesFor (k : string) (sheetRowIndex : nat) (rows : list Row) : list Entry :=
  match rows with
  | [] => []
  | r :: rest =>
      if bool_decide (JS.toLowerCase (JS.trim (COMPANY r)) = k)
      then entryOfRow sheetRowIndex r :: entriesFor k (S sheetRowIndex) rest
      else entriesFor k (S sheetRowIndex) rest
  end.

(** *** Invariants of the record, the cache and the scan *)

(** Within a run the entry and the row agree on a peak that is neither
    empty nor excluded. *)
Definition inRunInvariant (rs : Row * string) : Prop :=
  rs.2 = PEAK_STATUS rs.1 ∧ rs.2 ≠ "" ∧ rs.2 ∉ excludedPeak.

(** The peak that line 702 would read ranks at least as the cell. *)
Definition readsNoLower (rs : Row * string) : Prop :=
  (rankOr (-2) (PEAK_STATUS rs.1) ≤ rankOr (-2) (peakBefore rs.2 (PEAK_STATUS rs.1)))%Z.

(** Entry and cell agree on a trimmed peak outside the excluded set. *)
Definition acrossRunsInvariant (rs : Row * string) : Prop :=
  inRunInvariant rs ∧ JS.trim (PEAK_STATUS rs.1) = PEAK_STATUS rs.1.

(** After the sort of line 673 the first entry has the greatest row
    number. *)
Definition headIsGreatest (l : list Entry) : Prop :=
  match l with
  | [] => True
  | e :: rest => Forall (λ e', rowNum e' ≤ rowNum e)%nat rest
  end.

(** What the scan keeps true of [newMessagesList] and
    [alreadyProcessedMsgIdsThisRun]. *)
Definition scanInvariant (inSheet : gset string) (acc : list Message * gset string) : Prop :=
  (∀ m, m ∈ acc.1 → messageId m ∉ inSheet)
  ∧ NoDup (messageId <$> acc.1)
  ∧ (∀ id, id ∈ acc.2 ↔ id ∈ messageId <$> acc.1).

End Tracker.

(** ** The staleness sweep (MJM_main.gs, MJM_markStaleApplicationsAsRejected) *)

Module Sweep.
Import Config Tracker.

Section WithRuntime.

(** [new Date(text).getTime()], [None] when it is NaN. *)
Variable dateParse : string -> option Z.

(** ECMAScript's LocalTZA(t, isUTC): the offset of local time, in
    milliseconds, at the UTC time [t] or at the local time [t]. *)
Variable LocalTZA : Z -> bool -> Z.

Definition msPerDay : Z := 86400000.

(** Lines 790 and 791: [setDate(getDate() - 7 * 7)] moves the local time
    back by 49 calendar days and converts it to UTC again. *)
Definition staleDateThreshold (currentDate : Z) : Z :=
  let localTime := (currentDate + LocalTZA currentDate true)%Z in
  let newDate := (localTime - (MJM_STALE_WEEKS_THRESHOLD * 7) * msPerDay)%Z in
  (newDate - LocalTZA newDate false)%Z.

(** Lines 803 to 817: the time of the Last Update Date cell; [None] is a
    [continue]. *)
Definition lastUpdateDateObject (c : cell) : option Z :=
  match c with
  | CDate t => Some t
  | CText s => if bool_decide (JS.trim s = "") then None else dateParse s
  end.

(** [String(cell || "").trim()] at line 802. *)
Definition currentAppStatus (r : Row) : string := JS.trim (STATUS r).

(** The test of line 822. *)
Definition exemptStatus (appStatus : string) : bool :=
  bool_decide (appStatus ∈ MJM_STALE_FINAL_STATUSES_FOR_CHECK)
  || bool_decide (appStatus = "")
  || bool_decide (appStatus = MANUAL_REVIEW_NEEDED_TEXT).

(** The row reaches line 832. *)
Definition isStale (currentDate : Z) (r : Row) : bool :=
  match lastUpdateDateObject (LAST_UPDATE_DATE r) with
  | None => false
  | Some t =>
      if exemptStatus (currentAppStatus r) then false
      else if bool_decide (staleDateThreshold currentDate ≤ t)%Z then false
      else true
  end.

(** Lines 834 to 836. *)
Definition markStale (currentDate : Z) (r : Row) : Row :=
  {| PROCESSED_TIMESTAMP := CDate currentDate;
     EMAIL_DATE := EMAIL_DATE r;
     PLATFORM := PLATFORM r;
     COMPANY := COMPANY r;
     JOB_TITLE := JOB_TITLE r;
     STATUS := MJM_APP_REJECTED_STATUS;
     PEAK_STATUS := PEAK_STATUS r;
     LAST_UPDATE_DATE := CDate currentDate;
     EMAIL_SUBJECT := EMAIL_SUBJECT r;
     EMAIL_LINK := EMAIL_LINK r;
     EMAIL_ID := EMAIL_ID r |}.

(** The loop of line 798 over the rows below the header: the values after
    the loop and [updatedStaleApplicationsCount]. *)
Fixpoint sweepRows (currentDate : Z) (rows : list Row) : list Row * nat :=
  match rows with
  | [] => ([], 0)
  | r :: rest =>
      let res := sweepRows currentDate rest in
      if isStale currentDate r
      then (markStale currentDate r :: res.1, S res.2)
      else (r :: res.1, res.2)
  end.

(** The sweep on [allSheetValues] (header row first).  The result is the
    argument of the one [setValues] call of line 843, [None] when the
    sweep returns without writing. *)
Definition MJM_markStaleApplicationsAsRejected
    (currentDate : Z) (allSheetValues : list Row) : option (list Row) :=
  match allSheetValues with
  | [] | [_] => None
  | header :: rows =>
      let res := sweepRows currentDate rows in
      if bool_decide (0 < res.2)%nat then Some (header :: res.1) else None
  end.

(** The values of the sheet after the sweep, the write of line 843
    succeeding. *)
Definition sheetAfterSweep (currentDate : Z) (allSheetValues : list Row) : list Row :=
  default allSheetValues (MJM_markStaleApplicationsAsRejected currentDate allSheetValues).

(** The condition of the sweep, in words: the status is not final, not
    empty and not the manual-review sentinel, and the row has a last update
    time that is strictly before the threshold. *)
Definition staleCondition (currentDate : Z) (r : Row) : Prop :=
  (currentAppStatus r ∉ MJM_STALE_FINAL_STATUSES_FOR_CHECK)
  ∧ currentAppStatus r ≠ ""
  ∧ currentAppStatus r ≠ MANUAL_REVIEW_NEEDED_TEXT
  ∧ ∃ t, lastUpdateDateObject (LAST_UPDATE_DATE r) = Some t
         ∧ (t < staleDateThreshold currentDate)%Z.

(** The same condition against a given time [limit]: the status is none of
    Rejected, Offer Accepted and Withdrawn, not empty and not the
    manual-review sentinel, and the last update time is strictly before
    [limit]. *)
Definition staleBefore (limit : Z) (r : Row) : Prop :=
  (currentAppStatus r ∉ ["Rejected"; "Offer Accepted"; "Withdrawn"])
  ∧ currentAppStatus r ≠ ""
  ∧ currentAppStatus r ≠ MANUAL_REVIEW_NEEDED_TEXT
  ∧ ∃ t, lastUpdateDateObject (LAST_UPDATE_DATE r) = Some t ∧ (t < limit)%Z.

End WithRuntime.

End Sweep.

(** ** Inputs for the worked scenarios *)

Module Examples.
Import Config Tracker.

(** A runtime whose date parser accepts no text and whose local time is
    UTC. *)
Definition noDateParse : string -> option Z := λ _, None.
Definition utc : Z -> bool -> Z := λ _ _, 0%Z.

Definition rowInterview : Row :=
  mkRow (CDate 1000) (CDate 1000) "LinkedIn" "Acme" "Software Engineer"
        "Interview Scheduled" "Interview Scheduled" (CDate 1000)
        "Interview" "https://mail.google.com/mail/u/0/#inbox/m0" "m0".

Definition rowAccepted : Row :=
  mkRow (CDate 1000) (CDate 1000) "LinkedIn" "Acme" "Software Engineer"
        "Offer Accepted" "Interview Scheduled" (CDate 1000)
        "Welcome" "https://mail.google.com/mail/u/0/#inbox/m0" "m0".

Definition rowRejected : Row :=
  mkRow (CDate 1000) (CDate 1000) "LinkedIn" "Acme" "Software Engineer"
        "Rejected" "Interview Scheduled" (CDate 1000)
        "Your application" "https://mail.google.com/mail/u/0/#inbox/m0" "m0".

Definition msgOffer : Message :=
  mkMessage "m4" 2800 "Good news" "Other" "Acme" "Software Engineer"
            (Some "Offer Received").

Definition msgRejected : Message :=
  mkMessage "m1" 2000 "Your application" "Other" "Acme" "Software Engineer"
            (Some "Rejected").

Definition msgApplied : Message :=
  mkMessage "m2" 2500 "Thank you for applying" "Other" "Acme" "Software Engineer"
            (Some "Applied").

(** One record of Acme, created by message m0. *)
Definition acmeSheet : list Row :=
  [ mkRow (CDate 1000) (CDate 1000) "LinkedIn" "Acme" "Software Engineer"
          "Applied" "Applied" (CDate 1000)
          "Thank you for applying" "https://mail.google.com/mail/u/0/#inbox/m0" "m0" ].

Definition msgAcmeFirst : Message :=
  mkMessage "m0" 1000 "Thank you for applying" "LinkedIn" "Acme" "Software Engineer"
            (Some "Applied").

Definition msgAnalyst : Message :=
  mkMessage "m3" 4000 "Application update" "Other" "Acme" "Data Analyst"
            (Some "Application Viewed").





(** A message whose status, as the Gemini answer gave it, is the word
    constructor, and an application confirmation for the same company and
    title in the same thread. *)
Definition msgOddStatus : Message :=
  mkMessage "m12" 2000 "Your application" "Other" "Initech" "Engineer"
            (Some "constructor").

Definition msgInitechApplied : Message :=
  mkMessage "m13" 3000 "Thank you for applying" "Other" "Initech" "Engineer"
            (Some "Applied").

Definition threadInitech : Thread := mkThread "t12" [msgOddStatus; msgInitechApplied].

(** A rejection whose status text, as the Gemini answer gave it, ends in a
    space; and an application confirmation for the same company and title,
    found by a later run. *)
Definition msgRejectedSpace : Message :=
  mkMessage "m6" 2000 "Your application" "Other" "Globex" "Engineer"
            (Some "Rejected ").

Definition msgGlobexApplied : Message :=
  mkMessage "m7" 5000 "Thank you for applying" "Other" "Globex" "Engineer"
            (Some "Applied").

Definition threadGlobex : Thread := mkThread "t6" [msgRejectedSpace].

Definition threadGlobexLater : Thread := mkThread "t6" [msgRejectedSpace; msgGlobexApplied].


(** A record whose company could not be resolved, created by message m1,
    and the thread of m1 back under the To Process label. *)
Definition msgUnresolved : Message :=
  mkMessage "m1" 1000 "Hello" "Other" MANUAL_REVIEW_NEEDED_TEXT MANUAL_REVIEW_NEEDED_TEXT
            None.

Definition manualReviewSheet : list Row := [newRow msgUnresolved 1500].

Definition threadOfM1 : Thread := mkThread "t1" [msgUnresolved].

(** The sweep runs at [sweepTime]; one row was last updated eight weeks
    before, another six weeks before. *)
Definition sweepTime : Z := 10000000000.

Definition headerRow : Row :=
  mkRow (CText "Processed Timestamp") (CText "Email Date") "Platform" "Company"
        "Job Title" "Status" "Peak Status" (CText "Last Update Date")
        "Email Subject" "Email Link" "Email ID".

Definition rowAppliedOld : Row :=
  mkRow (CDate 1000) (CDate 1000) "LinkedIn" "Acme" "Software Engineer"
        "Applied" "Applied" (CDate (sweepTime - 8 * 7 * 86400000))
        "Thank you for applying" "https://mail.google.com/mail/u/0/#inbox/m0" "m0".

Definition rowAppliedRecent : Row :=
  mkRow (CDate 1000) (CDate 1000) "LinkedIn" "Acme" "Software Engineer"
        "Applied" "Applied" (CDate (sweepTime - 6 * 7 * 86400000))
        "Thank you for applying" "https://mail.google.com/mail/u/0/#inbox/m0" "m0".

End Examples.

(** ** Further invariants of the run *)

Module RunModel.
Import Config Tracker.

(** Every entry of the cache points at a data row of the sheet: row 2 is the
    first data row, row [length sheet + 1] the last one. *)
Definition cacheRowsInRange (st : State) : Prop :=
  ∀ k l e, cache st !! k = Some l → e ∈ l →
    (2 ≤ rowNum e ≤ length (sheet st) + 1)%nat.

(** The latest of the message dates that reached a record. *)
Definition latestEmailDate (m0 : Message) (evs : list (Message * Z)) : Z :=
  fold_left (λ t ev, Z.max t (emailDate ev.1)) evs (emailDate m0).

End RunModel.

(** ** Sheet utilities and the Gemini call (MJM_SheetUtils.gs) *)

Module SheetUtils.
Import Config.

(** The [while] loop of [MJM_columnToLetter] on an integer column; it runs
    at most [column] times, which [fuel] counts.  The code computes in
    double-precision numbers, in which the subtractions, the remainder and
    the division of the loop are exact for the integers up to 2^53; the
    model stands for the code on those columns. *)
Fixpoint columnLetters (fuel : nat) (column : Z) (letter : string) : string :=
  match fuel with
  | O => letter
  | S fuel' =>
      if bool_decide (0 < column)%Z then
        let temp := ((column - 1) mod 26)%Z in
        columnLetters fuel' ((column - temp - 1) / 26)%Z
          (String (ascii_of_nat (Z.to_nat (temp + 65))) letter)
      else letter
  end.

(** [MJM_columnToLetter]: the letters of a 1-based column, the empty string
    for a column below 1. *)
Definition MJM_columnToLetter (column : Z) : string :=
  if bool_decide (column < 1)%Z then ""
  else columnLetters (Z.to_nat column) column "".

(** The reading of the comment of the function (1 -> A, 27 -> AA): the
    column that a word of letters names, A counting 1 and Z counting 26. *)
Fixpoint lettersToColumnFrom (acc : Z) (letters : string) : Z :=
  match letters with
  | EmptyString => acc
  | String c rest =>
      lettersToColumnFrom (acc * 26 + (Z.of_nat (nat_of_ascii c) - 64))%Z rest
  end.

Definition spec_lettersToColumn (letters : string) : Z := lettersToColumnFrom 0 letters.

(** *** [MJM_callGemini_forApplicationDetails], lines 406 to 458

    What the text of the first candidate parses to: not JSON at all, or an
    object whose three keys are each absent ([None]) or present with a
    value, the empty string standing for every falsy value. *)
Inductive ExtractedData : Type :=
  | NotJson
  | JsonObject (company_name job_title status : option string).

(** What a response with code 200 holds. *)
Inductive ResponseBody : Type :=
  | CandidateText (data : ExtractedData)
  | PromptBlocked (blockReason : string)
  | NoCandidates.

(** What one [UrlFetchApp.fetch] does: it throws (also when the body of a
    200 response is not JSON), or it answers with a code and a body. *)
Inductive FetchOutcome : Type :=
  | FetchThrows
  | Responds (responseCode : Z) (body : ResponseBody).

Record GeminiResult : Type := mkGeminiResult {
  company : string;
  title : string;
  status : string
}.

Definition defaultResult : GeminiResult :=
  mkGeminiResult MANUAL_REVIEW_NEEDED_TEXT MANUAL_REVIEW_NEEDED_TEXT
                 MANUAL_REVIEW_NEEDED_TEXT.

Definition maxAttempts : nat := 2.

(** What a response with code 200 makes of the result (lines 417 to 438). *)
Definition resultOfBody (body : ResponseBody) : GeminiResult :=
  match body with
  | CandidateText (JsonObject (Some c) (Some t) (Some s)) =>
      mkGeminiResult (JS.orElse c MANUAL_REVIEW_NEEDED_TEXT)
                     (JS.orElse t MANUAL_REVIEW_NEEDED_TEXT)
                     (JS.orElse s MANUAL_REVIEW_NEEDED_TEXT)
  | PromptBlocked blockReason =>
      if bool_decide (blockReason = "") then defaultResult
      else mkGeminiResult MANUAL_REVIEW_NEEDED_TEXT MANUAL_REVIEW_NEEDED_TEXT
                          ("Blocked: " ++ blockReason)
  | _ => defaultResult
  end.

(** The one answer that fills the result (line 425): code 200 and a JSON
    object with the three keys. *)
Definition completeAnswer (o : FetchOutcome) (r : GeminiResult) : Prop :=
  ∃ c t s, o = Responds 200 (CandidateText (JsonObject (Some c) (Some t) (Some s)))
    ∧ r = mkGeminiResult (JS.orElse c MANUAL_REVIEW_NEEDED_TEXT)
                         (JS.orElse t MANUAL_REVIEW_NEEDED_TEXT)
                         (JS.orElse s MANUAL_REVIEW_NEEDED_TEXT).

(** What the outcome of a fetch that ends the loop makes of the result:
    only a response with code 200 can change it. *)
Definition resultOfOutcome (o : FetchOutcome) : GeminiResult :=
  match o with
  | FetchThrows => defaultResult
  | Responds responseCode body =>
      if bool_decide (responseCode = 200)%Z then resultOfBody body else defaultResult
  end.

(** The [while] loop: [attempt] fetches were made, [left] may still be
    made; [fetch n] is the outcome of the [n]-th fetch.  The result comes
    with the number of fetches made. *)
Fixpoint callLoop (left : nat) (attempt : nat) (fetch : nat -> FetchOutcome)
    : GeminiResult * nat :=
  match left with
  | O => (defaultResult, attempt)
  | S left' =>
      let attempt := S attempt in
      match fetch attempt with
      | FetchThrows =>
          if bool_decide (attempt < maxAttempts)%nat
          then callLoop left' attempt fetch
          else (defaultResult, attempt)
      | Responds responseCode body =>
          if bool_decide (responseCode = 200)%Z then (resultOfBody body, attempt)
          else if bool_decide (responseCode = 429)%Z && bool_decide (attempt < maxAttempts)%nat
          then callLoop left' attempt fetch
          else (defaultResult, attempt)
      end
  end.

Definition MJM_callGemini_forApplicationDetails
    (emailSubject emailBody : string) (fetch : nat -> FetchOutcome) : GeminiResult * nat :=
  if bool_decide (JS.trim emailSubject = "") && bool_decide (JS.trim emailBody = "")
  then (defaultResult, 0)
  else callLoop maxAttempts 0 fetch.

End SheetUtils.

(** ** Time-driven triggers (MJM_Triggers.gs) *)

Module Triggers.

Inductive EventType : Type := CLOCK | ON_OPEN | ON_EDIT | ON_FORM_SUBMIT | ON_CHANGE.
Inductive TriggerSource : Type := SOURCE_CLOCK | SPREADSHEETS | FORMS | DOCUMENTS | CALENDAR.
Inductive Schedule : Type :=
  | EveryHours (n : Z)
  | EveryDayAtHour (hourOfDay : Z)
  | OtherSchedule.

#[global] Instance EventType_eq_dec : EqDecision EventType.
Proof. solve_decision. Defined.
#[global] Instance TriggerSource_eq_dec : EqDecision TriggerSource.
Proof. solve_decision. Defined.
#[global] Instance Schedule_eq_dec : EqDecision Schedule.
Proof. solve_decision. Defined.

(** An installed trigger, as [ScriptApp.getProjectTriggers()] lists it. *)
Record Trigger : Type := mkTrigger {
  getHandlerFunction : string;
  getEventType : EventType;
  getTriggerSource : TriggerSource;
  schedule : Schedule
}.

#[global] Instance Trigger_eq_dec : EqDecision Trigger.
Proof. solve_decision. Defined.

(** The test of the three functions on their first argument. *)
Definition validFunctionName (mjmFunctionName : string) : bool :=
  bool_decide (mjmFunctionName ≠ "") && bool_decide (JS.trim mjmFunctionName ≠ "").

(** The test of the two loops: a clock trigger of the function. *)
Definition isClockTriggerFor (mjmFunctionName : string) (t : Trigger) : bool :=
  bool_decide (getHandlerFunction t = mjmFunctionName)
  && bool_decide (getEventType t = CLOCK)
  && bool_decide (getTriggerSource t = SOURCE_CLOCK).

(** [MJM_createHourlyTrigger]: the value returned and the project's
    triggers afterwards ([create()] adds the new trigger at the end). *)
Definition MJM_createHourlyTrigger (mjmFunctionName : string) (everyNHours : Z)
    (projectTriggers : list Trigger) : bool * list Trigger :=
  if negb (validFunctionName mjmFunctionName) then (false, projectTriggers)
  else if bool_decide (everyNHours < 1)%Z || bool_decide (23 < everyNHours)%Z
  then (false, projectTriggers)
  else
    let triggerExists := existsb (isClockTriggerFor mjmFunctionName) projectTriggers in
    if triggerExists then (false, projectTriggers)
    else (true, (projectTriggers
                 ++ [mkTrigger mjmFunctionName CLOCK SOURCE_CLOCK (EveryHours everyNHours)])%list).

(** [MJM_createDailyAtHourTrigger]: every clock trigger of the function is
    deleted, then the daily one is created. *)
Definition MJM_createDailyAtHourTrigger (mjmFunctionName : string) (hourOfDay : Z)
    (projectTriggers : list Trigger) : bool * list Trigger :=
  if negb (validFunctionName mjmFunctionName) then (false, projectTriggers)
  else if bool_decide (hourOfDay < 0)%Z || bool_decide (23 < hourOfDay)%Z
  then (false, projectTriggers)
  else
    (true, (List.filter (λ t, negb (isClockTriggerFor mjmFunctionName t)) projectTriggers
            ++ [mkTrigger mjmFunctionName CLOCK SOURCE_CLOCK (EveryDayAtHour hourOfDay)])%list).

(** [MJM_deleteAllTriggersForFunction]: the project's triggers afterwards. *)
Definition MJM_deleteAllTriggersForFunction (mjmFunctionName : string)
    (projectTriggers : list Trigger) : list Trigger :=
  if negb (validFunctionName mjmFunctionName) then projectTriggers
  else List.filter (λ t, negb (bool_decide (getHandlerFunction t = mjmFunctionName)))
         projectTriggers.

(** Phase 4 of [MJM_setupAppTrackerModule] (MJM_main.gs, lines 486 to 509)
    when the earlier phases succeeded: the project's triggers afterwards. *)
Definition setupAppTrackerTriggers (projectTriggers : list Trigger) : list Trigger :=
  (MJM_createDailyAtHourTrigger "MJM_markStaleApplicationsAsRejected" 2
     (MJM_createHourlyTrigger "MJM_processJobApplicationEmails" 1 projectTriggers).2).2.

End Triggers.

(** ** Extraction of the details of a message (MJM_main.gs, lines 627 to 666) *)

Module Extraction.
Import Config Parsing.

Definition MJM_APP_DEFAULT_PLATFORM : string := "Other".

(** The keys in the order of the object literal, which is the order in
    which [for (const k in ...)] visits them. *)
Definition MJM_PLATFORM_DOMAIN_KEYWORDS : list (string * string) :=
  [ ("linkedin.com", "LinkedIn"); ("indeed.com", "Indeed");
    ("wellfound.com", "Wellfound"); ("angel.co", "Wellfound") ].

(** The longest prefix without [>]: what [[^>]+] takes from the start of
    a string. *)
Fixpoint upToGreaterThan (s : string) : string :=
  match s with
  | EmptyString => EmptyString
  | String c r =>
      if Ascii.eqb c ">"%char then EmptyString else String c (upToGreaterThan r)
  end.

(** [(emailSender.match(/@([^>]+)/) || [])[1]]: the capture after the first
    [@] that is followed by a character other than [>]. *)
Fixpoint senderDomainMatch (emailSender : string) : option string :=
  match emailSender with
  | EmptyString => None
  | String c r =>
      if Ascii.eqb c "@"%char then
        match upToGreaterThan r with
        | EmptyString => senderDomainMatch r
        | capture => Some capture
        end
      else senderDomainMatch r
  end.

(** The [for ... in] loop of line 635 with its [break]. *)
Definition platformOfDomain (senderDom : string) : string :=
  match List.find (λ kv, JS.includes senderDom kv.1) MJM_PLATFORM_DOMAIN_KEYWORDS with
  | Some kv => kv.2
  | None => MJM_APP_DEFAULT_PLATFORM
  end.

(** Line 635. *)
Definition detectedPlatform (emailSender : string) : string :=
  match senderDomainMatch emailSender with
  | Some capture =>
      let senderDom := JS.toLowerCase capture in
      if bool_decide (senderDom = "") then MJM_APP_DEFAULT_PLATFORM
      else platformOfDomain senderDom
  | None => MJM_APP_DEFAULT_PLATFORM
  end.

(** The three values that the stage extracts; [None] is [null]. *)
Record Details : Type := mkDetails {
  extractedCompany : string;
  extractedTitle : string;
  extractedStatus : option string
}.

(** [!extractedStatus || extractedStatus === MANUAL_REVIEW_NEEDED_TEXT
    || extractedStatus === "Update/Other"] *)
Definition statusMissing (extractedStatus : option string) : bool :=
  match extractedStatus with
  | None => true
  | Some s =>
      bool_decide (s = "") || bool_decide (s = MANUAL_REVIEW_NEEDED_TEXT)
      || bool_decide (s = "Update/Other")
  end.

(** Lines 646 to 649 and again 658 to 661. *)
Definition statusFromBody (extractedStatus : option string) (emailPlainBody : string)
    : option string :=
  if statusMissing extractedStatus then
    match MJM_parseBodyForStatus emailPlainBody with
    | Some regexStatusFromBody => Some regexStatusFromBody
    | None => extractedStatus
    end
  else extractedStatus.

(** The test of line 639. *)
Definition geminiIsCalled (useGemini : bool) (emailPlainBody : string) : bool :=
  useGemini && negb (bool_decide (JS.trim emailPlainBody = ""))
  && negb (bool_decide (emailPlainBody = "[Body Fetch Error]")).

(** Lines 627 and 639 to 651: the values after the Gemini tier. *)
Definition geminiTier (useGemini : bool) (emailSubject emailPlainBody : string)
    (fetch : nat -> SheetUtils.FetchOutcome) : Details :=
  if geminiIsCalled useGemini emailPlainBody then
    let geminiResult :=
      (SheetUtils.MJM_callGemini_forApplicationDetails emailSubject emailPlainBody fetch).1 in
    mkDetails (JS.orElse (SheetUtils.company geminiResult) MANUAL_REVIEW_NEEDED_TEXT)
              (JS.orElse (SheetUtils.title geminiResult) MANUAL_REVIEW_NEEDED_TEXT)
              (statusFromBody (Some (SheetUtils.status geminiResult)) emailPlainBody)
  else mkDetails MANUAL_REVIEW_NEEDED_TEXT MANUAL_REVIEW_NEEDED_TEXT None.

(** Lines 653 to 663: the fallback tier; [regexParseResult] is what
    [MJM_extractCompanyAndTitle] returned, company first. *)
Definition regexTier (d : Details) (regexParseResult : string * string)
    (emailPlainBody : string) : Details :=
  if bool_decide (extractedCompany d = MANUAL_REVIEW_NEEDED_TEXT)
     || bool_decide (extractedTitle d = MANUAL_REVIEW_NEEDED_TEXT)
     || statusMissing (extractedStatus d)
  then
    mkDetails
      (if bool_decide (extractedCompany d = MANUAL_REVIEW_NEEDED_TEXT)
       then regexParseResult.1 else extractedCompany d)
      (if bool_decide (extractedTitle d = MANUAL_REVIEW_NEEDED_TEXT)
       then regexParseResult.2 else extractedTitle d)
      (statusFromBody (extractedStatus d) emailPlainBody)
  else d.

Definition extractDetails (useGemini : bool) (emailSubject emailPlainBody : string)
    (fetch : nat -> SheetUtils.FetchOutcome) (regexParseResult : string * string) : Details :=
  regexTier (geminiTier useGemini emailSubject emailPlainBody fetch)
            regexParseResult emailPlainBody.

(** Line 665. *)
Definition needsManualReviewFlag (d : Details) : bool :=
  bool_decide (extractedCompany d = MANUAL_REVIEW_NEEDED_TEXT)
  || bool_decide (extractedTitle d = MANUAL_REVIEW_NEEDED_TEXT).

(** The message as the reconciliation of lines 666 to 731 sees it. *)
Definition extractedMessage (messageId : string) (emailDate : Z)
    (emailSubject emailSender : string) (d : Details) : Tracker.Message :=
  Tracker.mkMessage messageId emailDate emailSubject (detectedPlatform emailSender)
    (extractedCompany d) (extractedTitle d) (extractedStatus d).

(** The statuses that [MJM_parseBodyForStatus] can return, and the default. *)
Definition statusesWithoutGemini : list string :=
  [ MJM_APP_DEFAULT_STATUS; MJM_APP_OFFER_STATUS; MJM_APP_INTERVIEW_STATUS;
    MJM_APP_ASSESSMENT_STATUS; MJM_APP_VIEWED_STATUS; MJM_APP_REJECTED_STATUS ].

(** A string without the character [c]. *)
Definition lacks (c : ascii) (s : string) : Prop := ¬ In c (list_ascii_of_string s).

End Extraction.

(** ** Thread outcomes and the final labels (MJM_main.gs, lines 733 to 753;
       MJM_GmailUtils.gs, MJM_applyFinalLabelsToThreads) *)

Module Labels.

Definition MJM_MASTER_GMAIL_LABEL_PARENT : string := "Master Job Manager".
Definition MJM_TRACKER_GMAIL_LABEL_PARENT : string :=
  MJM_MASTER_GMAIL_LABEL_PARENT ++ "/Job Application Tracker".
Definition MJM_TRACKER_GMAIL_LABEL_TO_PROCESS : string :=
  MJM_TRACKER_GMAIL_LABEL_PARENT ++ "/To Process".
Definition MJM_TRACKER_GMAIL_LABEL_PROCESSED : string :=
  MJM_TRACKER_GMAIL_LABEL_PARENT ++ "/Processed".
Definition MJM_TRACKER_GMAIL_LABEL_MANUAL_REVIEW : string :=
  MJM_TRACKER_GMAIL_LABEL_PARENT ++ "/Manual Review Needed".

(** The two outcomes, ['manual'] and ['done']. *)
Inductive Outcome : Type := OutcomeManual | OutcomeDone.

#[global] Instance Outcome_eq_dec : EqDecision Outcome.
Proof. solve_decision. Defined.

(** [threadProcessingOutcomesMap]: an object whose keys are thread ids, kept
    in the order in which the keys were added (thread ids are sixteen
    hexadecimal digits, never array indices), which is the order of
    [Object.keys]. *)
Abbreviation OutcomesMap := (list (string * Outcome)).

(** [map[threadId]], [None] for [undefined]. *)
Fixpoint getOutcome (map : OutcomesMap) (threadId : string) : option Outcome :=
  match map with
  | [] => None
  | (k, v) :: rest => if bool_decide (k = threadId) then Some v else getOutcome rest threadId
  end.

(** [map[threadId] = v] *)
Fixpoint setOutcome (map : OutcomesMap) (threadId : string) (v : Outcome) : OutcomesMap :=
  match map with
  | [] => [(threadId, v)]
  | (k, v') :: rest =>
      if bool_decide (k = threadId) then (k, v) :: rest
      else (k, v') :: setOutcome rest threadId v
  end.

(** How the [try] block of one message ended: the row was written, with
    [needsManualReviewFlag], or something threw. *)
Inductive Attempt : Type :=
  | Written (needsManualReviewFlag : bool)
  | Threw.

Definition needsReview (a : Attempt) : bool :=
  match a with
  | Written needsManualReviewFlag => needsManualReviewFlag
  | Threw => true
  end.

(** Lines 733 to 745 for one message of thread [gmailThreadId]. *)
Definition recordOutcome (map : OutcomesMap) (ev : string * Attempt) : OutcomesMap :=
  let gmailThreadId := ev.1 in
  match ev.2 with
  | Written needsManualReviewFlag =>
      let outcomeLabel := if needsManualReviewFlag then OutcomeManual else OutcomeDone in
      let map1 :=
        if bool_decide (getOutcome map gmailThreadId ≠ Some OutcomeManual)
        then setOutcome map gmailThreadId outcomeLabel else map in
      if bool_decide (outcomeLabel = OutcomeManual)
      then setOutcome map1 gmailThreadId OutcomeManual else map1
  | Threw => setOutcome map gmailThreadId OutcomeManual
  end.

(** The map after the loop over the messages that were processed. *)
Definition threadProcessingOutcomesMap (events : list (string * Attempt)) : OutcomesMap :=
  fold_left recordOutcome events [].

(** The threads of the mailbox with the names of their labels. *)
Abbreviation Mailbox := (gmap string (gset string)).

(** The body of the loop of [MJM_applyFinalLabelsToThreads] for one thread,
    [removeLabel] and [addLabel] succeeding; a thread that
    [GmailApp.getThreadById] does not find is skipped. *)
Definition labelThread (toProcessLabelName processedLabelName manualReviewLabelName : string)
    (mailbox : Mailbox) (kv : string * Outcome) : Mailbox :=
  let threadId := kv.1 in
  let labelNameToAdd :=
    if bool_decide (kv.2 = OutcomeManual) then manualReviewLabelName else processedLabelName in
  match mailbox !! threadId with
  | None => mailbox
  | Some currentThreadLabels =>
      let removed :=
        if bool_decide (toProcessLabelName ∈ currentThreadLabels)
        then currentThreadLabels ∖ {[ toProcessLabelName ]} else currentThreadLabels in
      let added :=
        if bool_decide (labelNameToAdd ∉ currentThreadLabels)
        then removed ∪ {[ labelNameToAdd ]} else removed in
      <[ threadId := added ]> mailbox
  end.

Definition MJM_applyFinalLabelsToThreads (threadOutcomes : OutcomesMap)
    (toProcessLabelName processedLabelName manualReviewLabelName : string)
    (mailbox : Mailbox) : Mailbox :=
  fold_left (labelThread toProcessLabelName processedLabelName manualReviewLabelName)
    threadOutcomes mailbox.

(** The events of one thread. *)
Definition eventsOfThread (threadId : string) (events : list (string * Attempt))
    : list Attempt :=
  (filter (λ ev, ev.1 = threadId) events).*2.

End Labels.

(** ** Further inputs for worked scenarios *)

Module MoreExamples.
Import Config Tracker.

(** The state of a run right after the preload of the sheet that holds one
    record of Acme. *)
Definition acmeState : State :=
  {| sheet := Examples.acmeSheet; cache := preloadCache Examples.acmeSheet |}.

Definition msgBeta : Message :=
  mkMessage "m7" 5000 "Thank you for applying" "Other" "Beta" "Designer" (Some "Applied").

(** A thread under the To Process label with message m3 of Acme and
    message m7 of Beta. *)
Definition threadAcmeBeta : Thread := mkThread "t3" [Examples.msgAnalyst; msgBeta].

(** An interview invitation dated well after the threshold of the sweep
    that runs at [Examples.sweepTime]. *)
Definition msgRecent : Message :=
  mkMessage "m6" 9000000000 "Interview" "Other" "Acme" "Software Engineer"
            (Some "Interview Scheduled").

Definition processName : string := "MJM_processJobApplicationEmails".
Definition sweepName : string := "MJM_markStaleApplicationsAsRejected".

Definition oldSweepTrigger : Triggers.Trigger :=
  Triggers.mkTrigger sweepName Triggers.CLOCK Triggers.SOURCE_CLOCK (Triggers.EveryDayAtHour 5).
Definition hourlyProcessTrigger : Triggers.Trigger :=
  Triggers.mkTrigger processName Triggers.CLOCK Triggers.SOURCE_CLOCK (Triggers.EveryHours 1).
Definition onOpenTrigger : Triggers.Trigger :=
  Triggers.mkTrigger "onOpen" Triggers.ON_OPEN Triggers.SPREADSHEETS Triggers.OtherSchedule.

Definition installedTriggers : list Triggers.Trigger :=
  [oldSweepTrigger; onOpenTrigger; hourlyProcessTrigger].

(** A fetch that always throws, and a body with an offer keyword. *)
Definition fetchAlwaysThrows : nat -> SheetUtils.FetchOutcome := λ _, SheetUtils.FetchThrows.
Definition offerBody : string := "We are pleased to offer you the position.".

(** Two threads under the To Process label, and what the loop did with
    their messages: one message of t1 resolved; of t2 one message left for
    review, a later one resolved. *)
Definition mailboxBefore : Labels.Mailbox :=
  {[ "t1" := {[ Labels.MJM_TRACKER_GMAIL_LABEL_TO_PROCESS ]};
     "t2" := {[ Labels.MJM_TRACKER_GMAIL_LABEL_TO_PROCESS; "INBOX" ]} ]}.

Definition runEvents : list (string * Labels.Attempt) :=
  [ ("t1", Labels.Written false); ("t2", Labels.Written true); ("t2", Labels.Written false) ].

End MoreExamples.

(** * Properties *)

(** ** JavaScript strings and inherited members *)

Module JSFacts.

Lemma lowerChar_idem (c : ascii) : JS.lowerChar (JS.lowerChar c) = JS.lowerChar c.
Proof. by destruct c as [[] [] [] [] [] [] [] []]. Qed.

Lemma toLowerCase_idem (s : string) : JS.toLowerCase (JS.toLowerCase s) = JS.toLowerCase s.
Proof.
  induction s as [|c s IH]; [done|]. cbn [JS.toLowerCase]. by rewrite lowerChar_idem, IH.
Qed.

Lemma toLowerCase_length (s : string) : String.length (JS.toLowerCase s) = String.length s.
Proof. induction s as [|c s IH]; [done|]. cbn [JS.toLowerCase String.length]. by rewrite IH. Qed.

(** The names of the inherited members. *)
Lemma inherited_name (s : string) (member : string * option Z) :
  JS.inherited s = Some member → (s, member) ∈ JS.objectPrototype.
Proof.
  unfold JS.inherited. intros Hf.
  destruct (List.find _ JS.objectPrototype) as [[name mem]|] eqn:Hfind; [|done].
  injection Hf as <-. apply find_some in Hfind as [Hin Heq].
  apply String.eqb_eq in Heq. cbn in Heq. subst name. by apply list_elem_of_In.
Qed.

(** A lower-cased string names an inherited member only when it is
    [constructor], the function [Object] of length 1, or [__proto__], the
    prototype, which has no length: the other names hold capitals. *)
Lemma inherited_lower_case (s : string) (member : string * option Z) :
  JS.inherited (JS.toLowerCase s) = Some member →
  (JS.toLowerCase s = "constructor" ∧ member.2 = Some 1%Z)
  ∨ (JS.toLowerCase s = "__proto__" ∧ member.2 = None).
Proof.
  intros Hm%inherited_name. pose proof (toLowerCase_idem s) as Hidem.
  revert Hm Hidem. generalize (JS.toLowerCase s). intros k Hm Hidem.
  unfold JS.objectPrototype in Hm.
  repeat (apply elem_of_cons in Hm as [[= -> ->]|Hm];
          [first [by left | by right | by vm_compute in Hidem]|]).
  by apply elem_of_nil in Hm.
Qed.




End JSFacts.

(** ** The keyword fallback *)

Module ParsingFacts.
Import Config Parsing.

Lemma short_body_unresolved (plainBody : string) :
  (String.length plainBody < 10)%nat → MJM_parseBodyForStatus plainBody = None.
Proof.
  intros Hlen. unfold MJM_parseBodyForStatus.
  destruct (Nat.ltb_spec (String.length plainBody) 10) as [_|Hge]; [done|lia].
Qed.

Lemma someIncluded_iff (bodyLower : string) (keywords : list string) :
  someIncluded bodyLower keywords = true ↔
  ∃ k, k ∈ keywords ∧ JS.includes bodyLower k = true.
Proof.
  unfold someIncluded. rewrite existsb_exists.
  split; intros (k & Hk & Hi); exists k; by rewrite list_elem_of_In in *.
Qed.

(** What first set means: the sets before it in the order have no keyword
    in the body, and it has one. *)
Lemma spec_firstMatchingSet_Some (bodyLower st : string) :
  spec_firstMatchingSet bodyLower = Some st ↔
  ∃ before keywords after,
    statusKeywordSets = (before ++ (keywords, st) :: after)%list
    ∧ someIncluded bodyLower keywords = true
    ∧ Forall (λ set, someIncluded bodyLower set.1 = false) before.
Proof.
  unfold spec_firstMatchingSet. generalize statusKeywordSets. intros sets.
  induction sets as [|[kw0 st0] sets IH]; cbn [List.find fst].
  - split; [done|]. intros (before & kw & after & Heq & _). by destruct before.
  - destruct (someIncluded bodyLower kw0) eqn:H0.
    + cbn. split.
      * intros [= <-]. exists [], kw0, sets. by repeat split.
      * intros ([|[kw1 st1] before] & kw & after & Heq & Hkw & Hbefore).
        -- by simplify_eq/=.
        -- apply Forall_cons in Hbefore as [Hb _]. simplify_eq/=. congruence.
    + rewrite IH. split.
      * intros (before & kw & after & -> & Hkw & Hbefore).
        exists ((kw0, st0) :: before), kw, after. split; [done|]. split; [done|].
        by constructor.
      * intros ([|[kw1 st1] before] & kw & after & Heq & Hkw & Hbefore).
        -- simplify_eq/=. congruence.
        -- apply Forall_cons in Hbefore as [_ Hb]. simplify_eq/=.
           by exists before, kw, after.
Qed.

Lemma spec_firstMatchingSet_None (bodyLower : string) :
  spec_firstMatchingSet bodyLower = None ↔
  Forall (λ set, someIncluded bodyLower set.1 = false) statusKeywordSets.
Proof.
  unfold spec_firstMatchingSet. generalize statusKeywordSets. intros sets.
  induction sets as [|[kw0 st0] sets IH]; cbn [List.find fst].
  - split; [by constructor|done].
  - destruct (someIncluded bodyLower kw0) eqn:H0.
    + cbn. split; [done|]. intros [Hb _]%Forall_cons. cbn [fst] in Hb. congruence.
    + rewrite IH. split; [by constructor|by intros [_ ?]%Forall_cons].
Qed.

(** C8, as amended.  For every body of at least ten characters the
    fallback returns the status of the first of the five keyword sets
    (offer, interview, assessment, viewed, rejection) that has a keyword
    contained in the normalised body, and the unresolved result when no set
    has one; for a body of fewer than ten characters it returns the
    unresolved result without looking at any keyword. *)
Theorem parseBodyForStatus_first_match (plainBody : string) :
  MJM_parseBodyForStatus plainBody =
    if bool_decide (String.length plainBody < 10)%nat then None
    else spec_firstMatchingSet (normalizeBody plainBody).
Proof.
  case_bool_decide as Hlen.
  - by apply short_body_unresolved.
  - unfold MJM_parseBodyForStatus, spec_firstMatchingSet, statusKeywordSets.
    destruct (Nat.ltb_spec (String.length plainBody) 10) as [Hlt|_]; [lia|].
    cbn [List.find fst snd].
    repeat (match goal with
            | |- context [someIncluded ?b ?k] => destruct (someIncluded b k); [done|]
            end).
    done.
Qed.

(** C8, the claim as stated fails: the nine-character body [job offer]
    contains a keyword of the offer set after normalisation, yet the result
    is the unresolved one. *)
Lemma parseBodyForStatus_short_body_counterexample :
  "job offer" ∈ MJM_OFFER_KEYWORDS
  ∧ JS.includes (normalizeBody "job offer") "job offer" = true
  ∧ spec_firstMatchingSet (normalizeBody "job offer") = Some MJM_APP_OFFER_STATUS
  ∧ MJM_parseBodyForStatus "job offer" = None.
Proof.
  split; [|by vm_compute].
  unfold MJM_OFFER_KEYWORDS. set_solver.
Qed.

(** With one more character the same keyword is found. *)
Example parseBodyForStatus_offer :
  MJM_parseBodyForStatus "A JOB-OFFER!" = Some MJM_APP_OFFER_STATUS.
Proof. by vm_compute. Qed.

(** The order of the sets decides between two matching sets. *)
Example parseBodyForStatus_order :
  MJM_parseBodyForStatus "Unfortunately, the online test was failed"
  = Some MJM_APP_ASSESSMENT_STATUS.
Proof. by vm_compute. Qed.

End ParsingFacts.

(** ** The status merge *)

Module StatusFacts.
Import Config Tracker JSFacts.

Lemma hierarchy_lookup (s : string) (r : Z) :
  MJM_APP_STATUS_HIERARCHY !! s = Some r → (s, r) ∈ hierarchyEntries.
Proof. apply elem_of_list_to_map_2. Qed.

(** No key of the table is the name of an inherited member. *)
Lemma inherited_not_key (s : string) :
  is_Some (JS.inherited s) → MJM_APP_STATUS_HIERARCHY !! s = None.
Proof.
  intros [member Hm%inherited_name]. unfold JS.objectPrototype in Hm.
  repeat (apply elem_of_cons in Hm as [[= -> _]|Hm]; [by vm_compute|]).
  by apply elem_of_nil in Hm.
Qed.

Lemma key_not_inherited (s : string) (r : Z) :
  MJM_APP_STATUS_HIERARCHY !! s = Some r → JS.inherited s = None.
Proof.
  intros Hs. destruct (JS.inherited s) as [member|] eqn:Hi; [|done].
  rewrite inherited_not_key in Hs by by eexists. done.
Qed.

(** For a status that is not the name of an inherited member, the lookup
    with its default is the rank of the table, the default for a status
    outside it. *)
Lemma rankValue_ordinary (d : Z) (s : string) :
  JS.inherited s = None → rankValue d s = JS.Number (rankOr d s).
Proof.
  intros Hs. unfold rankValue, rankOr. rewrite Hs.
  by destruct (MJM_APP_STATUS_HIERARCHY !! s).
Qed.

Lemma rankValue_key (d : Z) (s : string) (r : Z) :
  MJM_APP_STATUS_HIERARCHY !! s = Some r → rankValue d s = JS.Number r.
Proof. intros Hs. unfold rankValue. by rewrite Hs. Qed.

Lemma rankValue_inherited (d : Z) (s : string) (member : string * option Z) :
  JS.inherited s = Some member → rankValue d s = JS.Object member.1.
Proof.
  intros Hs. unfold rankValue. rewrite inherited_not_key by by eexists.
  by rewrite Hs.
Qed.

Lemma statusOverrides_iff (current new : string) :
  statusOverrides current new = true ↔
  JS.ge (rankValue 0 new) (rankValue 0 current) = true
  ∨ new = MJM_APP_REJECTED_STATUS ∨ new = MJM_APP_OFFER_STATUS.
Proof.
  unfold statusOverrides.
  rewrite !orb_true_iff, !bool_decide_eq_true. tauto.
Qed.

(** The comparison of line 698 on two statuses neither of which is the
    name of an inherited member: that of their ranks, 0 standing for a
    status outside the table. *)
Lemma ge_ordinary (current new : string) :
  JS.inherited current = None → JS.inherited new = None →
  JS.ge (rankValue 0 new) (rankValue 0 current) = true
  ↔ (rankOr 0 current ≤ rankOr 0 new)%Z.
Proof.
  intros Hc Hn. rewrite !rankValue_ordinary by done. cbn [JS.ge].
  apply bool_decide_eq_true.
Qed.

(** When exactly one of them is such a name the comparison is false. *)
Lemma ge_mixed (current new : string) :
  (is_Some (JS.inherited current) ∧ JS.inherited new = None)
  ∨ (JS.inherited current = None ∧ is_Some (JS.inherited new)) →
  JS.ge (rankValue 0 new) (rankValue 0 current) = false.
Proof.
  intros [[[mc Hc] Hn]|[Hc [mn Hn]]].
  - by rewrite (rankValue_inherited _ _ _ Hc), (rankValue_ordinary _ _ Hn).
  - by rewrite (rankValue_inherited _ _ _ Hn), (rankValue_ordinary _ _ Hc).
Qed.

Lemma mergeStatus_open (stored new : string) :
  statusInSheet stored ≠ MJM_APP_ACCEPTED_STATUS →
  mergeStatus stored new =
    if statusOverrides (statusInSheet stored) new then new else stored.
Proof.
  intros Hna. unfold mergeStatus.
  by rewrite (bool_decide_eq_true_2 _ Hna).
Qed.

Lemma mergeStatus_accepted (stored new : string) :
  statusInSheet stored = MJM_APP_ACCEPTED_STATUS →
  mergeStatus stored new =
    if bool_decide (new = MJM_APP_ACCEPTED_STATUS) then MJM_APP_ACCEPTED_STATUS else stored.
Proof.
  intros Hacc. unfold mergeStatus. rewrite Hacc.
  rewrite (bool_decide_eq_false_2 (MJM_APP_ACCEPTED_STATUS ≠ MJM_APP_ACCEPTED_STATUS))
    by (intros H; by apply H).
  cbn [orb]. case_bool_decide as Hnew; [|done].
  subst new. by vm_compute.
Qed.

(** The status merge on every input.  When a message is merged into an
    existing record whose status, as line 694 reads it from the sheet, is
    not Offer Accepted, the status cell becomes the status of the message
    exactly when the comparison of line 698 holds, or the status of the
    message is Rejected or Offer Received; otherwise the cell keeps its
    value.  The comparison of line 698 is that of the ranks of the table, 0
    standing for a status outside it, for every two statuses that are not
    names of members that the table inherits as an object (constructor,
    toString, ...); it is false when exactly one of the two is such a
    name. *)
Theorem status_merge_rule
    (dateParse : string → option Z) (row : Row) (cachedPeak : string)
    (m : Message) (now : Z) :
  statusInSheet (STATUS row) ≠ MJM_APP_ACCEPTED_STATUS →
  let stored := statusInSheet (STATUS row) in
  let new := finalStatusToLog m in
  let ranksAtLeast := JS.ge (rankValue 0 new) (rankValue 0 stored) = true in
  let overrides :=
    ranksAtLeast ∨ new = MJM_APP_REJECTED_STATUS ∨ new = MJM_APP_OFFER_STATUS in
  (overrides → STATUS (updateRow dateParse row cachedPeak m now) = new)
  ∧ (¬ overrides → STATUS (updateRow dateParse row cachedPeak m now) = STATUS row)
  ∧ (JS.inherited stored = None → JS.inherited new = None →
     (ranksAtLeast ↔ (rankOr 0 stored ≤ rankOr 0 new)%Z))
  ∧ ((is_Some (JS.inherited stored) ∧ JS.inherited new = None)
     ∨ (JS.inherited stored = None ∧ is_Some (JS.inherited new)) →
     ¬ ranksAtLeast).
Proof.
  intros Hna stored new ranksAtLeast overrides. cbn [updateRow STATUS].
  rewrite (mergeStatus_open _ _ Hna). fold new stored.
  split_and!.
  - intros Ho. apply statusOverrides_iff in Ho. by rewrite Ho.
  - intros Hn. destruct (statusOverrides stored new) eqn:Hov; [|done].
    by apply statusOverrides_iff in Hov.
  - apply ge_ordinary.
  - intros Hmixed Hge. apply ge_mixed in Hmixed. unfold ranksAtLeast in Hge. congruence.
Qed.

(** C10.  Rejected and Offer Received have the same rank, and a record
    whose status is Rejected takes the status of a later message that says
    Offer Received or Offer Accepted. *)
Theorem rejected_is_not_absorbing :
  MJM_APP_STATUS_HIERARCHY !! MJM_APP_REJECTED_STATUS
    = MJM_APP_STATUS_HIERARCHY !! MJM_APP_OFFER_STATUS
  ∧ ∀ (dateParse : string → option Z) (row : Row) (cachedPeak : string)
      (m : Message) (now : Z),
      statusInSheet (STATUS row) = MJM_APP_REJECTED_STATUS →
      finalStatusToLog m = MJM_APP_OFFER_STATUS
      ∨ finalStatusToLog m = MJM_APP_ACCEPTED_STATUS →
      STATUS (updateRow dateParse row cachedPeak m now) = finalStatusToLog m.
Proof.
  split; [done|].
  intros dateParse row cachedPeak m now Hrej Hnew.
  cbn [updateRow STATUS].
  rewrite mergeStatus_open by (rewrite Hrej; done).
  rewrite Hrej.
  destruct Hnew as [-> | ->]; by vm_compute.
Qed.

(** A message that is neither a rejection nor an offer and ranks below the
    stored status leaves it (scenario A of the specification). *)
Example interview_then_applied (dateParse : string → option Z) (row : Row)
    (cachedPeak : string) (m : Message) (now : Z) :
  STATUS row = MJM_APP_INTERVIEW_STATUS →
  finalStatusToLog m = MJM_APP_DEFAULT_STATUS →
  STATUS (updateRow dateParse row cachedPeak m now) = MJM_APP_INTERVIEW_STATUS.
Proof.
  intros Hs Hm. cbn [updateRow STATUS]. rewrite Hs, Hm. by vm_compute.
Qed.

Lemma step_status_accepted
    (dateParse : string → option Z) (rs : Row * string) (s : Step) :
  statusInSheet (STATUS rs.1) = MJM_APP_ACCEPTED_STATUS →
  STATUS (step dateParse rs s).1 =
    match s with
    | Reconcile m _ =>
        if bool_decide (finalStatusToLog m = MJM_APP_ACCEPTED_STATUS)
        then MJM_APP_ACCEPTED_STATUS else STATUS rs.1
    | NewRun => STATUS rs.1
    end.
Proof.
  intros Hacc. destruct s as [m now|]; [|done].
  cbn [step reconcile fst snd updateRow STATUS].
  by apply mergeStatus_accepted.
Qed.

(** C2.  Once the status of a record is Offer Accepted it stays so through
    every sequence of reconciliations (and cache reloads between runs): a
    message whose status is not Offer Accepted leaves the cell as it is,
    and one whose status is Offer Accepted writes Offer Accepted. *)
Theorem accepted_is_absorbing
    (dateParse : string → option Z) (steps : list Step) (rs : Row * string) :
  statusInSheet (STATUS rs.1) = MJM_APP_ACCEPTED_STATUS →
  statusInSheet (STATUS (runSteps dateParse rs steps).1) = MJM_APP_ACCEPTED_STATUS
  ∧ (STATUS (runSteps dateParse rs steps).1 = STATUS rs.1
     ∨ STATUS (runSteps dateParse rs steps).1 = MJM_APP_ACCEPTED_STATUS)
  ∧ (Forall (λ s, ∀ m now, s = Reconcile m now →
                  finalStatusToLog m ≠ MJM_APP_ACCEPTED_STATUS) steps →
     STATUS (runSteps dateParse rs steps).1 = STATUS rs.1).
Proof.
  revert rs. induction steps as [|s steps IH]; intros rs Hacc.
  - cbn. auto.
  - unfold runSteps. cbn [fold_left]. fold (runSteps dateParse (step dateParse rs s) steps).
    pose proof (step_status_accepted dateParse rs s Hacc) as Hs.
    assert (statusInSheet (STATUS (step dateParse rs s).1) = MJM_APP_ACCEPTED_STATUS) as Hacc'.
    { rewrite Hs. destruct s as [m now|]; [|done]. by case_bool_decide. }
    destruct (IH _ Hacc') as (IH1 & IH2 & IH3).
    split; [done|]. split.
    + destruct IH2 as [IH2|IH2]; [|by right].
      rewrite IH2, Hs. destruct s as [m now|]; [|by left].
      case_bool_decide; [by right|by left].
    + intros Hall. apply Forall_cons in Hall as [Hhd Htl].
      rewrite (IH3 Htl), Hs. destruct s as [m now|]; [|done].
      rewrite bool_decide_eq_false_2; [done|]. by eapply Hhd.
Qed.

(** C5, as amended.  The merge writes the extracted company (title) into
    the row exactly when it is resolved and the stored value is either the
    manual-review sentinel or differs from it when case is ignored, and the
    cell then changes; otherwise the stored value stays.  So an unresolved
    extraction never replaces anything, and a resolved stored value is
    replaced by every resolved value that is not the same up to case. *)
Theorem company_title_overwrite_rule
    (dateParse : string → option Z) (row : Row) (cachedPeak : string)
    (m : Message) (now : Z) :
  let row' := updateRow dateParse row cachedPeak m now in
  let overwrites (stored extracted : string) :=
    extracted ≠ MANUAL_REVIEW_NEEDED_TEXT
    ∧ (stored = MANUAL_REVIEW_NEEDED_TEXT
       ∨ JS.toLowerCase stored ≠ JS.toLowerCase extracted) in
  (overwrites (COMPANY row) (extractedCompany m) →
     COMPANY row' = extractedCompany m ∧ COMPANY row' ≠ COMPANY row)
  ∧ (¬ overwrites (COMPANY row) (extractedCompany m) → COMPANY row' = COMPANY row)
  ∧ (overwrites (JOB_TITLE row) (extractedTitle m) →
     JOB_TITLE row' = extractedTitle m ∧ JOB_TITLE row' ≠ JOB_TITLE row)
  ∧ (¬ overwrites (JOB_TITLE row) (extractedTitle m) → JOB_TITLE row' = JOB_TITLE row).
Proof.
  assert (∀ stored extracted,
    let P := extracted ≠ MANUAL_REVIEW_NEEDED_TEXT
             ∧ (stored = MANUAL_REVIEW_NEEDED_TEXT
                ∨ JS.toLowerCase stored ≠ JS.toLowerCase extracted) in
    (P → mergeField stored extracted = extracted ∧ mergeField stored extracted ≠ stored)
    ∧ (¬ P → mergeField stored extracted = stored)) as Hfield.
  { intros stored extracted P. subst P. unfold mergeField. split.
    - intros [He Hs].
      rewrite (bool_decide_eq_true_2 _ He). cbn [andb].
      assert (extracted ≠ stored) as Hne by (intros ->; destruct Hs; done).
      destruct Hs as [Hs|Hs].
      + by rewrite (bool_decide_eq_true_2 _ Hs).
      + rewrite (bool_decide_eq_true_2 (_ ≠ _) Hs). by rewrite orb_true_r.
    - intros Hn.
      destruct (bool_decide (extracted ≠ MANUAL_REVIEW_NEEDED_TEXT)) eqn:He; [|done].
      apply bool_decide_eq_true in He. cbn [andb].
      rewrite bool_decide_eq_false_2 by tauto.
      rewrite bool_decide_eq_false_2 by tauto. done. }
  intros row' overwrites. subst row' overwrites. cbn [updateRow COMPANY JOB_TITLE].
  pose proof (Hfield (COMPANY row) (extractedCompany m)) as [? ?].
  pose proof (Hfield (JOB_TITLE row) (extractedTitle m)) as [? ?].
  done.
Qed.

End StatusFacts.

(** ** The peak status *)

Module PeakFacts.
Import Config Tracker JSFacts StatusFacts.

Lemma excludedPeak_iff (u : string) :
  u ∈ excludedPeak ↔
  u = MJM_APP_REJECTED_STATUS ∨ u = MJM_APP_ACCEPTED_STATUS
  ∨ u = MANUAL_REVIEW_NEEDED_TEXT ∨ u = "Update/Other".
Proof. unfold excludedPeak. rewrite !elem_of_union, !elem_of_singleton. tauto. Qed.

(** The keys of the table carry no surrounding white space and are not
    empty; the keys outside the excluded set rank at least as Applied. *)
Lemma hierarchy_key_facts (u : string) (r : Z) :
  MJM_APP_STATUS_HIERARCHY !! u = Some r →
  JS.trim u = u ∧ u ≠ "" ∧ (-2 < r)%Z ∧ (u ∉ excludedPeak → (1 ≤ r)%Z).
Proof.
  intros Hu. apply hierarchy_lookup in Hu. unfold hierarchyEntries in Hu.
  rewrite !elem_of_cons, elem_of_nil in Hu.
  repeat (destruct Hu as [Hu|Hu]); try done;
    injection Hu as -> ->;
    (split; [by vm_compute|]); (split; [done|]); (split; [lia|]);
    first [ intros _; lia
          | intros Hn; exfalso; apply Hn, excludedPeak_iff; auto 6 ].
Qed.

Lemma rankOr_ge (u : string) : ((-2) ≤ rankOr (-2) u)%Z.
Proof.
  unfold rankOr. destruct (MJM_APP_STATUS_HIERARCHY !! u) as [r|] eqn:Hu; cbn; [|lia].
  apply hierarchy_key_facts in Hu. lia.
Qed.

(** The names of the inherited members carry no surrounding white space,
    are not empty and are outside the excluded set. *)
Lemma inherited_name_facts (u : string) :
  is_Some (JS.inherited u) → JS.trim u = u ∧ u ≠ "" ∧ u ∉ excludedPeak.
Proof.
  intros [member Hm%inherited_name]. unfold JS.objectPrototype in Hm.
  repeat (apply elem_of_cons in Hm as [[= -> _]|Hm];
          [split; [by vm_compute|]; split; [done|];
           rewrite excludedPeak_iff; by intros [?|[?|[?|?]]]|]).
  by apply elem_of_nil in Hm.
Qed.

(** What the lookup of a status gives: the rank of a key, the default for
    an ordinary status outside the table, or an inherited member. *)
Lemma rankValue_cases (d : Z) (s : string) :
  (∃ r, MJM_APP_STATUS_HIERARCHY !! s = Some r ∧ JS.inherited s = None
        ∧ rankValue d s = JS.Number r)
  ∨ (MJM_APP_STATUS_HIERARCHY !! s = None ∧ JS.inherited s = None
     ∧ rankValue d s = JS.Number d)
  ∨ (∃ member, MJM_APP_STATUS_HIERARCHY !! s = None ∧ JS.inherited s = Some member
               ∧ rankValue d s = JS.Object member.1).
Proof.
  destruct (MJM_APP_STATUS_HIERARCHY !! s) as [r|] eqn:Hs.
  - left. exists r. split; [done|]. split; [by eapply key_not_inherited|].
    by eapply rankValue_key.
  - destruct (JS.inherited s) as [member|] eqn:Hi.
    + right. right. exists member. split; [done|]. split; [done|].
      by apply rankValue_inherited.
    + right. left. split; [done|]. split; [done|].
      unfold rankValue. by rewrite Hs, Hi.
Qed.

(** What lines 704 and 705 can do: keep the peak; or replace it by a
    status of the table that is outside the excluded set and ranks higher;
    or, when the peak is the name of an inherited member, replace it by
    another such name. *)
Lemma mergePeak_cases (peak u : string) :
  mergePeak peak u = peak
  ∨ (mergePeak peak u = u ∧ (u ∉ excludedPeak)
     ∧ ((∃ r, MJM_APP_STATUS_HIERARCHY !! u = Some r
              ∧ (rankOr (-2) peak < r)%Z ∧ (rankOr 0 peak < r)%Z)
        ∨ (is_Some (JS.inherited u) ∧ is_Some (JS.inherited peak)))).
Proof.
  assert (∀ r, MJM_APP_STATUS_HIERARCHY !! u = Some r → u ∉ excludedPeak →
            (rankOr (-2) peak < r)%Z → (rankOr 0 peak < r)%Z) as Hrank.
  { intros r Hu Hex Hlt.
    apply hierarchy_key_facts in Hu as (_ & _ & _ & Hr). specialize (Hr Hex).
    unfold rankOr in *.
    destruct (MJM_APP_STATUS_HIERARCHY !! peak); cbn in *; lia. }
  unfold mergePeak.
  destruct (decide (u ∉ excludedPeak)) as [Hex|Hex];
    [rewrite !(bool_decide_eq_true_2 _ Hex)
    |rewrite !(bool_decide_eq_false_2 _ Hex), !andb_false_r; by left].
  rewrite !andb_true_r.
  destruct (JS.gt (rankValue (-2) u) (rankValue (-2) peak)) eqn:Hgt.
  - right. split; [done|]. split; [done|].
    destruct (rankValue_cases (-2) u) as [(r & Hu & _ & Hvu)|[(Hu & _ & Hvu)|(mu & Hu & Hiu & Hvu)]],
             (rankValue_cases (-2) peak) as [(q & Hp & _ & Hvp)|[(Hp & _ & Hvp)|(mp & Hp & Hip & Hvp)]];
      rewrite Hvu, Hvp in Hgt; cbn [JS.gt] in Hgt;
      try apply bool_decide_eq_true in Hgt; try done.
    + left. exists r. split; [done|].
      assert (rankOr (-2) peak < r)%Z as Hlt by (unfold rankOr; rewrite Hp; cbn; lia).
      split; [done|]. by apply Hrank.
    + left. exists r. split; [done|].
      assert (rankOr (-2) peak < r)%Z as Hlt by (unfold rankOr; rewrite Hp; cbn; lia).
      split; [done|]. by apply Hrank.
    + apply hierarchy_key_facts in Hp as (_ & _ & Hq & _). lia.
    + right. split; by eexists.
  - destruct (decide (peak = MJM_APP_DEFAULT_STATUS)) as [Hp|Hp];
      [rewrite (bool_decide_eq_true_2 _ Hp)|rewrite (bool_decide_eq_false_2 _ Hp); by left].
    cbn [andb].
    destruct (JS.gt (rankValue 0 u) (rankValue 0 MJM_APP_DEFAULT_STATUS)) eqn:Hgt0; [|by left].
    exfalso. subst peak.
    change (rankValue 0 MJM_APP_DEFAULT_STATUS) with (JS.Number 1) in Hgt0.
    change (rankValue (-2) MJM_APP_DEFAULT_STATUS) with (JS.Number 1) in Hgt.
    destruct (rankValue_cases 0 u) as [(r & Hu & _ & Hvu)|[(Hu & _ & Hvu)|(mu & Hu & Hiu & Hvu)]];
      rewrite Hvu in Hgt0; cbn [JS.gt] in Hgt0; try done.
    rewrite (rankValue_key _ _ _ Hu) in Hgt. cbn [JS.gt] in Hgt. congruence.
Qed.

Lemma mergePeak_rank (peak u : string) :
  (rankOr (-2) peak ≤ rankOr (-2) (mergePeak peak u))%Z
  ∧ (rankOr 0 peak ≤ rankOr 0 (mergePeak peak u))%Z.
Proof.
  destruct (mergePeak_cases peak u)
    as [->|(-> & _ & [(r & Hu & H2 & H0)|[Hiu Hip]])]; [lia| |].
  - unfold rankOr at 2 4. rewrite Hu. cbn. lia.
  - unfold rankOr. rewrite !inherited_not_key by done. cbn. lia.
Qed.

Lemma mergePeak_not_excluded (peak u : string) :
  peak ∉ excludedPeak → mergePeak peak u ∉ excludedPeak.
Proof. intros Hp. by destruct (mergePeak_cases peak u) as [->|(-> & ? & _)]. Qed.

Lemma mergePeak_nonempty (peak u : string) :
  peak ≠ "" → mergePeak peak u ≠ "".
Proof.
  intros Hp.
  destruct (mergePeak_cases peak u) as [->|(-> & _ & [(r & Hu & _)|[Hiu _]])]; [done| |].
  - by apply hierarchy_key_facts in Hu as (_ & ? & _).
  - by apply inherited_name_facts in Hiu as (_ & ? & _).
Qed.

(** A peak that the merge has changed carries no surrounding white space. *)
Lemma mergePeak_trimmed (peak u : string) :
  JS.trim peak = peak → JS.trim (mergePeak peak u) = mergePeak peak u.
Proof.
  intros Hp.
  destruct (mergePeak_cases peak u) as [->|(-> & _ & [(r & Hu & _)|[Hiu _]])]; [done| |].
  - by apply hierarchy_key_facts in Hu as (? & _).
  - by apply inherited_name_facts in Hiu as (? & _).
Qed.

Lemma orElse_nonempty (x d : string) : d ≠ "" → JS.orElse x d ≠ "".
Proof.
  intros Hd. unfold JS.orElse.
  destruct (String.eqb_spec x ""); done.
Qed.

Lemma orElse_id (x d : string) : x ≠ "" → JS.orElse x d = x.
Proof.
  intros Hx. unfold JS.orElse.
  destruct (String.eqb_spec x ""); done.
Qed.

Lemma finalStatusToLog_nonempty (m : Message) : finalStatusToLog m ≠ "".
Proof.
  unfold finalStatusToLog. destruct (extractedStatus m); [|done].
  by apply orElse_nonempty.
Qed.

Lemma initPeak_facts (final : string) :
  final ≠ "" → initPeak final ≠ "" ∧ initPeak final ∉ excludedPeak.
Proof.
  intros Hf. unfold initPeak. case_bool_decide; [done|].
  split; [done|]. rewrite excludedPeak_iff. intros [?|[?|[?|?]]]; done.
Qed.

Lemma createRecord_invariant (m : Message) (now : Z) :
  inRunInvariant (createRecord m now).
Proof.
  destruct (initPeak_facts (finalStatusToLog m) (finalStatusToLog_nonempty m)).
  by repeat split.
Qed.

Lemma reconcile_peak (dateParse : string → option Z) (rs : Row * string) (ev : Message * Z) :
  rs.2 ≠ "" →
  PEAK_STATUS (reconcile dateParse rs ev).1
  = mergePeak rs.2 (STATUS (reconcile dateParse rs ev).1).
Proof.
  intros Hne. cbn [reconcile fst snd updateRow PEAK_STATUS STATUS].
  unfold peakBefore. by rewrite (orElse_id _ _ Hne).
Qed.

Lemma reconcile_invariant (dateParse : string → option Z) (rs : Row * string) (ev : Message * Z) :
  inRunInvariant rs → inRunInvariant (reconcile dateParse rs ev).
Proof.
  intros (Heq & Hne & Hex). unfold inRunInvariant.
  change ((reconcile dateParse rs ev).2) with (PEAK_STATUS (reconcile dateParse rs ev).1).
  rewrite (reconcile_peak _ _ _ Hne).
  split; [done|]. split; [by apply mergePeak_nonempty|by apply mergePeak_not_excluded].
Qed.

Lemma reconcileAll_invariant (dateParse : string → option Z)
    (evs : list (Message * Z)) (rs : Row * string) :
  inRunInvariant rs → inRunInvariant (reconcileAll dateParse rs evs).
Proof.
  revert rs. induction evs as [|ev evs IH]; intros rs Hrs; [done|].
  apply IH. by apply reconcile_invariant.
Qed.

(** Within one run: take a record from its creation through any sequence
    of reconciliations, and one more.  The peak written at creation and the
    peak after the further reconciliation are outside the excluded set
    (Rejected, Offer Accepted, the manual-review sentinel, Update/Other),
    and the rank of the peak after is at least its rank before, whether a
    status outside the table is ranked -2 (as line 704 does) or 0. *)
Theorem peak_monotone_never_excluded
    (dateParse : string → option Z) (m0 : Message) (now0 : Z)
    (evs : list (Message * Z)) (ev : Message * Z) :
  let before := reconcileAll dateParse (createRecord m0 now0) evs in
  let after := reconcile dateParse before ev in
  (PEAK_STATUS (createRecord m0 now0).1 ∉ excludedPeak)
  ∧ (PEAK_STATUS after.1 ∉ excludedPeak)
  ∧ (rankOr (-2) (PEAK_STATUS before.1) ≤ rankOr (-2) (PEAK_STATUS after.1))%Z
  ∧ (rankOr 0 (PEAK_STATUS before.1) ≤ rankOr 0 (PEAK_STATUS after.1))%Z.
Proof.
  intros before after.
  pose proof (createRecord_invariant m0 now0) as Hc.
  pose proof (reconcileAll_invariant dateParse evs _ Hc) as Hb. fold before in Hb.
  pose proof (reconcile_invariant dateParse _ ev Hb) as Ha. fold after in Ha.
  destruct Hc as (Hc1 & _ & Hc3), Hb as (Hb1 & Hb2 & _), Ha as (Ha1 & _ & Ha3).
  split; [by rewrite <- Hc1|]. split; [by rewrite <- Ha1|].
  subst after. rewrite (reconcile_peak _ _ _ Hb2), <- Hb1.
  apply mergePeak_rank.
Qed.

(** *** Across runs

    Between runs the entry is rebuilt from the trimmed cell. *)

Lemma rankOr_trim (s : string) : (rankOr (-2) s ≤ rankOr (-2) (JS.trim s))%Z.
Proof.
  unfold rankOr at 1.
  destruct (MJM_APP_STATUS_HIERARCHY !! s) as [r|] eqn:Hs; cbn.
  - apply hierarchy_key_facts in Hs as Hk. destruct Hk as (-> & _).
    unfold rankOr. rewrite Hs. cbn. lia.
  - apply rankOr_ge.
Qed.

Lemma peakBefore_nonempty (cachedPeak storedPeak : string) :
  peakBefore cachedPeak storedPeak ≠ "".
Proof. unfold peakBefore. by do 2 apply orElse_nonempty. Qed.

Lemma step_peak_rank (dateParse : string → option Z) (rs : Row * string) (s : Step) :
  readsNoLower rs →
  readsNoLower (step dateParse rs s)
  ∧ (rankOr (-2) (PEAK_STATUS rs.1) ≤ rankOr (-2) (PEAK_STATUS (step dateParse rs s).1))%Z.
Proof.
  unfold readsNoLower. intros Hrs. destruct s as [m now|].
  - cbn [step reconcile fst snd updateRow PEAK_STATUS].
    set (p := peakBefore rs.2 (PEAK_STATUS rs.1)) in *.
    set (u := mergeStatus (STATUS rs.1) (finalStatusToLog m)).
    pose proof (mergePeak_rank p u) as [Hm _].
    pose proof (mergePeak_nonempty p u (peakBefore_nonempty _ _)) as Hne.
    split; [|lia].
    unfold peakBefore. rewrite (orElse_id _ _ Hne). lia.
  - cbn [step reload fst snd]. split; [|lia].
    unfold peakBefore.
    destruct (decide (JS.trim (PEAK_STATUS rs.1) = "")) as [He|He].
    + rewrite He. change (JS.orElse "" (JS.orElse "" MJM_APP_DEFAULT_STATUS))
        with MJM_APP_DEFAULT_STATUS.
      pose proof (rankOr_trim (PEAK_STATUS rs.1)) as Ht. rewrite He in Ht.
      change (rankOr (-2) "") with (-2)%Z in Ht.
      change (rankOr (-2) MJM_APP_DEFAULT_STATUS) with 1%Z. lia.
    + rewrite (orElse_id _ _ He). apply rankOr_trim.
Qed.

Lemma step_invariant (dateParse : string → option Z) (rs : Row * string) (s : Step) :
  acrossRunsInvariant rs → acrossRunsInvariant (step dateParse rs s).
Proof.
  intros [Hin Htrim]. destruct s as [m now|].
  - cbn [step]. split; [by apply reconcile_invariant|].
    destruct Hin as (Heq & Hne & _).
    rewrite (reconcile_peak _ _ _ Hne).
    apply mergePeak_trimmed. by rewrite Heq.
  - destruct Hin as (Heq & Hne & Hex).
    unfold acrossRunsInvariant, inRunInvariant, step, reload. cbn [fst snd].
    rewrite Htrim, <- Heq. done.
Qed.

(** Sequences that span several runs, the entry being rebuilt in
    between: the rank of the peak cell never decreases, and the
    cell stays outside the excluded set when the status of the creating
    message carries no surrounding white space. *)
Lemma peak_across_runs
    (dateParse : string → option Z) (m0 : Message) (now0 : Z)
    (steps : list Step) (s : Step) :
  let before := runSteps dateParse (createRecord m0 now0) steps in
  let after := step dateParse before s in
  (rankOr (-2) (PEAK_STATUS before.1) ≤ rankOr (-2) (PEAK_STATUS after.1))%Z
  ∧ (JS.trim (finalStatusToLog m0) = finalStatusToLog m0 →
     PEAK_STATUS after.1 ∉ excludedPeak).
Proof.
  intros before after. split.
  - assert (∀ rs, readsNoLower rs →
              readsNoLower (runSteps dateParse rs steps)) as Hall.
    { induction steps as [|s' steps' IH]; intros rs Hrs; [done|].
      apply IH. by apply step_peak_rank. }
    assert (readsNoLower (createRecord m0 now0)) as Hc.
    { destruct (createRecord_invariant m0 now0) as (Heq & Hne & _).
      unfold readsNoLower, peakBefore. rewrite (orElse_id _ _ Hne), Heq. lia. }
    by apply step_peak_rank, Hall.
  - intros Htrim.
    assert (acrossRunsInvariant (createRecord m0 now0)) as Hc.
    { split; [apply createRecord_invariant|].
      cbn [createRecord fst newRow PEAK_STATUS]. unfold initPeak.
      by case_bool_decide. }
    assert (∀ rs, acrossRunsInvariant rs →
              acrossRunsInvariant (runSteps dateParse rs steps)) as Hall.
    { induction steps as [|s' steps' IH]; intros rs Hrs; [done|].
      apply IH. by apply step_invariant. }
    destruct (step_invariant dateParse _ s (Hall _ Hc)) as [(Heq & _ & Hex) _].
    fold before in Heq, Hex. fold after in Heq, Hex. by rewrite <- Heq.
Qed.

(** Scenario B of the specification: Applied, then Rejected. *)
Example applied_then_rejected (dateParse : string → option Z) (m0 m1 : Message) (t0 t1 : Z) :
  finalStatusToLog m0 = MJM_APP_DEFAULT_STATUS →
  finalStatusToLog m1 = MJM_APP_REJECTED_STATUS →
  let rs := reconcile dateParse (createRecord m0 t0) (m1, t1) in
  STATUS rs.1 = MJM_APP_REJECTED_STATUS ∧ PEAK_STATUS rs.1 = MJM_APP_DEFAULT_STATUS.
Proof.
  intros H0 H1.
  cbn [reconcile createRecord newRow updateRow fst snd STATUS PEAK_STATUS].
  rewrite H0, H1. by vm_compute.
Qed.

End PeakFacts.

(** ** Identity resolution *)

Module ResolveFacts.
Import Config Tracker JSFacts.

Lemma insertBy_perm {A : Type} (gt : A → A → bool) (x : A) (l : list A) :
  JS.insertBy gt x l ≡ₚ x :: l.
Proof.
  induction l as [|y l IH]; cbn; [done|].
  destruct (gt x y); [|done].
  rewrite IH. apply Permutation_swap.
Qed.

Lemma sort_perm {A : Type} (gt : A → A → bool) (l : list A) :
  JS.sort gt l ≡ₚ l.
Proof.
  induction l as [|x l IH]; [done|].
  unfold JS.sort in *. cbn [foldr]. by rewrite insertBy_perm, IH.
Qed.

Lemma insertBy_headIsGreatest (x : Entry) (l : list Entry) :
  headIsGreatest l → headIsGreatest (JS.insertBy byRowNumDesc x l).
Proof.
  destruct l as [|y l]; [by constructor|].
  cbn [JS.insertBy headIsGreatest]. intros Hy.
  unfold byRowNumDesc. case_bool_decide as Hxy; cbn [headIsGreatest].
  - rewrite insertBy_perm. constructor; [lia|done].
  - constructor; [lia|]. eapply Forall_impl; [done|]. cbn. intros; lia.
Qed.

Lemma sort_headIsGreatest (l : list Entry) :
  headIsGreatest (JS.sort byRowNumDesc l).
Proof.
  induction l as [|x l IH]; [done|].
  unfold JS.sort in *. cbn [foldr]. by apply insertBy_headIsGreatest.
Qed.

Lemma sort_head_greatest (l : list Entry) (e : Entry) :
  head (JS.sort byRowNumDesc l) = Some e →
  e ∈ l ∧ ∀ e', e' ∈ l → (rowNum e' ≤ rowNum e)%nat.
Proof.
  intros Hhd.
  pose proof (sort_headIsGreatest l) as Hg.
  pose proof (sort_perm byRowNumDesc l) as Hp.
  destruct (JS.sort byRowNumDesc l) as [|e0 rest]; [done|].
  injection Hhd as ->. cbn in Hg. split.
  - rewrite <- Hp. by left.
  - intros e' He'. rewrite <- Hp in He'.
    apply elem_of_cons in He' as [->|He']; [done|].
    by eapply Forall_forall in Hg.
Qed.



(** The key of a message with an unresolved company names no inherited
    member. *)
Lemma key_unresolved (m : Message) :
  extractedCompany m = MANUAL_REVIEW_NEEDED_TEXT →
  JS.inherited (companyCacheKeyForSearch m) = None.
Proof.
  intros Hc. unfold companyCacheKeyForSearch.
  rewrite bool_decide_eq_false_2 by (by intros H). by vm_compute.
Qed.

Lemma cacheGet_own (cache : Cache) (k : string) (l : list Entry) :
  cache !! k = Some l → cacheGet cache k = Matches l.
Proof. intros Hk. unfold cacheGet. by rewrite Hk. Qed.



(** *** What the preload files under a key *)

Lemma pushThrows_own (cache : Cache) (k : string) :
  ownKeysOnly cache → pushThrows k cache = bool_decide (JS.inherited k ≠ None).
Proof.
  intros Hown. unfold pushThrows, cacheGet.
  destruct (cache !! k) as [l|] eqn:Hk.
  - rewrite (Hown k) by by eexists. by rewrite bool_decide_eq_false_2 by (by intros H).
  - destruct (JS.inherited k); [by rewrite bool_decide_eq_true_2|].
    by rewrite bool_decide_eq_false_2 by (by intros H).
Qed.

Lemma pushEntry_ownKeysOnly (cache : Cache) (k : string) (e : Entry) :
  ownKeysOnly cache → JS.inherited k = None → ownKeysOnly (pushEntry k e cache).
Proof.
  intros Hown Hk k' Hk'. unfold pushEntry in Hk'.
  destruct (decide (k = k')) as [<-|Hne]; [done|].
  rewrite lookup_insert_ne in Hk' by done. by apply Hown.
Qed.

Lemma ownKeysOnly_empty : ownKeysOnly ∅.
Proof. intros k [l Hl]. by rewrite lookup_empty in Hl. Qed.

Lemma preloadFrom_ownKeysOnly (rows : list Row) (i : nat) (cache : Cache) :
  ownKeysOnly cache → ownKeysOnly (preloadFrom i rows cache).
Proof.
  revert i cache. induction rows as [|r rows IH]; intros i cache Hown; [done|].
  cbn [preloadFrom]. destruct (cacheable _); [|by apply IH].
  rewrite (pushThrows_own _ _ Hown). case_bool_decide as Hi; [done|].
  apply IH, pushEntry_ownKeysOnly; [done|].
  by destruct (JS.inherited _).
Qed.

Lemma preloadCache_ownKeysOnly (sheet : list Row) : ownKeysOnly (preloadCache sheet).
Proof. apply preloadFrom_ownKeysOnly, ownKeysOnly_empty. Qed.

Lemma preloadFrom_lookup (rows : list Row) (i : nat) (cache : Cache) (k : string) :
  ownKeysOnly cache →
  preloadFrom i rows cache !! k =
    if cacheable k && bool_decide (entriesFor k i (preloadedRows rows) ≠ [])
    then Some (default [] (cache !! k) ++ entriesFor k i (preloadedRows rows))%list
    else cache !! k.
Proof.
  revert i cache. induction rows as [|r rows IH]; intros i cache Hown.
  - cbn. by rewrite andb_false_r.
  - cbn [preloadFrom preloadedRows].
    set (kr := JS.toLowerCase (JS.trim (COMPANY r))).
    destruct (cacheable kr) eqn:Hc; cbn [andb].
    + rewrite (pushThrows_own _ _ Hown).
      case_bool_decide as Hi.
      * cbn [entriesFor]. by rewrite andb_false_r.
      * assert (JS.inherited kr = None) as Hi' by (by destruct (JS.inherited kr)).
        rewrite IH by by apply pushEntry_ownKeysOnly.
        cbn [entriesFor]. fold kr. clearbody kr.
        destruct (decide (kr = k)) as [<-|Hk].
        -- rewrite (bool_decide_eq_true_2 (kr = kr) eq_refl).
           rewrite (bool_decide_eq_true_2 (_ :: _ ≠ [])) by done.
           rewrite andb_true_r, Hc.
           unfold pushEntry. rewrite lookup_insert_eq. cbn [default].
           case_bool_decide as Hrest.
           ++ unfold id. by rewrite <- app_assoc.
           ++ by rewrite Hrest.
        -- rewrite (bool_decide_eq_false_2 (kr = k)) by done.
           unfold pushEntry. by rewrite lookup_insert_ne.
    + rewrite IH by done. cbn [entriesFor]. fold kr. clearbody kr.
      destruct (decide (kr = k)) as [<-|Hk].
      * by rewrite Hc.
      * by rewrite (bool_decide_eq_false_2 (kr = k)).
Qed.

(** The array under key [k] after the preload holds exactly the entries of
    the rows that the preload reaches and whose trimmed, lower-cased
    company is [k]; there is none for the empty key, the sentinel and
    [n/a]. *)
Lemma preloadCache_lookup (sheet : list Row) (k : string) :
  preloadCache sheet !! k =
    if cacheable k && bool_decide (entriesFor k 0 (preloadedRows sheet) ≠ [])
    then Some (entriesFor k 0 (preloadedRows sheet)) else None.
Proof.
  unfold preloadCache. rewrite preloadFrom_lookup by apply ownKeysOnly_empty.
  by rewrite lookup_empty.
Qed.

(** The preload reaches every row of a sheet in which no company is, lower
    case and trimmed, the name of an inherited member. *)
Lemma preloadedRows_all (sheet : list Row) :
  (∀ r, r ∈ sheet → JS.inherited (JS.toLowerCase (JS.trim (COMPANY r))) = None) →
  preloadedRows sheet = sheet.
Proof.
  induction sheet as [|r sheet IH]; intros Hall; [done|].
  cbn [preloadedRows]. rewrite (Hall r) by left.
  rewrite (bool_decide_eq_false_2 (None ≠ None)) by (by intros H).
  rewrite andb_false_r, IH; [done|]. intros r' Hr'. apply Hall. by right.
Qed.

(** The rows that the preload reaches are the first rows of the sheet. *)
Lemma preloadedRows_prefix (sheet : list Row) : preloadedRows sheet `prefix_of` sheet.
Proof.
  induction sheet as [|r sheet IH]; [done|]. cbn [preloadedRows].
  destruct (_ && _); [apply prefix_nil|by apply prefix_cons].
Qed.

Lemma entriesFor_elem (k : string) (rows : list Row) (i : nat) (e : Entry) :
  e ∈ entriesFor k i rows ↔
  ∃ j r, rows !! j = Some r
         ∧ JS.toLowerCase (JS.trim (COMPANY r)) = k
         ∧ e = entryOfRow (i + j) r.
Proof.
  revert i. induction rows as [|r rows IH]; intros i.
  - cbn. split; [by intros ?%elem_of_nil|]. by intros (j & r & ? & _).
  - cbn [entriesFor]. case_bool_decide as Hk.
    + rewrite elem_of_cons, IH. split.
      * intros [->|(j & r' & Hj & Hr' & ->)].
        -- exists 0, r. by rewrite Nat.add_0_r.
        -- exists (S j), r'. split; [done|]. split; [done|]. f_equal. lia.
      * intros ([|j] & r' & Hj & Hr' & ->).
        -- left. injection Hj as ->. by rewrite Nat.add_0_r.
        -- right. exists j, r'. split; [done|]. split; [done|]. f_equal. lia.
    + rewrite IH. split.
      * intros (j & r' & Hj & Hr' & ->).
        exists (S j), r'. split; [done|]. split; [done|]. f_equal. lia.
      * intros ([|j] & r' & Hj & Hr' & ->).
        -- injection Hj as ->. done.
        -- exists j, r'. split; [done|]. split; [done|]. f_equal. lia.
Qed.


End ResolveFacts.

(** ** The message loop *)

Module RunFacts.
Import Config Tracker.

Lemma readRow_writeRow (sheet : list Row) (n : nat) (row : Row) :
  readRow (writeRow sheet n row) n = row.
Proof.
  unfold readRow, writeRow. case_bool_decide as Hn.
  - by rewrite list_lookup_insert_eq.
  - rewrite lookup_app_r by lia.
    rewrite lookup_app_r by (rewrite length_replicate; lia).
    rewrite length_replicate.
    replace (n - 2 - length sheet - (n - 2 - length sheet))%nat with 0%nat by lia.
    done.
Qed.

Lemma assignFirst_refreshed (n : nat) (upd : Entry → Entry) (l : list Entry) :
  (∀ c, rowNum (upd c) = rowNum c) →
  (∃ e, e ∈ l ∧ rowNum e = n) →
  ∃ e0, e0 ∈ l ∧ rowNum e0 = n ∧ upd e0 ∈ assignFirst n upd l.
Proof.
  intros Hupd. induction l as [|c l IH]; intros (e & He & Hn).
  - by apply elem_of_nil in He.
  - cbn [assignFirst]. case_bool_decide as Hc.
    + exists c. split; [by left|]. split; [done|]. by left.
    + apply elem_of_cons in He as [->|He]; [done|].
      destruct IH as (e0 & ? & ? & ?); [by exists e|].
      exists e0. split; [by right|]. split; [done|]. by right.
Qed.

(** A message resolved to an entry rewrites the row of that entry by
    [updateRow], reading the peak of the entry, and leaves the new peak in
    an entry of the same row number: the step [reconcile] of the record. *)
Lemma processMessage_existing
    (dateParse : string → option Z) (st : State) (m : Message) (now : Z)
    (e : Entry) (cache' : Cache) (l : list Entry) :
  resolveIdentity (cache st) m = (Existing e, cache') →
  cache' !! companyCacheKeyForSearch m = Some l → e ∈ l →
  let st' := processMessage dateParse st m now in
  let rs' := reconcile dateParse (readRow (sheet st) (rowNum e), peakStatus e) (m, now) in
  sheet st' = writeRow (sheet st) (rowNum e) rs'.1
  ∧ readRow (sheet st') (rowNum e) = rs'.1
  ∧ ∃ l' e', cache st' !! companyCacheKeyForSearch m = Some l' ∧ e' ∈ l'
             ∧ rowNum e' = rowNum e ∧ peakStatus e' = rs'.2.
Proof.
  intros Hres Hl He st' rs'. subst st' rs'.
  unfold processMessage. rewrite Hres.
  unfold updateExisting. cbn [sheet cache reconcile fst snd].
  split; [done|]. split; [apply readRow_writeRow|].
  rewrite lookup_alter_eq, Hl. cbn [fmap option_fmap option_map].
  eexists. 
  edestruct (assignFirst_refreshed (rowNum e)) as (e0 & _ & Hn & Hin);
    [| by exists e | eexists; split; [done|]; split; [exact Hin|] ]; done.
Qed.

(** A message resolved to no entry appends [newRow] and, where [push] does
    not throw, files an entry for it: the state [createRecord] of the
    record. *)
Lemma processMessage_new
    (dateParse : string → option Z) (st : State) (m : Message) (now : Z)
    (cache' : Cache) :
  resolveIdentity (cache st) m = (NoMatch, cache') →
  pushThrows (companyCacheKeyForSearch m) cache' = false →
  let st' := processMessage dateParse st m now in
  let rs := createRecord m now in
  sheet st' = (sheet st ++ [rs.1])%list
  ∧ readRow (sheet st') (length (sheet st) + 2) = rs.1
  ∧ ∃ l' e', cache st' !! companyCacheKeyForSearch m = Some l' ∧ e' ∈ l'
             ∧ rowNum e' = (length (sheet st) + 2)%nat ∧ peakStatus e' = rs.2.
Proof.
  intros Hres Hpush st' rs. subst st' rs.
  unfold processMessage. rewrite Hres.
  unfold appendNew, createRecord. cbn [sheet cache fst snd]. rewrite Hpush.
  split; [done|]. split.
  - unfold readRow. replace (length (sheet st) + 2 - 2)%nat with (length (sheet st)) by lia.
    by rewrite lookup_app_r, Nat.sub_diag by lia.
  - unfold pushEntry. rewrite lookup_insert_eq.
    eexists _, _. split; [done|]. split; [apply elem_of_app; right; by left|].
    cbn [rowNum peakStatus]. rewrite length_app. cbn. split; [lia|done].
Qed.

End RunFacts.

(** ** Which messages a run takes up *)

Module CollectFacts.
Import Config Tracker ResolveFacts.

Lemma emailIds_elem (cache : Cache) (id : string) :
  id ∈ emailIdsAlreadyInSheet cache ↔
  id ≠ "" ∧ ∃ k l e, cache !! k = Some l ∧ e ∈ l ∧ emailId e = id.
Proof.
  unfold emailIdsAlreadyInSheet.
  rewrite elem_of_list_to_set, list_elem_of_filter, list_elem_of_fmap.
  split.
  - intros (Hne & e & -> & He). split; [done|].
    apply list_elem_of_In, in_concat in He as (l & Hl & He).
    apply list_elem_of_In, list_elem_of_fmap in Hl as ([k l'] & -> & Hkl).
    apply elem_of_map_to_list in Hkl.
    exists k, l', e. by rewrite list_elem_of_In.
  - intros (Hne & k & l & e & Hk & He & <-). split; [done|].
    exists e. split; [done|].
    apply list_elem_of_In, in_concat. exists l.
    split; [|by apply list_elem_of_In].
    apply list_elem_of_In, list_elem_of_fmap. exists (k, l).
    split; [done|]. by apply elem_of_map_to_list.
Qed.

(** After the preload the set holds the trimmed, non-empty ids of exactly
    those rows that the preload reaches and whose company passes the test
    of line 573. *)
Lemma emailIds_preload (sheet : list Row) (id : string) :
  id ∈ emailIdsAlreadyInSheet (preloadCache sheet) ↔
  id ≠ "" ∧ ∃ j r, preloadedRows sheet !! j = Some r
                   ∧ cacheable (JS.toLowerCase (JS.trim (COMPANY r))) = true
                   ∧ JS.trim (EMAIL_ID r) = id.
Proof.
  rewrite emailIds_elem. split; intros (Hne & H); (split; [done|]).
  - destruct H as (k & l & e & Hk & He & <-).
    rewrite preloadCache_lookup in Hk.
    destruct (cacheable k) eqn:Hc; cbn [andb] in Hk; [|done].
    case_bool_decide; [|done]. injection Hk as <-.
    apply entriesFor_elem in He as (j & r & Hj & <- & ->).
    by exists j, r.
  - destruct H as (j & r & Hj & Hc & <-).
    set (k := JS.toLowerCase (JS.trim (COMPANY r))) in *.
    assert (entryOfRow j r ∈ entriesFor k 0 (preloadedRows sheet)) as He.
    { apply entriesFor_elem. by exists j, r. }
    exists k, (entriesFor k 0 (preloadedRows sheet)), (entryOfRow j r).
    split; [|done]. rewrite preloadCache_lookup, Hc. cbn [andb].
    rewrite bool_decide_eq_true_2; [done|]. intros Hnil. rewrite Hnil in He.
    by apply elem_of_nil in He.
Qed.

Lemma scanMessage_invariant (inSheet : gset string)
    (acc : list Message * gset string) (msg : Message) :
  scanInvariant inSheet acc → scanInvariant inSheet (scanMessage inSheet acc msg).
Proof.
  intros (Hnew & Hnd & Hids). unfold scanMessage.
  destruct (bool_decide (messageId msg ∉ inSheet)) eqn:H1; cbn [andb]; [|done].
  destruct (bool_decide (messageId msg ∉ acc.2)) eqn:H2; [|done].
  apply bool_decide_eq_true in H1, H2.
  unfold scanInvariant. cbn [fst snd]. split; [|split].
  - intros m [Hm| ->%list_elem_of_singleton]%elem_of_app; [by apply Hnew|done].
  - rewrite fmap_app. apply NoDup_app. split; [done|]. split.
    + intros id Hid [->|[]%elem_of_nil]%elem_of_cons. by apply H2, Hids.
    + cbn. apply NoDup_singleton.
  - intros id. rewrite fmap_app, elem_of_app, elem_of_union, elem_of_singleton, Hids.
    cbn. rewrite list_elem_of_singleton. tauto.
Qed.

Lemma scanThreads_invariant (inSheet : gset string) (threads : list Thread) :
  scanInvariant inSheet (scanThreads inSheet threads).
Proof.
  unfold scanThreads.
  assert (scanInvariant inSheet ([], ∅)) as Hinit.
  { split; [by intros m ?%elem_of_nil|]. split; [constructor|].
    intros id. cbn. rewrite elem_of_nil. set_solver. }
  revert Hinit. generalize (([], ∅) : list Message * gset string).
  induction threads as [|th threads IH]; intros acc Hacc; [done|].
  cbn [fold_left]. apply IH. clear IH.
  revert acc Hacc. induction (messages th) as [|msg msgs IHm]; intros acc Hacc; [done|].
  cbn [fold_left]. by apply IHm, scanMessage_invariant.
Qed.

(** What does hold of C4: a run takes up no message whose id is in the
    set built from the cache, and takes up no id twice. *)
Lemma newMessages_unseen (cache : Cache) (threads : list Thread) :
  (∀ m, m ∈ newMessagesList cache threads →
        messageId m ∉ emailIdsAlreadyInSheet cache)
  ∧ NoDup (messageId <$> newMessagesList cache threads).
Proof.
  unfold newMessagesList.
  destruct (scanThreads_invariant (emailIdsAlreadyInSheet cache)
              (take MAX_THREADS_TO_SCAN threads)) as (Hnew & Hnd & _).
  split.
  - intros m Hm. rewrite sort_perm in Hm. by apply Hnew.
  - by rewrite sort_perm.
Qed.

(** So a message recorded in a row with a resolved company, a row that the
    preload reaches, is skipped. *)
Lemma recorded_with_company_skipped
    (sheet : list Row) (threads : list Thread) (r : Row) (m : Message) :
  r ∈ preloadedRows sheet →
  cacheable (JS.toLowerCase (JS.trim (COMPANY r))) = true →
  messageId m ≠ "" → JS.trim (EMAIL_ID r) = messageId m →
  m ∉ newMessagesList (preloadCache sheet) threads.
Proof.
  intros Hr Hc Hne Hid Hm.
  apply (proj1 (newMessages_unseen _ _)) in Hm. apply Hm.
  apply emailIds_preload. split; [done|].
  apply list_elem_of_lookup in Hr as [j Hj]. by exists j, r.
Qed.

Lemma scanMessage_seen (inSheet : gset string)
    (acc : list Message * gset string) (msg : Message) :
  messageId msg ∈ inSheet → scanMessage inSheet acc msg = acc.
Proof.
  intros Hin. unfold scanMessage.
  rewrite (bool_decide_eq_false_2 (messageId msg ∉ inSheet)); [done|].
  by intros Hn.
Qed.

Lemma all_seen_nothing_new (cache : Cache) (threads : list Thread) :
  (∀ th m, th ∈ threads → m ∈ messages th →
           messageId m ∈ emailIdsAlreadyInSheet cache) →
  newMessagesList cache threads = [].
Proof.
  intros Hall. unfold newMessagesList, scanThreads.
  assert (∀ ths acc,
            (∀ th m, th ∈ ths → m ∈ messages th →
                     messageId m ∈ emailIdsAlreadyInSheet cache) →
            fold_left (λ acc th, fold_left (scanMessage (emailIdsAlreadyInSheet cache))
                                   (messages th) acc) ths acc = acc) as Hfold.
  { induction ths as [|th ths IH]; intros acc Hths; [done|].
    cbn [fold_left]. rewrite IH by (intros; eapply Hths; [by right|done]).
    assert (∀ m, m ∈ messages th → messageId m ∈ emailIdsAlreadyInSheet cache) as Hth
      by (intros; eapply Hths; [by left|done]).
    revert Hth. generalize (messages th). intros msgs.
    induction msgs as [|msg msgs IHm]; intros Hth; [done|].
    cbn [fold_left]. rewrite scanMessage_seen by (apply Hth; by left).
    apply IHm. intros; apply Hth; by right. }
  rewrite Hfold; [done|].
  intros th m Hth Hm. eapply Hall; [|done].
  by eapply subseteq_take.
Qed.

(** A run that finds every message of its threads in the set leaves the
    sheet as it is. *)
Lemma run_without_new_messages
    (dateParse : string → option Z) (scriptStart : Z) (timeAtCheck timeAtWrite : nat → Z)
    (sheet : list Row) (threads : list Thread) :
  (∀ th m, th ∈ threads → m ∈ messages th →
           messageId m ∈ emailIdsAlreadyInSheet (preloadCache sheet)) →
  MJM_processJobApplicationEmails dateParse scriptStart timeAtCheck timeAtWrite sheet threads
  = sheet.
Proof.
  intros Hall. unfold MJM_processJobApplicationEmails.
  by rewrite (all_seen_nothing_new _ _ Hall).
Qed.

End CollectFacts.

(** ** The staleness sweep *)

Module SweepFacts.
Import Config Tracker Sweep.

Section WithRuntime.

Variable dateParse : string → option Z.
Variable LocalTZA : Z → bool → Z.

Lemma isStale_iff (currentDate : Z) (r : Row) :
  isStale dateParse LocalTZA currentDate r = true ↔ staleCondition dateParse LocalTZA currentDate r.
Proof.
  unfold isStale, staleCondition, exemptStatus.
  destruct (lastUpdateDateObject dateParse (LAST_UPDATE_DATE r)) as [t|].
  - destruct (decide (currentAppStatus r ∈ MJM_STALE_FINAL_STATUSES_FOR_CHECK)) as [Hf|Hf];
      [rewrite (bool_decide_eq_true_2 _ Hf)|rewrite (bool_decide_eq_false_2 _ Hf)];
      cbn [orb]; [split; [done|by intros (? & _)]|].
    destruct (decide (currentAppStatus r = "")) as [He|He];
      [rewrite (bool_decide_eq_true_2 _ He)|rewrite (bool_decide_eq_false_2 _ He)];
      cbn [orb]; [split; [done|by intros (_ & ? & _)]|].
    destruct (decide (currentAppStatus r = MANUAL_REVIEW_NEEDED_TEXT)) as [Hm|Hm];
      [rewrite (bool_decide_eq_true_2 _ Hm)|rewrite (bool_decide_eq_false_2 _ Hm)];
      [split; [done|by intros (_ & _ & ? & _)]|].
    case_bool_decide as Ht.
    + split; [done|]. intros (_ & _ & _ & t' & [= <-] & ?). lia.
    + split; [|done]. intros _. repeat split; try done. exists t. split; [done|lia].
  - split; [done|]. by intros (_ & _ & _ & t & ? & _).
Qed.

Lemma sweepRows_lookup (currentDate : Z) (rows : list Row) (i : nat) (r : Row) :
  rows !! i = Some r →
  (sweepRows dateParse LocalTZA currentDate rows).1 !! i
  = Some (if isStale dateParse LocalTZA currentDate r then markStale currentDate r else r).
Proof.
  revert i. induction rows as [|r0 rows IH]; intros i Hi; [done|].
  cbn [sweepRows]. destruct i as [|i].
  - injection Hi as ->. by destruct (isStale dateParse LocalTZA currentDate r).
  - cbn in Hi. specialize (IH _ Hi). by destruct (isStale dateParse LocalTZA currentDate r0).
Qed.

Lemma sweepRows_length (currentDate : Z) (rows : list Row) :
  length (sweepRows dateParse LocalTZA currentDate rows).1 = length rows.
Proof.
  induction rows as [|r0 rows IH]; [done|].
  cbn [sweepRows]. destruct (isStale dateParse LocalTZA currentDate r0); cbn; by rewrite IH.
Qed.

Lemma sweepRows_none (currentDate : Z) (rows : list Row) :
  (∀ r, r ∈ rows → isStale dateParse LocalTZA currentDate r = false) →
  sweepRows dateParse LocalTZA currentDate rows = (rows, 0).
Proof.
  induction rows as [|r0 rows IH]; intros Hall; [done|].
  cbn [sweepRows]. rewrite (Hall r0) by by left.
  rewrite IH; [done|]. intros r Hr. apply Hall. by right.
Qed.

Lemma sweepRows_some (currentDate : Z) (rows : list Row) :
  (sweepRows dateParse LocalTZA currentDate rows).2 = 0 →
  ∀ r, r ∈ rows → isStale dateParse LocalTZA currentDate r = false.
Proof.
  induction rows as [|r0 rows IH]; intros Hz r Hr; [by apply elem_of_nil in Hr|].
  cbn [sweepRows] in Hz.
  destruct (isStale dateParse LocalTZA currentDate r0) eqn:H0; [done|].
  apply elem_of_cons in Hr as [->|Hr]; [done|]. by apply IH.
Qed.

(** Row [S i] of the sheet after the sweep, [i] counting the rows below
    the header. *)
Lemma sheetAfterSweep_lookup (currentDate : Z) (header : Row) (rows : list Row)
    (i : nat) (r : Row) :
  rows !! i = Some r →
  sheetAfterSweep dateParse LocalTZA currentDate (header :: rows) !! S i
  = Some (if isStale dateParse LocalTZA currentDate r then markStale currentDate r else r).
Proof.
  intros Hi. unfold sheetAfterSweep, MJM_markStaleApplicationsAsRejected.
  destruct rows as [|r0 rows]; [done|].
  set (rs := r0 :: rows) in *.
  case_bool_decide as Hn; cbn [default]; unfold id.
  - rewrite lookup_cons. by apply sweepRows_lookup.
  - rewrite lookup_cons, Hi.
    rewrite (sweepRows_some currentDate rs); [done|lia|].
    by eapply list_elem_of_lookup_2.
Qed.

Lemma threshold_bounds (currentDate : Z) :
  (∀ t b, - msPerDay ≤ LocalTZA t b ≤ msPerDay)%Z →
  (currentDate - 51 * msPerDay ≤ staleDateThreshold LocalTZA currentDate
   ≤ currentDate - 47 * msPerDay)%Z.
Proof.
  intros Htz. unfold staleDateThreshold, MJM_STALE_WEEKS_THRESHOLD.
  pose proof (Htz currentDate true).
  pose proof (Htz (currentDate + LocalTZA currentDate true - 7 * 7 * msPerDay)%Z false).
  unfold msPerDay in *. lia.
Qed.

Lemma staleCondition_staleBefore (currentDate : Z) (r : Row) :
  staleCondition dateParse LocalTZA currentDate r
  ↔ staleBefore dateParse (staleDateThreshold LocalTZA currentDate) r.
Proof.
  unfold staleCondition, staleBefore, MJM_STALE_FINAL_STATUSES_FOR_CHECK,
    MJM_APP_REJECTED_STATUS, MJM_APP_ACCEPTED_STATUS.
  rewrite !elem_of_union, !elem_of_singleton, !elem_of_cons, elem_of_nil.
  tauto.
Qed.

Lemma staleBefore_mono (a b : Z) (r : Row) :
  (a ≤ b)%Z → staleBefore dateParse a r → staleBefore dateParse b r.
Proof.
  intros Hab (H1 & H2 & H3 & t & Ht & Hlt).
  split; [done|]. split; [done|]. split; [done|].
  exists t. split; [done|lia].
Qed.

Lemma threshold_constant_offset (currentDate : Z) :
  LocalTZA (currentDate + LocalTZA currentDate true - 7 * 7 * msPerDay)%Z false
  = LocalTZA currentDate true →
  staleDateThreshold LocalTZA currentDate = (currentDate - 7 * 7 * msPerDay)%Z.
Proof.
  intros Htz. unfold staleDateThreshold, MJM_STALE_WEEKS_THRESHOLD.
  rewrite Htz. lia.
Qed.

(** C7.  For every row below the header: the sweep sets its status to
    Rejected and its last update date to the sweep time when, and only
    when, the row is stale, and leaves every other row as it was.  Stale
    means: the status is none of Rejected, Offer Accepted and Withdrawn,
    not empty, not the manual-review sentinel, and the last update time is
    strictly before the threshold.  The threshold is the sweep time less
    seven weeks (49 days of 86400000 ms) when local time has the same
    offset at both ends of the seven weeks; with any offsets of at most a
    day it lies within two days of that.  In particular a row with status
    Applied last updated eight weeks before the sweep becomes Rejected, and
    a row last updated six weeks before the sweep is left as it was. *)
Theorem sweep_marks_exactly_stale
    (currentDate : Z) (header : Row) (rows : list Row) (i : nat) (r : Row) :
  rows !! i = Some r →
  ∃ r', sheetAfterSweep dateParse LocalTZA currentDate (header :: rows) !! S i = Some r'
    ∧ (staleCondition dateParse LocalTZA currentDate r →
       STATUS r' = MJM_APP_REJECTED_STATUS ∧ LAST_UPDATE_DATE r' = CDate currentDate)
    ∧ (¬ staleCondition dateParse LocalTZA currentDate r → r' = r)
    ∧ (LocalTZA (currentDate + LocalTZA currentDate true - 7 * 7 * msPerDay)%Z false
       = LocalTZA currentDate true →
       staleDateThreshold LocalTZA currentDate = (currentDate - 7 * 7 * msPerDay)%Z
       ∧ (staleCondition dateParse LocalTZA currentDate r
          ↔ staleBefore dateParse (currentDate - 7 * 7 * msPerDay) r))
    ∧ ((∀ t b, - msPerDay ≤ LocalTZA t b ≤ msPerDay)%Z →
       (staleBefore dateParse (currentDate - (7 * 7 + 2) * msPerDay) r →
        staleCondition dateParse LocalTZA currentDate r)
       ∧ (staleCondition dateParse LocalTZA currentDate r →
          staleBefore dateParse (currentDate - (7 * 7 - 2) * msPerDay) r)
       ∧ (STATUS r = MJM_APP_DEFAULT_STATUS →
          LAST_UPDATE_DATE r = CDate (currentDate - 8 * 7 * msPerDay) →
          STATUS r' = MJM_APP_REJECTED_STATUS)
       ∧ (LAST_UPDATE_DATE r = CDate (currentDate - 6 * 7 * msPerDay) → r' = r)).
Proof.
  intros Hi. eexists. split; [by apply sheetAfterSweep_lookup|].
  assert (staleCondition dateParse LocalTZA currentDate r →
          isStale dateParse LocalTZA currentDate r = true) as Hyes by apply isStale_iff.
  assert (¬ staleCondition dateParse LocalTZA currentDate r →
          isStale dateParse LocalTZA currentDate r = false) as Hno.
  { intros Hn. destruct (isStale dateParse LocalTZA currentDate r) eqn:Hst; [|done].
    by apply isStale_iff in Hst. }
  split; [|split; [|split]].
  - intros Hs. by rewrite (Hyes Hs).
  - intros Hn. by rewrite (Hno Hn).
  - intros Htz. pose proof (threshold_constant_offset currentDate Htz) as Hth.
    split; [exact Hth|]. rewrite staleCondition_staleBefore. by rewrite Hth.
  - intros Htz. pose proof (threshold_bounds currentDate Htz) as Hb.
    split; [|split; [|split]].
    + intros Hs. apply staleCondition_staleBefore.
      apply (staleBefore_mono (currentDate - (7 * 7 + 2) * msPerDay)%Z); [lia|done].
    + intros Hs. apply staleCondition_staleBefore in Hs.
      apply (staleBefore_mono (staleDateThreshold LocalTZA currentDate)); [lia|done].
    + intros Hs Hd. rewrite Hyes; [done|].
      unfold staleCondition, currentAppStatus. rewrite Hs, Hd.
      split; [by vm_compute|]. split; [done|]. split; [done|].
      eexists. split; [done|]. unfold msPerDay in *. lia.
    + intros Hd. rewrite Hno; [done|].
      intros (_ & _ & _ & t & Ht & Hlt). rewrite Hd in Ht. injection Ht as <-.
      unfold msPerDay in *. lia.
Qed.

(** C9.  A row that the sweep marks gets its status set to Rejected (it
    was something else), its last update date and its processed timestamp
    set to the sweep time, and keeps its other eight fields; a row that is
    not marked, and the header, stay as they are; and when no row is
    marked the sweep does not write to the sheet. *)
Theorem sweep_frame (currentDate : Z) (header : Row) (rows : list Row) :
  (∀ i r, rows !! i = Some r → isStale dateParse LocalTZA currentDate r = true →
     ∃ r', sheetAfterSweep dateParse LocalTZA currentDate (header :: rows) !! S i = Some r'
       ∧ STATUS r' = MJM_APP_REJECTED_STATUS ∧ STATUS r ≠ MJM_APP_REJECTED_STATUS
       ∧ LAST_UPDATE_DATE r' = CDate currentDate
       ∧ PROCESSED_TIMESTAMP r' = CDate currentDate
       ∧ EMAIL_DATE r' = EMAIL_DATE r ∧ PLATFORM r' = PLATFORM r
       ∧ COMPANY r' = COMPANY r ∧ JOB_TITLE r' = JOB_TITLE r
       ∧ PEAK_STATUS r' = PEAK_STATUS r ∧ EMAIL_SUBJECT r' = EMAIL_SUBJECT r
       ∧ EMAIL_LINK r' = EMAIL_LINK r ∧ EMAIL_ID r' = EMAIL_ID r)
  ∧ (∀ i r, rows !! i = Some r → isStale dateParse LocalTZA currentDate r = false →
       sheetAfterSweep dateParse LocalTZA currentDate (header :: rows) !! S i = Some r)
  ∧ sheetAfterSweep dateParse LocalTZA currentDate (header :: rows) !! 0 = Some header
  ∧ length (sheetAfterSweep dateParse LocalTZA currentDate (header :: rows)) = length (header :: rows)
  ∧ ((∀ r, r ∈ rows → isStale dateParse LocalTZA currentDate r = false) →
     MJM_markStaleApplicationsAsRejected dateParse LocalTZA currentDate (header :: rows) = None).
Proof.
  split; [|split; [|split; [|split]]].
  - intros i r Hi Hst. eexists. split; [by apply sheetAfterSweep_lookup|].
    rewrite Hst. cbn. repeat split; try done.
    intros Hr. apply isStale_iff in Hst as (Hf & _). apply Hf.
    unfold currentAppStatus. rewrite Hr. by vm_compute.
  - intros i r Hi Hst. rewrite (sheetAfterSweep_lookup _ _ _ _ _ Hi). by rewrite Hst.
  - unfold sheetAfterSweep, MJM_markStaleApplicationsAsRejected.
    destruct rows as [|r0 rows]; [done|]. by case_bool_decide.
  - unfold sheetAfterSweep, MJM_markStaleApplicationsAsRejected.
    destruct rows as [|r0 rows]; [done|].
    case_bool_decide; [|done]. cbn [default]; unfold id. cbn [length].
    by rewrite sweepRows_length.
  - intros Hall. unfold MJM_markStaleApplicationsAsRejected.
    destruct rows as [|r0 rows]; [done|].
    rewrite (sweepRows_none _ _ Hall). done.
Qed.

End WithRuntime.

End SweepFacts.

(** ** Worked inputs *)

Module Scenarios.
Import Config Parsing Tracker Sweep Examples.
Import StatusFacts PeakFacts ResolveFacts CollectFacts SweepFacts.

(** An interview-stage record receives a rejection, or an application
    confirmation. *)
Lemma status_merge_rule_witness :
  statusInSheet (STATUS rowInterview) ≠ MJM_APP_ACCEPTED_STATUS
  ∧ STATUS (updateRow noDateParse rowInterview "Interview Scheduled" msgRejected 3000)
    = "Rejected"
  ∧ STATUS (updateRow noDateParse rowInterview "Interview Scheduled" msgApplied 3000)
    = "Interview Scheduled".
Proof.
  assert (statusInSheet (STATUS rowInterview) ≠ MJM_APP_ACCEPTED_STATUS) as Hna
    by (by vm_compute).
  split; [exact Hna|]. split.
  - apply (proj1 (status_merge_rule noDateParse rowInterview "Interview Scheduled"
                    msgRejected 3000 Hna)).
    right. left. reflexivity.
  - apply (proj1 (proj2 (status_merge_rule noDateParse rowInterview "Interview Scheduled"
                           msgApplied 3000 Hna))).
    vm_compute. intros [H|[H|H]]; discriminate H.
Defined.

(** Witness of C2: an accepted record sees a rejection, a new run and an
    application confirmation. *)
Lemma accepted_is_absorbing_witness :
  statusInSheet (STATUS rowAccepted) = MJM_APP_ACCEPTED_STATUS
  ∧ STATUS (runSteps noDateParse (rowAccepted, "Interview Scheduled")
              [Reconcile msgRejected 3000; NewRun; Reconcile msgApplied 4000]).1
    = "Offer Accepted".
Proof.
  assert (statusInSheet (STATUS (rowAccepted, "Interview Scheduled").1)
          = MJM_APP_ACCEPTED_STATUS) as Hacc by reflexivity.
  split; [exact Hacc|].
  destruct (accepted_is_absorbing noDateParse
              [Reconcile msgRejected 3000; NewRun; Reconcile msgApplied 4000]
              (rowAccepted, "Interview Scheduled") Hacc) as (_ & _ & Hkeep).
  rewrite Hkeep; [reflexivity|].
  repeat constructor; intros m now [= <- <-]; by vm_compute.
Defined.

(** Witness of C10: a rejected record receives an offer. *)
Lemma rejected_is_not_absorbing_witness :
  statusInSheet (STATUS rowRejected) = MJM_APP_REJECTED_STATUS
  ∧ finalStatusToLog msgOffer = MJM_APP_OFFER_STATUS
  ∧ STATUS (updateRow noDateParse rowRejected "Interview Scheduled" msgOffer 3000)
    = "Offer Received".
Proof.
  assert (statusInSheet (STATUS rowRejected) = MJM_APP_REJECTED_STATUS) as Hrej
    by reflexivity.
  assert (finalStatusToLog msgOffer = MJM_APP_OFFER_STATUS) as Hoffer by reflexivity.
  split; [exact Hrej|]. split; [exact Hoffer|].
  exact (proj2 rejected_is_not_absorbing noDateParse rowRejected "Interview Scheduled"
           msgOffer 3000%Z Hrej (or_introl Hoffer)).
Defined.

(** Counterexample to C5 as stated: the record of Acme holds the resolved
    title Software Engineer; a message for Acme with the resolved title
    Data Analyst matches no title, falls back to that record, and its title
    is overwritten. *)
Lemma resolved_title_overwritten :
  let st := {| sheet := acmeSheet; cache := preloadCache acmeSheet |} in
  let st' := processMessage noDateParse st msgAnalyst 5000 in
  JOB_TITLE (readRow (sheet st) 2) = "Software Engineer"
  ∧ "Software Engineer" ≠ MANUAL_REVIEW_NEEDED_TEXT
  ∧ extractedTitle msgAnalyst = "Data Analyst"
  ∧ "Data Analyst" ≠ MANUAL_REVIEW_NEEDED_TEXT
  ∧ length (sheet st') = 1
  ∧ JOB_TITLE (readRow (sheet st') 2) = "Data Analyst".
Proof. by vm_compute. Qed.


(** C1, the failing input: the status of the first message of the thread
    is the word constructor, which is no key of the status table; the run
    creates the record of Initech with it.  The second message says
    Applied, of rank 1, which is at least the rank 0 of a status outside
    the table, so the status should become Applied.  Line 696 finds the
    member [constructor] that the table inherits as an object, the default
    0 does not apply, the comparison of line 698 of the number 1 with that
    function is false, and the status cell keeps the word constructor. *)
Lemma status_named_constructor_kept :
  let sheet1 := MJM_processJobApplicationEmails noDateParse 0 (λ _, 0%Z) (λ _, 4000%Z)
                  [] [threadInitech] in
  sheet1 = [updateRow noDateParse (newRow msgOddStatus 4000) "constructor"
              msgInitechApplied 4000]
  ∧ statusInSheet (STATUS (newRow msgOddStatus 4000)) = "constructor"
  ∧ bool_decide ("constructor" = MJM_APP_ACCEPTED_STATUS) = false
  ∧ MJM_APP_STATUS_HIERARCHY !! "constructor" = None
  ∧ finalStatusToLog msgInitechApplied = "Applied"
  ∧ rankOr 0 "constructor" = 0%Z
  ∧ rankOr 0 "Applied" = 1%Z
  ∧ JS.ge (rankValue 0 "Applied") (rankValue 0 "constructor") = false
  ∧ STATUS <$> sheet1 = ["constructor"].
Proof. by vm_compute. Qed.

(** C3, the failing input: a first run creates the record of Globex from a
    rejection whose status text is Rejected followed by a space.  That text
    is not in the excluded set, so line 722 makes it the initial peak.  The
    next run trims the peak cell when it preloads the cache (line 577) and
    merges an application confirmation into the record: the status cell is
    kept, the peak that line 702 reads is Rejected, and line 706 writes
    Rejected, a member of the excluded set, into the peak cell. *)
Lemma peak_set_to_rejected_by_next_run :
  let sheet1 := MJM_processJobApplicationEmails noDateParse 0 (λ _, 0%Z) (λ _, 3000%Z)
                  [] [threadGlobex] in
  let sheet2 := MJM_processJobApplicationEmails noDateParse 0 (λ _, 0%Z) (λ _, 6000%Z)
                  sheet1 [threadGlobexLater] in
  sheet1 = [newRow msgRejectedSpace 3000]
  ∧ PEAK_STATUS <$> sheet1 = ["Rejected "]
  ∧ sheet2 = [updateRow noDateParse (newRow msgRejectedSpace 3000) "Rejected"
                msgGlobexApplied 6000]
  ∧ STATUS <$> sheet2 = ["Rejected "]
  ∧ PEAK_STATUS <$> sheet2 = ["Rejected"]
  ∧ bool_decide ("Rejected" ∈ excludedPeak) = true.
Proof. by vm_compute. Qed.

(** C4, the failing input: the sheet records message m1 in a row whose
    company is the manual-review sentinel.  The preload leaves that row out
    of the cache, so m1 is not in the set of ids already in the sheet; the
    run takes m1 up again and appends a second row for it. *)
Lemma manual_review_message_processed_again :
  EMAIL_ID <$> manualReviewSheet = ["m1"]
  ∧ messageId msgUnresolved = "m1"
  ∧ emailIdsAlreadyInSheet (preloadCache manualReviewSheet) = ∅
  ∧ newMessagesList (preloadCache manualReviewSheet) [threadOfM1] = [msgUnresolved]
  ∧ EMAIL_ID <$> MJM_processJobApplicationEmails noDateParse 0 (λ _, 0%Z) (λ _, 7000%Z)
                   manualReviewSheet [threadOfM1]
    = ["m1"; "m1"].
Proof. by vm_compute. Qed.

(** The same message recorded under a resolved company is skipped and the
    run changes nothing. *)
Example resolved_company_message_skipped :
  newMessagesList (preloadCache acmeSheet) [mkThread "t0" [msgAcmeFirst]] = []
  ∧ MJM_processJobApplicationEmails noDateParse 0 (λ _, 0%Z) (λ _, 7000%Z)
      acmeSheet [mkThread "t0" [msgAcmeFirst]] = acmeSheet.
Proof. by vm_compute. Qed.

(** Witness of C7 (scenario C of the specification): last updated eight
    weeks before the sweep, status Applied; the threshold is the sweep time
    less 49 days. *)
Lemma sweep_marks_exactly_stale_witness :
  [rowAppliedOld] !! 0 = Some rowAppliedOld
  ∧ staleDateThreshold utc sweepTime = (sweepTime - 49 * 86400000)%Z
  ∧ ∃ r', sheetAfterSweep noDateParse utc sweepTime [headerRow; rowAppliedOld] !! 1 = Some r'
          ∧ STATUS r' = "Rejected".
Proof.
  assert ([rowAppliedOld] !! 0 = Some rowAppliedOld) as Hrow by reflexivity.
  split; [exact Hrow|].
  destruct (sweep_marks_exactly_stale noDateParse utc sweepTime headerRow
              [rowAppliedOld] 0 rowAppliedOld Hrow) as (r' & Hr' & _ & _ & Hsame & Hold).
  split; [exact (proj1 (Hsame eq_refl))|].
  exists r'. split; [exact Hr'|].
  assert (∀ t b, (- msPerDay ≤ utc t b ≤ msPerDay)%Z) as Htz
    by (intros t b; unfold utc, msPerDay; lia).
  destruct (Hold Htz) as (_ & _ & Height & _).
  apply Height; reflexivity.
Defined.

(** A row updated six weeks before the sweep is left alone, and the sweep
    then writes nothing. *)
Example sweep_leaves_recent_row :
  MJM_markStaleApplicationsAsRejected noDateParse utc sweepTime [headerRow; rowAppliedRecent]
  = None.
Proof. by vm_compute. Qed.

End Scenarios.

(** * Further properties of the tracker *)

(** ** The message loop: rows, bounds and the next run *)

Module RunExtra.
Import Config Tracker RunModel JSFacts ResolveFacts CollectFacts RunFacts.

Lemma isWhiteSpace_lowerChar (c : ascii) :
  JS.isWhiteSpace (JS.lowerChar c) = JS.isWhiteSpace c.
Proof. destruct c as [[] [] [] [] [] [] [] []]; reflexivity. Qed.

Lemma lowerChar_not_white (c : ascii) :
  JS.isWhiteSpace c = false → JS.lowerChar c = c ∨ JS.isWhiteSpace (JS.lowerChar c) = false.
Proof. intros H. right. by rewrite isWhiteSpace_lowerChar. Qed.

Lemma trimStart_toLowerCase (s : string) :
  JS.trimStart (JS.toLowerCase s) = JS.toLowerCase (JS.trimStart s).
Proof.
  induction s as [|c s IH]; [done|].
  cbn [JS.toLowerCase JS.trimStart]. rewrite isWhiteSpace_lowerChar.
  by destruct (JS.isWhiteSpace c).
Qed.

Lemma trimEnd_toLowerCase (s : string) :
  JS.trimEnd (JS.toLowerCase s) = JS.toLowerCase (JS.trimEnd s).
Proof.
  induction s as [|c s IH]; [done|].
  cbn [JS.toLowerCase JS.trimEnd]. rewrite IH, isWhiteSpace_lowerChar.
  destruct (JS.trimEnd s); cbn [JS.toLowerCase]; [|done].
  by destruct (JS.isWhiteSpace c).
Qed.

Lemma trim_toLowerCase (s : string) :
  JS.trim (JS.toLowerCase s) = JS.toLowerCase (JS.trim s).
Proof. unfold JS.trim. by rewrite trimStart_toLowerCase, trimEnd_toLowerCase. Qed.

Lemma preload_in_range (sheet : list Row) :
  cacheRowsInRange {| sheet := sheet; cache := preloadCache sheet |}.
Proof.
  intros k l e Hk He. cbn [Tracker.sheet cache] in *.
  rewrite preloadCache_lookup in Hk.
  destruct (cacheable k && bool_decide (entriesFor k 0 (preloadedRows sheet) ≠ [])); [|done].
  injection Hk as <-. apply entriesFor_elem in He as (j & r & Hj & _ & ->).
  apply lookup_lt_Some in Hj.
  pose proof (prefix_length _ _ (preloadedRows_prefix sheet)). cbn. lia.
Qed.

(** Resolution keeps the cache in range and answers with an entry of the
    array it leaves under the key of the message. *)
Lemma resolveIdentity_in_range (st : State) (m : Message) :
  cacheRowsInRange st →
  cacheRowsInRange {| sheet := sheet st; cache := (resolveIdentity (cache st) m).2 |}
  ∧ ∀ e, (resolveIdentity (cache st) m).1 = Existing e →
      ∃ l, (resolveIdentity (cache st) m).2 !! companyCacheKeyForSearch m = Some l
           ∧ e ∈ l.
Proof.
  intros Hst. unfold resolveIdentity.
  case_bool_decide as Hc; [|by split; [destruct st|]].
  unfold cacheGet.
  destruct (cache st !! companyCacheKeyForSearch m) as [matches|] eqn:Hk.
  - destruct (if bool_decide (extractedTitle m ≠ MANUAL_REVIEW_NEEDED_TEXT)
              then List.find (titleMatches (extractedTitle m)) matches else None)
      as [e0|] eqn:Hfind.
    + cbn [fst snd]. split; [by destruct st|].
      intros e [= <-]. exists matches. split; [done|].
      case_bool_decide; [|done].
      apply find_some in Hfind as [Hin _]. by apply list_elem_of_In.
    + destruct matches as [|e1 rest] eqn:Hm; [by split; [destruct st|]|].
      cbn [fst snd]. rewrite <- Hm in *. split.
      * intros k l e Hl He. cbn [sheet cache] in *.
        destruct (decide (companyCacheKeyForSearch m = k)) as [<-|Hne].
        -- rewrite lookup_insert_eq in Hl. injection Hl as <-.
           rewrite sort_perm in He. by eapply Hst.
        -- rewrite lookup_insert_ne in Hl by done. by eapply Hst.
      * intros e He. eexists. split; [by rewrite lookup_insert_eq|].
        rewrite sort_perm.
        destruct (head (JS.sort byRowNumDesc matches)) as [e'|] eqn:Hhead; [|done].
        injection He as <-. by apply sort_head_greatest in Hhead as [He _].
  - destruct (JS.inherited (companyCacheKeyForSearch m)) as [member|].
    + split; [|intros e He; repeat case_match; done].
      repeat case_match; by destruct st.
    + by split; [destruct st|].
Qed.

Lemma assignFirst_elem (n : nat) (upd : Entry → Entry) (l : list Entry) (e' : Entry) :
  e' ∈ assignFirst n upd l → e' ∈ l ∨ ∃ c, c ∈ l ∧ e' = upd c.
Proof.
  induction l as [|c l IH]; cbn [assignFirst]; [by left|].
  case_bool_decide.
  - intros [->|He]%elem_of_cons; [right; exists c; split; [by left|done]|].
    left. by right.
  - intros [->|He]%elem_of_cons; [left; by left|].
    destruct (IH He) as [?|(c' & ? & ->)]; [left; by right|].
    right. exists c'. split; [by right|done].
Qed.

(** When the resolution ends in a TypeError: the company is resolved, the
    cache has no array of its own under the key, and the key is
    [constructor], or it is [__proto__] and the title is resolved. *)
Lemma resolveIdentity_throws (cache : Cache) (m : Message) :
  (resolveIdentity cache m).1 = TypeError ↔
  extractedCompany m ≠ MANUAL_REVIEW_NEEDED_TEXT
  ∧ cache !! JS.toLowerCase (extractedCompany m) = None
  ∧ (JS.toLowerCase (extractedCompany m) = "constructor"
     ∨ (JS.toLowerCase (extractedCompany m) = "__proto__"
        ∧ extractedTitle m ≠ MANUAL_REVIEW_NEEDED_TEXT)).
Proof.
  unfold resolveIdentity, companyCacheKeyForSearch.
  destruct (decide (extractedCompany m ≠ MANUAL_REVIEW_NEEDED_TEXT)) as [Hc|Hc].
  2: { rewrite (bool_decide_eq_false_2 _ Hc). cbn [fst]. split; [done|tauto]. }
  rewrite (bool_decide_eq_true_2 _ Hc). unfold cacheGet.
  set (k := JS.toLowerCase (extractedCompany m)).
  destruct (cache !! k) as [matches|] eqn:Hk.
  - split; [|by intros (_ & ? & _)].
    destruct (if bool_decide (extractedTitle m ≠ MANUAL_REVIEW_NEEDED_TEXT)
              then List.find (titleMatches (extractedTitle m)) matches else None);
      [done|].
    destruct matches as [|e1 rest]; [done|]. cbn [fst].
    by destruct (head _).
  - destruct (JS.inherited k) as [member|] eqn:Hi.
    + apply inherited_lower_case in Hi as [[Hn Hl]|[Hn Hl]]; rewrite Hl; fold k in Hn.
      * rewrite (bool_decide_eq_true_2 (0 < 1)%Z) by lia.
        split; [intros _; by repeat split; try left|].
        intros _. by case_bool_decide.
      * destruct (decide (extractedTitle m ≠ MANUAL_REVIEW_NEEDED_TEXT)) as [Ht|Ht].
        -- rewrite (bool_decide_eq_true_2 _ Ht). cbn [fst].
           split; [intros _; split; [done|]; split; [done|]; by right|done].
        -- rewrite (bool_decide_eq_false_2 _ Ht). cbn [fst]. split; [done|].
           intros (_ & _ & [Hk'|[_ Ht']]); [|done].
           rewrite Hn in Hk'. discriminate Hk'.
    + cbn [fst]. split; [done|].
      intros (_ & _ & [Hk'|[Hk' _]]); rewrite Hk' in Hi; discriminate Hi.
Qed.

(** What one message does to the sheet and to the cache. *)
Lemma processMessage_shape
    (dateParse : string → option Z) (st : State) (m : Message) (now : Z) :
  cacheRowsInRange st →
  cacheRowsInRange (processMessage dateParse st m now)
  ∧ match (resolveIdentity (cache st) m).1 with
    | Existing e =>
        ∃ i row, sheet st !! i = Some row ∧ rowNum e = (i + 2)%nat
          ∧ sheet (processMessage dateParse st m now)
            = <[i := updateRow dateParse row (peakStatus e) m now]> (sheet st)
    | NoMatch =>
        sheet (processMessage dateParse st m now) = (sheet st ++ [newRow m now])%list
    | TypeError =>
        sheet (processMessage dateParse st m now) = sheet st
    end
  ∧ ((resolveIdentity (cache st) m).1 ≠ TypeError →
     ∃ row', row' ∈ sheet (processMessage dateParse st m now)
             ∧ EMAIL_ID row' = messageId m).
Proof.
  intros Hst.
  destruct (resolveIdentity_in_range st m Hst) as [Hrange Hfound].
  unfold processMessage.
  destruct (resolveIdentity (cache st) m) as [[e| |] cache'] eqn:Hres;
    cbn [fst snd] in Hrange, Hfound |- *.
  - destruct (Hfound e eq_refl) as (l & Hl & He).
    pose proof (Hrange _ _ _ Hl He) as Hrow. cbn [sheet cache] in Hrow.
    unfold updateExisting. cbn [sheet cache].
    assert (rowNum e - 2 < length (sheet st))%nat as Hidx by lia.
    destruct (lookup_lt_is_Some_2 _ _ Hidx) as [row Hrowi].
    unfold writeRow, readRow. rewrite (bool_decide_eq_true_2 _ Hidx), Hrowi.
    cbn [default from_option]. unfold id. split; [|split].
    + intros k l' e' Hl' He'. cbn [sheet cache] in *. rewrite length_insert.
      destruct (decide (companyCacheKeyForSearch m = k)) as [<-|Hne].
      * rewrite lookup_alter_eq, Hl in Hl'. cbn in Hl'. injection Hl' as <-.
        apply assignFirst_elem in He' as [He'|(c & Hc & ->)].
        -- by eapply (Hrange _ _ _ Hl).
        -- cbn [rowNum]. by eapply (Hrange _ _ _ Hl).
      * rewrite lookup_alter_ne in Hl' by done. by eapply (Hrange _ _ _ Hl').
    + exists (rowNum e - 2)%nat, row. split; [done|]. split; [lia|done].
    + intros _. eexists.
      split; [eapply list_elem_of_lookup_2; by apply list_lookup_insert_eq|].
      done.
  - unfold appendNew. cbn [sheet cache]. split; [|split].
    + intros k l' e' Hl' He'. cbn [sheet cache] in *. rewrite length_app. cbn [length].
      destruct (pushThrows (companyCacheKeyForSearch m) cache').
      { pose proof (Hrange _ _ _ Hl' He'). cbn [sheet] in *. lia. }
      unfold pushEntry in Hl'.
      destruct (decide (companyCacheKeyForSearch m = k)) as [<-|Hne].
      * rewrite lookup_insert_eq in Hl'. injection Hl' as <-.
        apply elem_of_app in He' as [He'|He'].
        -- destruct (cache' !! companyCacheKeyForSearch m) as [l0|] eqn:Hl0;
             cbn in He'; [|by apply elem_of_nil in He'].
           pose proof (Hrange _ _ _ Hl0 He'). cbn [sheet] in *. lia.
        -- apply list_elem_of_singleton in He' as ->. cbn [rowNum].
           rewrite length_app. cbn [length]. lia.
      * rewrite lookup_insert_ne in Hl' by done.
        pose proof (Hrange _ _ _ Hl' He'). cbn [sheet] in *. lia.
    + done.
    + intros _. exists (newRow m now). split; [apply elem_of_app; right; by left|done].
  - cbn [sheet cache]. split; [done|]. split; [done|]. by intros H.
Qed.

(** X1.  One message changes the sheet in one of three ways, according to
    how its identity resolution ends.  With an existing entry it rewrites
    the row of that entry in place; with no match it appends one row; with
    a TypeError it writes nothing.  In the first two cases the row written
    carries the id of the message; no row is removed and no other row is
    touched.  The TypeError arises exactly when the company is resolved, the
    cache has no array of its own under the lower-cased company, and that
    key is [constructor], or it is [__proto__] and the title is resolved.
    The cache keeps pointing at rows of the sheet. *)
Theorem processMessage_one_row
    (dateParse : string → option Z) (st : State) (m : Message) (now : Z) :
  cacheRowsInRange st →
  cacheRowsInRange (processMessage dateParse st m now)
  ∧ match (resolveIdentity (cache st) m).1 with
    | Existing e =>
        ∃ i row, sheet st !! i = Some row ∧ rowNum e = (i + 2)%nat
          ∧ sheet (processMessage dateParse st m now)
            = <[i := updateRow dateParse row (peakStatus e) m now]> (sheet st)
    | NoMatch =>
        sheet (processMessage dateParse st m now) = (sheet st ++ [newRow m now])%list
    | TypeError =>
        sheet (processMessage dateParse st m now) = sheet st
    end
  ∧ ((resolveIdentity (cache st) m).1 ≠ TypeError →
     ∃ row', row' ∈ sheet (processMessage dateParse st m now)
             ∧ EMAIL_ID row' = messageId m)
  ∧ ((resolveIdentity (cache st) m).1 = TypeError ↔
     extractedCompany m ≠ MANUAL_REVIEW_NEEDED_TEXT
     ∧ cache st !! JS.toLowerCase (extractedCompany m) = None
     ∧ (JS.toLowerCase (extractedCompany m) = "constructor"
        ∨ (JS.toLowerCase (extractedCompany m) = "__proto__"
           ∧ extractedTitle m ≠ MANUAL_REVIEW_NEEDED_TEXT))).
Proof.
  intros Hst.
  destruct (processMessage_shape dateParse st m now Hst) as (H1 & H2 & H3).
  split; [done|]. split; [done|]. split; [done|]. apply resolveIdentity_throws.
Qed.

Lemma processMessage_length
    (dateParse : string → option Z) (st : State) (m : Message) (now : Z) :
  cacheRowsInRange st →
  (length (sheet st) ≤ length (sheet (processMessage dateParse st m now))
   ≤ length (sheet st) + 1)%nat.
Proof.
  intros Hst.
  destruct (processMessage_shape dateParse st m now Hst) as (_ & Hsheet & _).
  destruct ((resolveIdentity (cache st) m).1) as [e| |].
  - destruct Hsheet as (i & row & _ & _ & ->). rewrite length_insert. lia.
  - rewrite Hsheet, length_app. cbn. lia.
  - rewrite Hsheet. lia.
Qed.

Lemma messageLoop_bounds
    (dateParse : string → option Z) (scriptStart : Z) (timeAtCheck timeAtWrite : nat → Z)
    (msgs : list Message) (st : State) (idx : nat) :
  cacheRowsInRange st →
  cacheRowsInRange (messageLoop dateParse scriptStart timeAtCheck timeAtWrite st idx msgs)
  ∧ (length (sheet st)
     ≤ length (sheet (messageLoop dateParse scriptStart timeAtCheck timeAtWrite st idx msgs))
     ≤ length (sheet st) + (MAX_MESSAGES_TO_PROCESS_THIS_RUN - idx))%nat.
Proof.
  revert st idx. induction msgs as [|m msgs IH]; intros st idx Hst; cbn [messageLoop].
  - split; [done|lia].
  - case_bool_decide as Hmax; cbn [orb]; [split; [done|lia]|].
    case_bool_decide as Htime; [split; [done|lia]|].
    destruct (processMessage_shape dateParse st m (timeAtWrite idx) Hst)
      as (Hst' & _ & _).
    pose proof (processMessage_length dateParse st m (timeAtWrite idx) Hst) as Hone.
    destruct (IH _ (S idx) Hst') as [Hinv Hlen].
    split; [done|].
    unfold MAX_MESSAGES_TO_PROCESS_THIS_RUN in *. lia.
Qed.

(** X2.  A run never removes a row from the sheet and adds at most twenty
    rows, the budget MAX_MESSAGES_TO_PROCESS_THIS_RUN, whatever the number
    of threads and messages under the To Process label. *)
Theorem run_adds_at_most_twenty_rows
    (dateParse : string → option Z) (scriptStart : Z) (timeAtCheck timeAtWrite : nat → Z)
    (sheet : list Row) (threads : list Thread) :
  (length sheet
   ≤ length (MJM_processJobApplicationEmails dateParse scriptStart timeAtCheck timeAtWrite
               sheet threads)
   ≤ length sheet + 20)%nat.
Proof.
  unfold MJM_processJobApplicationEmails.
  destruct (messageLoop_bounds dateParse scriptStart timeAtCheck timeAtWrite
              (newMessagesList (preloadCache sheet) threads)
              {| Tracker.sheet := sheet; cache := preloadCache sheet |} 0
              (preload_in_range sheet)) as [_ Hlen].
  cbn [Tracker.sheet] in Hlen. unfold MAX_MESSAGES_TO_PROCESS_THIS_RUN in Hlen. lia.
Qed.

Lemma mergeField_key (stored extracted : string) :
  extracted ≠ MANUAL_REVIEW_NEEDED_TEXT →
  JS.toLowerCase (JS.trim (mergeField stored extracted))
  = JS.toLowerCase (JS.trim extracted).
Proof.
  intros He. unfold mergeField. rewrite (bool_decide_eq_true_2 _ He). cbn [andb].
  destruct (bool_decide (stored = MANUAL_REVIEW_NEEDED_TEXT)); cbn [orb]; [done|].
  case_bool_decide as Hl; [done|].
  by rewrite <- !trim_toLowerCase, Hl.
Qed.

(** A company whose trimmed, lower-cased name is no inherited member has a
    lower-cased name that is none either. *)
Lemma inherited_untrimmed (c : string) :
  JS.inherited (JS.toLowerCase (JS.trim c)) = None →
  JS.inherited (JS.toLowerCase c) = None.
Proof.
  intros Ht. destruct (JS.inherited (JS.toLowerCase c)) as [member|] eqn:Hi; [|done].
  rewrite <- trim_toLowerCase in Ht.
  apply inherited_lower_case in Hi as [[Hn _]|[Hn _]]; rewrite Hn in Ht;
    by vm_compute in Ht.
Qed.

(** The row that a message leaves in the sheet, and the companies of the
    rows after it. *)
Lemma processMessage_written_row
    (dateParse : string → option Z) (st : State) (m : Message) (now : Z) :
  cacheRowsInRange st →
  extractedCompany m ≠ MANUAL_REVIEW_NEEDED_TEXT →
  JS.inherited (JS.toLowerCase (JS.trim (extractedCompany m))) = None →
  (∃ row', row' ∈ sheet (processMessage dateParse st m now)
           ∧ EMAIL_ID row' = messageId m
           ∧ JS.toLowerCase (JS.trim (COMPANY row'))
             = JS.toLowerCase (JS.trim (extractedCompany m)))
  ∧ ∀ r, r ∈ sheet (processMessage dateParse st m now) →
      r ∈ sheet st
      ∨ JS.toLowerCase (JS.trim (COMPANY r))
        = JS.toLowerCase (JS.trim (extractedCompany m)).
Proof.
  intros Hst Hc Hk.
  destruct (processMessage_shape dateParse st m now Hst) as (_ & Hsheet & _).
  assert ((resolveIdentity (cache st) m).1 ≠ TypeError) as Hno.
  { intros (_ & _ & Hname)%resolveIdentity_throws.
    apply inherited_untrimmed in Hk.
    destruct Hname as [Hn|[Hn _]]; rewrite Hn in Hk; discriminate Hk. }
  destruct ((resolveIdentity (cache st) m).1) as [e| |]; [| |done].
  - destruct Hsheet as (i & row & Hi & _ & ->). split.
    + eexists. split; [eapply list_elem_of_lookup_2, list_lookup_insert_eq;
                       by eapply lookup_lt_Some|].
      split; [done|]. cbn [updateRow COMPANY]. by apply mergeField_key.
    + intros r [j Hj]%list_elem_of_lookup.
      destruct (decide (i = j)) as [<-|Hne].
      * rewrite list_lookup_insert_eq in Hj by by eapply lookup_lt_Some.
        injection Hj as <-. right. cbn [updateRow COMPANY]. by apply mergeField_key.
      * rewrite list_lookup_insert_ne in Hj by done.
        left. by eapply list_elem_of_lookup_2.
  - rewrite Hsheet. split.
    + exists (newRow m now). split; [apply elem_of_app; right; by left|done].
    + intros r [Hr|Hr]%elem_of_app; [by left|].
      apply list_elem_of_singleton in Hr as ->. by right.
Qed.

(** X3.  Take a sheet in which no company is, trimmed and lower-cased, the
    name of an inherited member ([constructor], [__proto__]), and a message
    whose company the preload accepts (not blank, not the sentinel, not
    n/a, no such name).  Right after the message has been merged or
    appended, its id is in the Email ID cell of the row just written, and
    a run that starts from that sheet puts the id in the set that line 599
    consults and skips the message.  (A later message of the same run that
    is merged into the same row replaces the id, line 690; the statement is
    about the sheet as this message leaves it.) *)
Theorem processed_message_skipped_by_next_run
    (dateParse : string → option Z) (st : State) (m : Message) (now : Z)
    (threads : list Thread) (m' : Message) :
  cacheRowsInRange st →
  (∀ r, r ∈ sheet st → JS.inherited (JS.toLowerCase (JS.trim (COMPANY r))) = None) →
  cacheable (JS.toLowerCase (JS.trim (extractedCompany m))) = true →
  JS.inherited (JS.toLowerCase (JS.trim (extractedCompany m))) = None →
  messageId m ≠ "" → JS.trim (messageId m) = messageId m →
  m' ∈ newMessagesList (preloadCache (sheet (processMessage dateParse st m now))) threads →
  messageId m' ≠ messageId m.
Proof.
  intros Hst Hrows Hkey Hinh Hne Htrim Hnew Heq.
  assert (extractedCompany m ≠ MANUAL_REVIEW_NEEDED_TEXT) as Hc.
  { intros Hc. rewrite Hc in Hkey. by vm_compute in Hkey. }
  destruct (processMessage_written_row dateParse st m now Hst Hc Hinh)
    as ((row' & Hin & Hid & Hcomp) & Hall).
  apply (proj1 (newMessages_unseen _ _)) in Hnew. apply Hnew.
  rewrite Heq. apply emailIds_preload. split; [done|].
  rewrite preloadedRows_all.
  - apply list_elem_of_lookup in Hin as [j Hj]. exists j, row'.
    split; [done|]. rewrite Hcomp, Hid. by split.
  - intros r [Hr|Hr]%Hall; [by apply Hrows|by rewrite Hr].
Qed.

End RunExtra.

(** ** The messages a run takes up: order and completeness *)

Module CollectExtra.
Import Config Tracker ResolveFacts CollectFacts.

Lemma insertBy_date_sorted (x : Message) (l : list Message) :
  StronglySorted (λ a b, emailDate a ≤ emailDate b)%Z l →
  StronglySorted (λ a b, emailDate a ≤ emailDate b)%Z (JS.insertBy byEmailDate x l).
Proof.
  induction 1 as [|y l Hl IH Hy]; cbn [JS.insertBy]; [by repeat constructor|].
  unfold byEmailDate at 1. case_bool_decide as Hxy.
  - constructor; [done|]. rewrite insertBy_perm. constructor; [lia|done].
  - constructor; [by constructor|].
    constructor; [lia|]. eapply Forall_impl; [done|]. cbn. intros; lia.
Qed.

Lemma sort_date_sorted (l : list Message) :
  StronglySorted (λ a b, emailDate a ≤ emailDate b)%Z (JS.sort byEmailDate l).
Proof.
  induction l as [|x l IH]; [constructor|].
  unfold JS.sort in *. cbn [foldr]. by apply insertBy_date_sorted.
Qed.

Lemma scanMessage_ids (inSheet : gset string)
    (acc : list Message * gset string) (msg : Message) (id : string) :
  scanInvariant inSheet acc →
  id ∈ messageId <$> (scanMessage inSheet acc msg).1 ↔
  id ∈ messageId <$> acc.1 ∨ ((id ∉ inSheet) ∧ messageId msg = id).
Proof.
  intros (_ & _ & Hids). unfold scanMessage.
  destruct (decide (messageId msg ∈ inSheet)) as [Hin|Hin].
  - rewrite (bool_decide_eq_false_2 (messageId msg ∉ inSheet)) by (by intros H).
    cbn [andb]. split; [by left|]. intros [?|[Hn <-]]; done.
  - rewrite (bool_decide_eq_true_2 (messageId msg ∉ inSheet)) by done. cbn [andb].
    case_bool_decide as Hseen; cbn [fst].
    + rewrite fmap_app, elem_of_app. cbn. rewrite list_elem_of_singleton.
      split; [intros [?| ->]; [by left|by right]|]. intros [?|[_ <-]]; [by left|by right].
    + apply Hids in Hseen.
      split; [by left|]. intros [?|[_ <-]]; done.
Qed.

Lemma scanMessages_ids (inSheet : gset string) (msgs : list Message)
    (acc : list Message * gset string) (id : string) :
  scanInvariant inSheet acc →
  id ∈ messageId <$> (fold_left (scanMessage inSheet) msgs acc).1 ↔
  id ∈ messageId <$> acc.1 ∨ ((id ∉ inSheet) ∧ ∃ m, m ∈ msgs ∧ messageId m = id).
Proof.
  revert acc. induction msgs as [|msg msgs IH]; intros acc Hacc; cbn [fold_left].
  - split; [by left|]. intros [?|(_ & m & []%elem_of_nil & _)]. done.
  - rewrite IH by by apply scanMessage_invariant.
    rewrite scanMessage_ids by done. split.
    + intros [[?|[? ?]]|(? & m & ? & ?)]; [by left| |].
      * right. split; [done|]. exists msg. split; [by left|done].
      * right. split; [done|]. exists m. split; [by right|done].
    + intros [?|(? & m & [-> |?]%elem_of_cons & ?)]; [by left; left| |].
      * left. by right.
      * right. split; [done|]. by exists m.
Qed.

Lemma scanMessages_invariant (inSheet : gset string) (msgs : list Message)
    (acc : list Message * gset string) :
  scanInvariant inSheet acc →
  scanInvariant inSheet (fold_left (scanMessage inSheet) msgs acc).
Proof.
  revert acc. induction msgs as [|msg msgs IH]; intros acc Hacc; [done|].
  cbn [fold_left]. by apply IH, scanMessage_invariant.
Qed.

Lemma scanThreads_ids (inSheet : gset string) (threads : list Thread) (id : string) :
  id ∈ messageId <$> (scanThreads inSheet threads).1 ↔
  (id ∉ inSheet) ∧ ∃ th m, th ∈ threads ∧ m ∈ messages th ∧ messageId m = id.
Proof.
  unfold scanThreads.
  assert (scanInvariant inSheet ([], ∅)) as Hinit.
  { split; [by intros m ?%elem_of_nil|]. split; [constructor|].
    intros i. cbn. rewrite elem_of_nil. set_solver. }
  assert (∀ acc, scanInvariant inSheet acc →
            id ∈ messageId <$>
              (fold_left (λ acc th, fold_left (scanMessage inSheet) (messages th) acc)
                 threads acc).1 ↔
            id ∈ messageId <$> acc.1
            ∨ ((id ∉ inSheet) ∧ ∃ th m, th ∈ threads ∧ m ∈ messages th ∧ messageId m = id))
    as Hgen.
  { induction threads as [|th threads IH]; intros acc Hacc; cbn [fold_left].
    - split; [by left|]. intros [?|(_ & th & m & []%elem_of_nil & _)]. done.
    - rewrite IH by by apply scanMessages_invariant.
      rewrite scanMessages_ids by done. split.
      + intros [[?|(? & m & ? & ?)]|(? & th' & m & ? & ? & ?)]; [by left| |].
        * right. split; [done|]. exists th, m. split; [by left|done].
        * right. split; [done|]. exists th', m. split; [by right|done].
      + intros [?|(? & th' & m & [-> |?]%elem_of_cons & ? & ?)]; [by left; left| |].
        * left. right. split; [done|]. by exists m.
        * right. split; [done|]. by exists th', m. }
  rewrite (Hgen _ Hinit). cbn. rewrite elem_of_nil. tauto.
Qed.

(** X4.  The list of messages that a run works through is in
    chronological order (oldest first), holds no message id twice, and
    holds exactly the ids of the messages of the first fifteen threads
    that are not in the set of ids built from the cache. *)
Theorem newMessages_chronological_and_complete (cache : Cache) (threads : list Thread) :
  StronglySorted (λ a b, emailDate a ≤ emailDate b)%Z (newMessagesList cache threads)
  ∧ NoDup (messageId <$> newMessagesList cache threads)
  ∧ ∀ id, id ∈ messageId <$> newMessagesList cache threads ↔
      (id ∉ emailIdsAlreadyInSheet cache)
      ∧ ∃ th m, th ∈ take MAX_THREADS_TO_SCAN threads ∧ m ∈ messages th
                ∧ messageId m = id.
Proof.
  split; [apply sort_date_sorted|]. split; [apply newMessages_unseen|].
  intros id. unfold newMessagesList. rewrite sort_perm. apply scanThreads_ids.
Qed.

End CollectExtra.

(** ** Dates of a record, and the sweep after and before a message *)

Module SweepExtra.
Import Config Tracker Sweep RunModel StatusFacts PeakFacts SweepFacts.

Lemma mergeDate_date (dateParse : string → option Z) (t d : Z) :
  mergeDate dateParse (CDate t) d = CDate (Z.max t d).
Proof.
  unfold mergeDate. cbn [cellTime]. case_bool_decide; f_equal; lia.
Qed.

(** X5.  Through any sequence of messages merged into a record since its
    creation, no sweep marking the record in between, its Last Update Date
    and its Email Date hold the latest of the dates of those messages, in
    whatever order they came: an older message never moves them back.  A
    sweep that then marks the record stamps the Last Update Date with the
    sweep time (line 835) and leaves the Email Date. *)
Theorem last_update_is_latest_message_date
    (dateParse : string → option Z) (m0 : Message) (now0 : Z) (evs : list (Message * Z))
    (currentDate : Z) :
  let row := (reconcileAll dateParse (createRecord m0 now0) evs).1 in
  LAST_UPDATE_DATE row = CDate (latestEmailDate m0 evs)
  ∧ EMAIL_DATE row = CDate (latestEmailDate m0 evs)
  ∧ LAST_UPDATE_DATE (markStale currentDate row) = CDate currentDate
  ∧ EMAIL_DATE (markStale currentDate row) = CDate (latestEmailDate m0 evs).
Proof.
  unfold latestEmailDate.
  assert (∀ rs t, LAST_UPDATE_DATE rs.1 = CDate t → EMAIL_DATE rs.1 = CDate t →
            LAST_UPDATE_DATE (reconcileAll dateParse rs evs).1
              = CDate (fold_left (λ t ev, Z.max t (emailDate ev.1)) evs t)
            ∧ EMAIL_DATE (reconcileAll dateParse rs evs).1
              = CDate (fold_left (λ t ev, Z.max t (emailDate ev.1)) evs t)) as Hgen.
  { induction evs as [|ev evs IH]; intros rs t Hl He; [done|].
    unfold reconcileAll. cbn [fold_left].
    apply IH; cbn [reconcile fst updateRow LAST_UPDATE_DATE EMAIL_DATE].
    - by rewrite Hl, mergeDate_date.
    - by rewrite He, mergeDate_date. }
  destruct (Hgen (createRecord m0 now0) (emailDate m0) eq_refl eq_refl) as [Hl He].
  cbn zeta. by rewrite Hl, He.
Qed.

(** X6.  A record that has just received a message dated at or after the
    threshold of a sweep is not stale for that sweep, whatever it held
    before; the same holds for a record just created from such a message. *)
Theorem recent_message_keeps_record_open
    (dateParse : string → option Z) (LocalTZA : Z → bool → Z)
    (row : Row) (cachedPeak : string) (m : Message) (t currentDate : Z) :
  (staleDateThreshold LocalTZA currentDate ≤ emailDate m)%Z →
  isStale dateParse LocalTZA currentDate (updateRow dateParse row cachedPeak m t) = false
  ∧ isStale dateParse LocalTZA currentDate (newRow m t) = false.
Proof.
  intros Hrecent.
  assert (∀ r d, LAST_UPDATE_DATE r = CDate d →
            (staleDateThreshold LocalTZA currentDate ≤ d)%Z →
            isStale dateParse LocalTZA currentDate r = false) as Hdate.
  { intros r d Hr Hd. unfold isStale. rewrite Hr. cbn [lastUpdateDateObject].
    destruct (exemptStatus (currentAppStatus r)); [done|].
    by rewrite (bool_decide_eq_true_2 _ Hd). }
  split; [|by eapply Hdate].
  destruct (LAST_UPDATE_DATE row) as [t0|s] eqn:Hold.
  - eapply (Hdate _ (Z.max t0 (emailDate m))); [|lia].
    cbn [updateRow LAST_UPDATE_DATE]. by rewrite Hold, mergeDate_date.
  - unfold isStale. cbn [updateRow LAST_UPDATE_DATE]. rewrite Hold.
    unfold mergeDate. cbn [cellTime].
    case_bool_decide as Hs.
    { cbn [lastUpdateDateObject].
      destruct (exemptStatus _); [done|]. by rewrite (bool_decide_eq_true_2 _ Hrecent). }
    destruct (dateParse s) as [t0|] eqn:Hp.
    + case_bool_decide as Hlt.
      * cbn [lastUpdateDateObject].
        destruct (exemptStatus _); [done|]. by rewrite (bool_decide_eq_true_2 _ Hrecent).
      * cbn [lastUpdateDateObject]. case_bool_decide; [done|]. rewrite Hp.
        destruct (exemptStatus _); [done|]. rewrite bool_decide_eq_true_2; [done|lia].
    + cbn [lastUpdateDateObject].
      destruct (exemptStatus _); [done|]. by rewrite (bool_decide_eq_true_2 _ Hrecent).
Qed.

Lemma markStale_never_stale
    (dateParse : string → option Z) (LocalTZA : Z → bool → Z) (now later : Z) (r : Row) :
  isStale dateParse LocalTZA later (markStale now r) = false.
Proof. unfold isStale. cbn [markStale LAST_UPDATE_DATE lastUpdateDateObject]. done. Qed.

Lemma sweepRows_fst
    (dateParse : string → option Z) (LocalTZA : Z → bool → Z) (now : Z) (rows : list Row) :
  (sweepRows dateParse LocalTZA now rows).1
  = (λ r, if isStale dateParse LocalTZA now r then markStale now r else r) <$> rows.
Proof.
  induction rows as [|r rows IH]; [done|].
  cbn [sweepRows fmap list_fmap]. rewrite <- IH.
  by destruct (isStale dateParse LocalTZA now r).
Qed.

(** X7.  The sweep is idempotent: run again at the same time on the sheet
    it has left, it writes nothing.  And a row it has marked is never
    marked again by any later sweep. *)
Theorem sweep_idempotent
    (dateParse : string → option Z) (LocalTZA : Z → bool → Z)
    (currentDate : Z) (allSheetValues : list Row) :
  MJM_markStaleApplicationsAsRejected dateParse LocalTZA currentDate
    (sheetAfterSweep dateParse LocalTZA currentDate allSheetValues) = None
  ∧ ∀ r later, isStale dateParse LocalTZA later (markStale currentDate r) = false.
Proof.
  split; [|intros; apply markStale_never_stale].
  destruct allSheetValues as [|header [|r0 rows]]; [done|done|].
  set (rs := r0 :: rows).
  assert (sheetAfterSweep dateParse LocalTZA currentDate (header :: rs)
          = header :: ((λ r, if isStale dateParse LocalTZA currentDate r
                              then markStale currentDate r else r) <$> rs)) as ->.
  { unfold sheetAfterSweep, MJM_markStaleApplicationsAsRejected. subst rs.
    fold (sweepRows dateParse LocalTZA currentDate (r0 :: rows)).
    case_bool_decide as Hn; cbn [default from_option]; unfold id.
    - by rewrite sweepRows_fst.
    - rewrite <- sweepRows_fst.
      rewrite (sweepRows_none dateParse LocalTZA currentDate (r0 :: rows)); [done|].
      apply sweepRows_some. lia. }
  assert (∀ r, r ∈ (λ r, if isStale dateParse LocalTZA currentDate r
                          then markStale currentDate r else r) <$> rs →
               isStale dateParse LocalTZA currentDate r = false) as Hall.
  { intros r (r1 & -> & _)%list_elem_of_fmap.
    destruct (isStale dateParse LocalTZA currentDate r1) eqn:H1; [|done].
    apply markStale_never_stale. }
  unfold MJM_markStaleApplicationsAsRejected.
  destruct ((λ r, if isStale dateParse LocalTZA currentDate r
                  then markStale currentDate r else r) <$> rs) as [|r1 rest] eqn:Hmap;
    [done|].
  by rewrite (sweepRows_none _ _ _ _ Hall).
Qed.


End SweepExtra.

(** ** Column letters *)

Module ColumnFacts.
Import SheetUtils.

Lemma append_cons (a : ascii) (x y : string) : String a x ++ y = String a (x ++ y).
Proof. reflexivity. Qed.

Lemma append_String_end (x : string) (c : ascii) (s : string) :
  (x ++ String c EmptyString) ++ s = x ++ String c s.
Proof. induction x as [|a x IH]; [done|]. by rewrite !append_cons, IH. Qed.

Lemma columnLetters_app (fuel : nat) (column : Z) (letter : string) :
  columnLetters fuel column letter = columnLetters fuel column "" ++ letter.
Proof.
  revert column letter. induction fuel as [|fuel IH]; intros column letter; [done|].
  cbn [columnLetters]. case_bool_decide; [|done].
  rewrite (IH _ (String _ letter)), (IH _ (String _ "")).
  by rewrite append_String_end.
Qed.

Lemma lettersToColumnFrom_app (acc : Z) (x y : string) :
  lettersToColumnFrom acc (x ++ y) = lettersToColumnFrom (lettersToColumnFrom acc x) y.
Proof.
  revert acc. induction x as [|c x IH]; intros acc; [done|].
  rewrite append_cons. cbn [lettersToColumnFrom]. apply IH.
Qed.

Lemma step_down (column : Z) :
  (0 < column)%Z →
  (0 ≤ (column - (column - 1) mod 26 - 1) / 26 < column)%Z
  ∧ ((column - (column - 1) mod 26 - 1) / 26 * 26 + ((column - 1) mod 26 + 1) = column)%Z
  ∧ (0 ≤ (column - 1) mod 26 < 26)%Z.
Proof.
  intros Hc.
  pose proof (Z.mod_pos_bound (column - 1) 26 ltac:(lia)) as Hm.
  pose proof (Z.div_mod (column - 1) 26 ltac:(lia)) as Hd.
  replace (column - (column - 1) mod 26 - 1)%Z with ((column - 1) / 26 * 26)%Z by lia.
  rewrite Z.div_mul by lia.
  assert (0 ≤ (column - 1) / 26)%Z by (apply Z.div_pos; lia).
  lia.
Qed.

Lemma letter_code (temp : Z) :
  (0 ≤ temp < 26)%Z →
  nat_of_ascii (ascii_of_nat (Z.to_nat (temp + 65))) = Z.to_nat (temp + 65).
Proof. intros Ht. apply nat_ascii_embedding. lia. Qed.

Lemma columnLetters_read_back (fuel : nat) (column : Z) :
  (0 ≤ column ≤ Z.of_nat fuel)%Z →
  lettersToColumnFrom 0 (columnLetters fuel column "") = column.
Proof.
  revert column. induction fuel as [|fuel IH]; intros column Hc; cbn [columnLetters].
  - cbn. lia.
  - case_bool_decide as Hpos; [|cbn; lia].
    destruct (step_down column Hpos) as (Hlt & Heq & Hm).
    rewrite columnLetters_app, lettersToColumnFrom_app, IH by lia.
    cbn [lettersToColumnFrom]. rewrite letter_code by done. lia.
Qed.

(** X9.  The letters of a column read back as that column: for every
    integer column from 1 to 2^53, the range on which the arithmetic of
    the code is exact, reading the result of [MJM_columnToLetter] as a
    number in the letters A to Z (A counting 1) gives the column again.  So
    two different columns of that range never get the same letters. *)
Theorem columnToLetter_round_trip (column : Z) :
  (1 ≤ column ≤ 2 ^ 53)%Z →
  spec_lettersToColumn (MJM_columnToLetter column) = column
  ∧ ∀ other, (1 ≤ other ≤ 2 ^ 53)%Z →
      MJM_columnToLetter other = MJM_columnToLetter column → other = column.
Proof.
  assert (∀ c, (1 ≤ c)%Z → spec_lettersToColumn (MJM_columnToLetter c) = c) as Hback.
  { intros c Hc. unfold spec_lettersToColumn, MJM_columnToLetter.
    rewrite bool_decide_eq_false_2 by lia.
    apply columnLetters_read_back. lia. }
  intros [Hc _]. split; [by apply Hback|].
  intros other [Ho _] Heq. rewrite <- (Hback other Ho), Heq. by apply Hback.
Qed.

Lemma columnLetters_upper (fuel : nat) (column : Z) (letter : string) :
  Forall (λ ch, 65 ≤ nat_of_ascii ch ≤ 90)%nat (list_ascii_of_string letter) →
  Forall (λ ch, 65 ≤ nat_of_ascii ch ≤ 90)%nat
    (list_ascii_of_string (columnLetters fuel column letter)).
Proof.
  revert column letter. induction fuel as [|fuel IH]; intros column letter Hl; [done|].
  cbn [columnLetters]. case_bool_decide as Hpos; [|done].
  destruct (step_down column Hpos) as (_ & _ & Hm).
  apply IH. cbn [list_ascii_of_string]. constructor; [|done].
  rewrite letter_code by done. lia.
Qed.

(** X10.  [MJM_columnToLetter] gives the empty string for a column below
    1, and for every column from 1 on a non-empty word made of the capital
    letters A to Z only. *)
Theorem columnToLetter_letters (column : Z) :
  ((column < 1)%Z → MJM_columnToLetter column = "")
  ∧ ((1 ≤ column)%Z →
     MJM_columnToLetter column ≠ ""
     ∧ Forall (λ ch, 65 ≤ nat_of_ascii ch ≤ 90)%nat
         (list_ascii_of_string (MJM_columnToLetter column))).
Proof.
  unfold MJM_columnToLetter. split; intros Hc.
  - by rewrite bool_decide_eq_true_2.
  - rewrite bool_decide_eq_false_2 by lia. split.
    + intros Hempty.
      pose proof (columnLetters_read_back (Z.to_nat column) column ltac:(lia)) as Hb.
      rewrite Hempty in Hb. cbn in Hb. lia.
    + apply columnLetters_upper. constructor.
Qed.

Example columnToLetter_examples :
  MJM_columnToLetter 1 = "A" ∧ MJM_columnToLetter 26 = "Z"
  ∧ MJM_columnToLetter 27 = "AA" ∧ MJM_columnToLetter 703 = "AAA"
  ∧ MJM_columnToLetter 0 = "".
Proof. by vm_compute. Qed.

End ColumnFacts.

(** ** The Gemini call *)

Module GeminiFacts.
Import Config SheetUtils.

Lemma orElse_sentinel_nonempty (x : string) :
  JS.orElse x MANUAL_REVIEW_NEEDED_TEXT ≠ "".
Proof. unfold JS.orElse. destruct (String.eqb_spec x ""); done. Qed.

Lemma resultOfBody_nonempty (body : ResponseBody) :
  company (resultOfBody body) ≠ "" ∧ title (resultOfBody body) ≠ ""
  ∧ status (resultOfBody body) ≠ "".
Proof.
  destruct body as [[|[c|] [t|] [s|]]|reason|]; cbn [resultOfBody]; try done.
  - repeat split; apply orElse_sentinel_nonempty.
  - by case_bool_decide.
Qed.

Lemma resultOfBody_shape (o : FetchOutcome) (body : ResponseBody) :
  o = Responds 200 body →
  (company (resultOfBody body) = MANUAL_REVIEW_NEEDED_TEXT
   ∧ title (resultOfBody body) = MANUAL_REVIEW_NEEDED_TEXT)
  ∨ completeAnswer o (resultOfBody body).
Proof.
  intros ->. destruct body as [[|[c|] [t|] [s|]]|reason|]; cbn [resultOfBody];
    try (by left).
  - right. by exists c, t, s.
  - left. by case_bool_decide.
Qed.

(** The last fetch the loop may make. *)
Lemma callLoop_last (fetch : nat → FetchOutcome) :
  (callLoop 1 1 fetch).2 = 2%nat
  ∧ (company (callLoop 1 1 fetch).1 ≠ "" ∧ title (callLoop 1 1 fetch).1 ≠ ""
     ∧ status (callLoop 1 1 fetch).1 ≠ "")
  ∧ ((company (callLoop 1 1 fetch).1 = MANUAL_REVIEW_NEEDED_TEXT
      ∧ title (callLoop 1 1 fetch).1 = MANUAL_REVIEW_NEEDED_TEXT)
     ∨ completeAnswer (fetch 2%nat) (callLoop 1 1 fetch).1).
Proof.
  cbn [callLoop]. destruct (fetch 2%nat) as [|code body] eqn:H2.
  - case_bool_decide; cbn; repeat split; try done; by left.
  - case_bool_decide as H200.
    + subst code. cbn [fst snd]. split; [done|]. split; [apply resultOfBody_nonempty|].
      by apply resultOfBody_shape.
    + destruct (bool_decide (code = 429%Z) && bool_decide (2 < maxAttempts)%nat);
        cbn; repeat split; try done; by left.
Qed.

Lemma callLoop_facts (fetch : nat → FetchOutcome) :
  let res := callLoop maxAttempts 0 fetch in
  (1 ≤ res.2 ≤ 2)%nat
  ∧ (res.2 = 2%nat ↔ fetch 1%nat = FetchThrows ∨ ∃ body, fetch 1%nat = Responds 429 body)
  ∧ (company res.1 ≠ "" ∧ title res.1 ≠ "" ∧ status res.1 ≠ "")
  ∧ ((company res.1 = MANUAL_REVIEW_NEEDED_TEXT ∧ title res.1 = MANUAL_REVIEW_NEEDED_TEXT)
     ∨ ∃ n, (1 ≤ n ≤ 2)%nat ∧ completeAnswer (fetch n) res.1).
Proof.
  destruct (callLoop_last fetch) as (Hn & Hne & Hshape).
  assert ((company (callLoop 1 1 fetch).1 = MANUAL_REVIEW_NEEDED_TEXT
           ∧ title (callLoop 1 1 fetch).1 = MANUAL_REVIEW_NEEDED_TEXT)
          ∨ ∃ n, (1 ≤ n ≤ 2)%nat ∧ completeAnswer (fetch n) (callLoop 1 1 fetch).1)
    as Hshape'.
  { destruct Hshape as [?|?]; [by left|right]. exists 2%nat. split; [lia|done]. }
  unfold maxAttempts. change (callLoop 2 0 fetch) with
    (match fetch 1%nat with
     | FetchThrows =>
         if bool_decide (1 < maxAttempts)%nat then callLoop 1 1 fetch
         else (defaultResult, 1%nat)
     | Responds responseCode body =>
         if bool_decide (responseCode = 200)%Z then (resultOfBody body, 1%nat)
         else if bool_decide (responseCode = 429)%Z && bool_decide (1 < maxAttempts)%nat
         then callLoop 1 1 fetch
         else (defaultResult, 1%nat)
     end).
  assert (bool_decide (1 < maxAttempts)%nat = true) as ->
    by (apply bool_decide_eq_true_2; unfold maxAttempts; lia).
  destruct (fetch 1%nat) as [|code body] eqn:H1.
  - cbv zeta. rewrite Hn. split; [lia|]. split; [|done]. split; [by left|done].
  - cbv zeta. case_bool_decide as H200; [|case_bool_decide as H429]; cbn [andb fst snd].
    + subst code. split; [lia|]. split.
      { split; [lia|]. intros [?|(b & ?)]; simplify_eq. }
      split; [apply resultOfBody_nonempty|].
      destruct (resultOfBody_shape (fetch 1%nat) body H1) as [?|Hc]; [by left|right].
      exists 1%nat. split; [lia|]. exact Hc.
    + subst code. rewrite Hn. split; [lia|]. split; [|done].
      split; [|done]. right. by exists body.
    + split; [lia|]. split.
      { split; [lia|]. intros [?|(b & ?)]; simplify_eq. }
      split; [done|]. by left.
Qed.

(** X11.  The call fetches at most twice.  It makes no fetch exactly when
    subject and body are both blank, and a second fetch exactly when the
    first one threw or was answered with code 429: every other first
    answer, a 200 with an unusable body included, is final. *)
Theorem callGemini_fetches (emailSubject emailBody : string) (fetch : nat → FetchOutcome) :
  let fetches := (MJM_callGemini_forApplicationDetails emailSubject emailBody fetch).2 in
  (fetches ≤ 2)%nat
  ∧ (fetches = 0%nat ↔ JS.trim emailSubject = "" ∧ JS.trim emailBody = "")
  ∧ (fetches = 2%nat ↔
     ¬ (JS.trim emailSubject = "" ∧ JS.trim emailBody = "")
     ∧ (fetch 1%nat = FetchThrows ∨ ∃ body, fetch 1%nat = Responds 429 body)).
Proof.
  destruct (callLoop_facts fetch) as (Hn & H2 & _).
  cbv zeta in *. unfold MJM_callGemini_forApplicationDetails.
  destruct (decide (JS.trim emailSubject = "" ∧ JS.trim emailBody = "")) as [Hblank|Hblank].
  - destruct Hblank as [Hs Hb].
    rewrite (bool_decide_eq_true_2 _ Hs), (bool_decide_eq_true_2 _ Hb). cbn.
    split; [lia|]. split; [done|]. split; [lia|]. intros [Hno _]. by destruct Hno.
  - assert (bool_decide (JS.trim emailSubject = "") && bool_decide (JS.trim emailBody = "")
            = false) as ->.
    { apply andb_false_iff. rewrite !bool_decide_eq_false.
      destruct (decide (JS.trim emailSubject = "")); tauto. }
    split; [lia|]. split; [split; [lia|by intros ?]|]. rewrite H2. tauto.
Qed.

Lemma callGemini_fields_nonempty (emailSubject emailBody : string)
    (fetch : nat → FetchOutcome) :
  let result := (MJM_callGemini_forApplicationDetails emailSubject emailBody fetch).1 in
  company result ≠ "" ∧ title result ≠ "" ∧ status result ≠ "".
Proof.
  destruct (callLoop_facts fetch) as (_ & _ & Hne & _).
  cbv zeta in *. unfold MJM_callGemini_forApplicationDetails.
  by destruct (bool_decide (JS.trim emailSubject = "") && bool_decide (JS.trim emailBody = "")).
Qed.

(** The loop makes at least one fetch, and its result is what the outcome
    of the last fetch gives. *)
Lemma callLoop_last_fetch (fetch : nat → FetchOutcome) :
  (callLoop maxAttempts 0 fetch).2 ≠ 0%nat
  ∧ (callLoop maxAttempts 0 fetch).1
    = resultOfOutcome (fetch (callLoop maxAttempts 0 fetch).2).
Proof.
  assert ((callLoop 1 1 fetch).2 = 2%nat
          ∧ (callLoop 1 1 fetch).1 = resultOfOutcome (fetch 2%nat)) as [Hn Hr].
  { cbn [callLoop]. destruct (fetch 2%nat) as [|code body] eqn:H2.
    - by case_bool_decide.
    - cbn [resultOfOutcome]. case_bool_decide as H200; [done|].
      by destruct (bool_decide (code = 429%Z) && bool_decide (2 < maxAttempts)%nat). }
  unfold maxAttempts. change (callLoop 2 0 fetch) with
    (match fetch 1%nat with
     | FetchThrows =>
         if bool_decide (1 < maxAttempts)%nat then callLoop 1 1 fetch
         else (defaultResult, 1%nat)
     | Responds responseCode body =>
         if bool_decide (responseCode = 200)%Z then (resultOfBody body, 1%nat)
         else if bool_decide (responseCode = 429)%Z && bool_decide (1 < maxAttempts)%nat
         then callLoop 1 1 fetch
         else (defaultResult, 1%nat)
     end).
  assert (bool_decide (1 < maxAttempts)%nat = true) as ->
    by (apply bool_decide_eq_true_2; unfold maxAttempts; lia).
  destruct (fetch 1%nat) as [|code body] eqn:H1.
  - rewrite Hn, Hr. by split.
  - case_bool_decide as H200; [|case_bool_decide as H429]; cbn [andb fst snd].
    + rewrite H1. cbn [resultOfOutcome]. by rewrite (bool_decide_eq_true_2 _ H200).
    + rewrite Hn, Hr. by split.
    + rewrite H1. cbn [resultOfOutcome]. by rewrite (bool_decide_eq_false_2 _ H200).
Qed.

(** X12.  No field of the result is ever empty, and the result is settled
    by the last fetch made.  Without a fetch it is the default: the
    manual-review sentinel in all three fields.  A last answer with code
    200 and a JSON object holding all three keys gives its three values,
    the sentinel replacing an empty one.  An object with a key missing,
    text that is no JSON, an answer without candidates, any code other
    than 200 and a fetch that throws give the default.  A blocked prompt
    gives the default with the status Blocked: and the reason, the default
    itself when the reason is empty. *)
Theorem callGemini_result (emailSubject emailBody : string) (fetch : nat → FetchOutcome) :
  let result := (MJM_callGemini_forApplicationDetails emailSubject emailBody fetch).1 in
  let fetches := (MJM_callGemini_forApplicationDetails emailSubject emailBody fetch).2 in
  (company result ≠ "" ∧ title result ≠ "" ∧ status result ≠ "")
  ∧ (fetches = 0%nat → result = defaultResult)
  ∧ (fetches ≠ 0%nat →
     (∀ c t s,
        fetch fetches = Responds 200 (CandidateText (JsonObject (Some c) (Some t) (Some s))) →
        result = mkGeminiResult (JS.orElse c MANUAL_REVIEW_NEEDED_TEXT)
                                (JS.orElse t MANUAL_REVIEW_NEEDED_TEXT)
                                (JS.orElse s MANUAL_REVIEW_NEEDED_TEXT))
     ∧ (∀ c t s,
          fetch fetches = Responds 200 (CandidateText (JsonObject c t s)) →
          c = None ∨ t = None ∨ s = None → result = defaultResult)
     ∧ (fetch fetches = Responds 200 (CandidateText NotJson) → result = defaultResult)
     ∧ (fetch fetches = Responds 200 NoCandidates → result = defaultResult)
     ∧ (∀ blockReason,
          fetch fetches = Responds 200 (PromptBlocked blockReason) →
          result = if bool_decide (blockReason = "") then defaultResult
                   else mkGeminiResult MANUAL_REVIEW_NEEDED_TEXT MANUAL_REVIEW_NEEDED_TEXT
                                       ("Blocked: " ++ blockReason))
     ∧ (∀ responseCode body,
          fetch fetches = Responds responseCode body → responseCode ≠ 200%Z →
          result = defaultResult)
     ∧ (fetch fetches = FetchThrows → result = defaultResult)).
Proof.
  split; [apply callGemini_fields_nonempty|].
  destruct (callLoop_last_fetch fetch) as [Hn Hr].
  unfold MJM_callGemini_forApplicationDetails.
  destruct (bool_decide (JS.trim emailSubject = "") && bool_decide (JS.trim emailBody = "")).
  - cbn [fst snd]. split; [done|]. by intros H.
  - split; [by intros H|]. intros _. rewrite Hr.
    split; [by intros c t s ->|].
    split.
    { intros c t s -> Hnone. cbn.
      destruct c, t, s; try done; by destruct Hnone as [?|[?|?]]. }
    split; [by intros ->|]. split; [by intros ->|]. split; [by intros reason ->|].
    split; [|by intros ->].
    intros code body -> Hcode. cbn [resultOfOutcome].
    by rewrite (bool_decide_eq_false_2 _ Hcode).
Qed.

End GeminiFacts.

(** ** Time-driven triggers *)

Module TriggerFacts.
Import Triggers.

Abbreviation newHourly name n := (mkTrigger name CLOCK SOURCE_CLOCK (EveryHours n)).
Abbreviation newDaily name h := (mkTrigger name CLOCK SOURCE_CLOCK (EveryDayAtHour h)).
Abbreviation otherThan name :=
  (λ t : Trigger, negb (bool_decide (getHandlerFunction t = name))).
Abbreviation notClockOf name := (λ t : Trigger, negb (isClockTriggerFor name t)).

Lemma filter_filter_implies {A} (f g : A → bool) (l : list A) :
  (∀ x, f x = true → g x = true) →
  List.filter f (List.filter g l) = List.filter f l.
Proof.
  intros Hfg. induction l as [|a l IH]; [done|]. cbn [List.filter].
  destruct (g a) eqn:Hg; cbn [List.filter].
  - by rewrite IH.
  - destruct (f a) eqn:Hf; [|done]. apply Hfg in Hf. congruence.
Qed.

Lemma filter_none {A} (f : A → bool) (l : list A) :
  (∀ x, x ∈ l → f x = false) → List.filter f l = [].
Proof.
  induction l as [|a l IH]; [done|]. intros Hall. cbn [List.filter].
  rewrite (Hall a) by left. apply IH. intros x Hx. apply Hall. by right.
Qed.

Lemma filter_elem {A} (f : A → bool) (l : list A) (x : A) :
  x ∈ List.filter f l ↔ x ∈ l ∧ f x = true.
Proof. rewrite !list_elem_of_In. apply filter_In. Qed.

Lemma filter_sublist {A} (f : A → bool) (l : list A) : List.filter f l `sublist_of` l.
Proof.
  induction l as [|a l IH]; [done|]. cbn [List.filter].
  destruct (f a); by constructor.
Qed.

Lemma existsb_false_elem {A} (f : A → bool) (l : list A) :
  existsb f l = false ↔ ∀ x, x ∈ l → f x = false.
Proof.
  induction l as [|a l IH]; cbn [existsb].
  - split; [|done]. intros _ x Hx. by apply elem_of_nil in Hx.
  - rewrite orb_false_iff, IH. split.
    + intros [Ha Hl] x Hx. apply elem_of_cons in Hx as [Hx|Hx]; [by subst x|by apply Hl].
    + intros Hall. split; [|intros x Hx]; apply Hall; [by left|by right].
Qed.

Lemma isClockTriggerFor_handler (name : string) (t : Trigger) :
  isClockTriggerFor name t = true → getHandlerFunction t = name.
Proof.
  unfold isClockTriggerFor. rewrite !andb_true_iff, !bool_decide_eq_true. tauto.
Qed.

Lemma isClockTriggerFor_new (name : string) (s : Schedule) :
  isClockTriggerFor name (mkTrigger name CLOCK SOURCE_CLOCK s) = true.
Proof.
  unfold isClockTriggerFor. cbn. by rewrite !bool_decide_eq_true_2.
Qed.

Lemma hourly_in_range (n : Z) :
  (1 ≤ n ≤ 23)%Z → bool_decide (n < 1)%Z || bool_decide (23 < n)%Z = false.
Proof. intros ?. rewrite !bool_decide_eq_false_2 by lia. done. Qed.

Lemma daily_in_range (h : Z) :
  (0 ≤ h ≤ 23)%Z → bool_decide (h < 0)%Z || bool_decide (23 < h)%Z = false.
Proof. intros ?. rewrite !bool_decide_eq_false_2 by lia. done. Qed.

Lemma createHourly_existing (name : string) (n : Z) (ts : list Trigger) :
  existsb (isClockTriggerFor name) ts = true →
  MJM_createHourlyTrigger name n ts = (false, ts).
Proof.
  intros He. unfold MJM_createHourlyTrigger. rewrite He.
  by repeat match goal with |- context [if ?b then _ else _] => destruct b end.
Qed.

Lemma createDaily_valid (name : string) (h : Z) (ts : list Trigger) :
  validFunctionName name = true → (0 ≤ h ≤ 23)%Z →
  MJM_createDailyAtHourTrigger name h ts
  = (true, (List.filter (notClockOf name) ts ++ [newDaily name h])%list).
Proof.
  intros Hv Hh. unfold MJM_createDailyAtHourTrigger.
  by rewrite Hv, (daily_in_range h Hh).
Qed.

(** X13.  With a valid function name and an interval from 1 to 23,
    [MJM_createHourlyTrigger] returns true exactly when the function had no
    clock trigger; it removes and reorders nothing; afterwards the function
    has a clock trigger; and calling it again, with whatever interval,
    creates nothing: an existing trigger is never replaced by one with the
    new interval. *)
Theorem createHourlyTrigger_creates_once (name : string) (n : Z) (ts : list Trigger) :
  validFunctionName name = true → (1 ≤ n ≤ 23)%Z →
  let r := MJM_createHourlyTrigger name n ts in
  r.1 = negb (existsb (isClockTriggerFor name) ts)
  ∧ (r.2 = ts ∨ r.2 = (ts ++ [newHourly name n])%list)
  ∧ List.filter (isClockTriggerFor name) ts
      `prefix_of` List.filter (isClockTriggerFor name) r.2
  ∧ existsb (isClockTriggerFor name) r.2 = true
  ∧ (∀ n', MJM_createHourlyTrigger name n' r.2 = (false, r.2)).
Proof.
  intros Hv Hn r.
  assert (existsb (isClockTriggerFor name) r.2 = true) as Hex.
  { subst r. unfold MJM_createHourlyTrigger. rewrite Hv, (hourly_in_range n Hn).
    cbn [negb]. destruct (existsb (isClockTriggerFor name) ts) eqn:He; cbn [snd]; [done|].
    rewrite existsb_app. cbn [existsb]. by rewrite isClockTriggerFor_new, orb_true_r. }
  split_and!; [..|done|by intros n'; apply createHourly_existing];
    subst r; unfold MJM_createHourlyTrigger; rewrite Hv, (hourly_in_range n Hn);
    cbn [negb]; destruct (existsb (isClockTriggerFor name) ts); cbn [fst snd negb];
    try done; try (by left); try (by right).
  rewrite List.filter_app. by apply prefix_app_r.
Qed.

(** X14.  With a valid function name and an hour from 0 to 23,
    [MJM_createDailyAtHourTrigger] returns true and leaves the function
    with exactly one clock trigger, the daily one at that hour, whatever
    clock triggers it had; all other triggers are kept in their order;
    calling it again changes nothing; and a later [MJM_createHourlyTrigger]
    for the same function creates nothing. *)
Theorem createDailyAtHourTrigger_single (name : string) (h : Z) (ts : list Trigger) :
  validFunctionName name = true → (0 ≤ h ≤ 23)%Z →
  let r := MJM_createDailyAtHourTrigger name h ts in
  r.1 = true
  ∧ List.filter (isClockTriggerFor name) r.2 = [newDaily name h]
  ∧ List.filter (notClockOf name) r.2 = List.filter (notClockOf name) ts
  ∧ MJM_createDailyAtHourTrigger name h r.2 = r
  ∧ (∀ n, MJM_createHourlyTrigger name n r.2 = (false, r.2)).
Proof.
  intros Hv Hh r.
  assert (List.filter (isClockTriggerFor name) r.2 = [newDaily name h]) as Hclock.
  { subst r. rewrite createDaily_valid by done. cbn [snd]. rewrite List.filter_app.
    rewrite filter_none.
    - cbn [List.filter app]. by rewrite isClockTriggerFor_new.
    - intros t [_ Ht]%filter_elem. by apply negb_true_iff in Ht. }
  assert (List.filter (notClockOf name) r.2 = List.filter (notClockOf name) ts) as Hother.
  { subst r. rewrite createDaily_valid by done. cbn [snd]. rewrite List.filter_app.
    rewrite filter_filter_implies by done.
    cbn [List.filter]. rewrite isClockTriggerFor_new. cbn [negb].
    by rewrite app_nil_r. }
  split_and!; [by subst r; rewrite createDaily_valid|done|done|..].
  - rewrite createDaily_valid by done. rewrite Hother.
    subst r. by rewrite createDaily_valid.
  - intros n. apply createHourly_existing.
    destruct (existsb (isClockTriggerFor name) r.2) eqn:He; [done|].
    rewrite existsb_false_elem in He.
    assert (newDaily name h ∈ List.filter (isClockTriggerFor name) r.2) as Hin
      by (rewrite Hclock; left).
    apply filter_elem in Hin as [Hin Ht]. apply He in Hin. congruence.
Qed.

(** X15.  None of the three functions touches a trigger of another
    function: whatever the arguments, the triggers whose handler is not the
    named function are the same, in the same order, before and after. *)
Theorem triggers_of_other_functions_kept (name : string) (n : Z) (ts : list Trigger) :
  List.filter (otherThan name) (MJM_createHourlyTrigger name n ts).2
    = List.filter (otherThan name) ts
  ∧ List.filter (otherThan name) (MJM_createDailyAtHourTrigger name n ts).2
    = List.filter (otherThan name) ts
  ∧ List.filter (otherThan name) (MJM_deleteAllTriggersForFunction name ts)
    = List.filter (otherThan name) ts.
Proof.
  assert (∀ s, List.filter (otherThan name) (ts ++ [mkTrigger name CLOCK SOURCE_CLOCK s])
               = List.filter (otherThan name) ts) as Hnew.
  { intros s. rewrite List.filter_app. cbn. rewrite bool_decide_eq_true_2 by done.
    apply app_nil_r. }
  split_and!.
  - unfold MJM_createHourlyTrigger.
    repeat match goal with |- context [if ?b then _ else _] => destruct b end;
      cbn [snd]; first [done|apply Hnew].
  - unfold MJM_createDailyAtHourTrigger.
    repeat match goal with |- context [if ?b then _ else _] => destruct b end;
      cbn [snd]; try done.
    rewrite List.filter_app, filter_filter_implies.
    + rewrite <- List.filter_app. apply Hnew.
    + intros t Ht. apply negb_true_iff. apply negb_true_iff in Ht.
      destruct (isClockTriggerFor name t) eqn:Hc; [|done].
      apply isClockTriggerFor_handler in Hc. by rewrite bool_decide_eq_true_2 in Ht.
  - unfold MJM_deleteAllTriggersForFunction.
    destruct (negb (validFunctionName name)); [done|].
    by apply filter_filter_implies.
Qed.

(** X16.  With a valid function name, [MJM_deleteAllTriggersForFunction]
    leaves exactly the triggers of the other functions, whatever their
    kind, and a following [MJM_createHourlyTrigger] with an interval from 1
    to 23 does create the trigger. *)
Theorem deleteAllTriggersForFunction_clears (name : string) (ts : list Trigger) :
  validFunctionName name = true →
  let r := MJM_deleteAllTriggersForFunction name ts in
  (∀ t, t ∈ r ↔ t ∈ ts ∧ getHandlerFunction t ≠ name)
  ∧ r `sublist_of` ts
  ∧ MJM_deleteAllTriggersForFunction name r = r
  ∧ (∀ n, (1 ≤ n ≤ 23)%Z →
       MJM_createHourlyTrigger name n r = (true, (r ++ [newHourly name n])%list)).
Proof.
  intros Hv r.
  assert (r = List.filter (otherThan name) ts) as Hr.
  { subst r. unfold MJM_deleteAllTriggersForFunction. by rewrite Hv. }
  assert (∀ t, t ∈ r ↔ t ∈ ts ∧ getHandlerFunction t ≠ name) as Hel.
  { intros t. rewrite Hr, filter_elem, negb_true_iff, bool_decide_eq_false. done. }
  split_and!; [done|rewrite Hr; apply filter_sublist|..].
  - unfold MJM_deleteAllTriggersForFunction at 1. rewrite Hv. cbn [negb].
    rewrite Hr. by apply filter_filter_implies.
  - intros n Hn. unfold MJM_createHourlyTrigger.
    rewrite Hv, (hourly_in_range n Hn). cbn [negb].
    assert (existsb (isClockTriggerFor name) r = false) as ->; [|done].
    apply existsb_false_elem. intros t [_ Ht]%Hel.
    destruct (isClockTriggerFor name t) eqn:Hc; [|done].
    by apply isClockTriggerFor_handler in Hc.
Qed.

Lemma createHourly_has_trigger (name : string) (n : Z) (ts : list Trigger) :
  validFunctionName name = true → (1 ≤ n ≤ 23)%Z →
  existsb (isClockTriggerFor name) (MJM_createHourlyTrigger name n ts).2 = true.
Proof.
  intros Hv Hn. unfold MJM_createHourlyTrigger. rewrite Hv, (hourly_in_range n Hn).
  cbn [negb]. destruct (existsb (isClockTriggerFor name) ts) eqn:He; cbn [snd]; [done|].
  rewrite existsb_app. cbn [existsb]. by rewrite isClockTriggerFor_new, orb_true_r.
Qed.

Lemma createHourly_prefix (name : string) (n : Z) (ts : list Trigger) :
  ts `prefix_of` (MJM_createHourlyTrigger name n ts).2.
Proof.
  unfold MJM_createHourlyTrigger.
  repeat match goal with |- context [if ?b then _ else _] => destruct b end;
    cbn [snd]; try done. by apply prefix_app_r.
Qed.

Lemma existsb_filter_implies {A} (f g : A → bool) (l : list A) :
  (∀ x, f x = true → g x = true) →
  existsb f (List.filter g l) = existsb f l.
Proof.
  intros Hfg. induction l as [|a l IH]; [done|]. cbn [List.filter existsb].
  destruct (g a) eqn:Hg; cbn [existsb]; [by rewrite IH|].
  destruct (f a) eqn:Hf; [|done]. apply Hfg in Hf. congruence.
Qed.

Lemma filter_prefix {A} (f : A → bool) (l k : list A) :
  l `prefix_of` k → List.filter f l `prefix_of` List.filter f k.
Proof. intros [r ->]. rewrite List.filter_app. by apply prefix_app_r. Qed.

(** X26.  The trigger phase of the set-up leaves the sweep with exactly one
    clock trigger, the daily one at hour 2, and the processing function
    with a clock trigger; it keeps, in their order, all triggers that are
    not clock triggers of the sweep; and run a second time it changes
    nothing. *)
Theorem setup_triggers_idempotent (ts : list Trigger) :
  let ts' := setupAppTrackerTriggers ts in
  List.filter (isClockTriggerFor "MJM_markStaleApplicationsAsRejected") ts'
    = [newDaily "MJM_markStaleApplicationsAsRejected" 2]
  ∧ existsb (isClockTriggerFor "MJM_processJobApplicationEmails") ts' = true
  ∧ List.filter (notClockOf "MJM_markStaleApplicationsAsRejected") ts `prefix_of` ts'
  ∧ setupAppTrackerTriggers ts' = ts'.
Proof.
  set (process := "MJM_processJobApplicationEmails").
  set (sweep := "MJM_markStaleApplicationsAsRejected").
  assert (validFunctionName process = true) as Hvp by (by vm_compute).
  assert (validFunctionName sweep = true) as Hvs by (by vm_compute).
  assert (∀ t, isClockTriggerFor process t = true → notClockOf sweep t = true) as Himp.
  { intros t Ht%isClockTriggerFor_handler. apply negb_true_iff.
    destruct (isClockTriggerFor sweep t) eqn:Hs; [|done].
    apply isClockTriggerFor_handler in Hs. subst process sweep. congruence. }
  assert (∀ l, (MJM_createDailyAtHourTrigger sweep 2 l).2
               = (List.filter (notClockOf sweep) l ++ [newDaily sweep 2])%list) as Hdaily.
  { intros l. by rewrite createDaily_valid by (done || lia). }
  intros ts'. subst ts'. unfold setupAppTrackerTriggers. fold process sweep.
  set (ts1 := (MJM_createHourlyTrigger process 1 ts).2).
  assert (existsb (isClockTriggerFor process) ts1 = true) as Hex1
    by (apply createHourly_has_trigger; [done|lia]).
  rewrite !Hdaily.
  assert (existsb (isClockTriggerFor process)
            (List.filter (notClockOf sweep) ts1 ++ [newDaily sweep 2]) = true) as Hex2.
  { rewrite existsb_app, existsb_filter_implies by done. by rewrite Hex1. }
  split_and!.
  - rewrite List.filter_app, filter_none.
    + cbn [List.filter app]. by rewrite isClockTriggerFor_new.
    + intros t [_ Ht]%filter_elem. by apply negb_true_iff in Ht.
  - done.
  - apply prefix_app_r. apply filter_prefix, createHourly_prefix.
  - rewrite (createHourly_existing process 1 _ Hex2). cbn [snd].
    rewrite List.filter_app, filter_filter_implies by done.
    cbn [List.filter]. rewrite isClockTriggerFor_new. cbn [negb].
    by rewrite app_nil_r.
Qed.

End TriggerFacts.

(** ** Extraction of the details of a message *)

Module ExtractionFacts.
Import Config Parsing Extraction.

Lemma orElse_keeps_nonempty (x d : string) : x ≠ "" → JS.orElse x d = x.
Proof. intros Hx. unfold JS.orElse. by destruct (String.eqb_spec x ""). Qed.

Lemma parseBodyForStatus_range (plainBody r : string) :
  MJM_parseBodyForStatus plainBody = Some r →
  r ∈ [ MJM_APP_OFFER_STATUS; MJM_APP_INTERVIEW_STATUS; MJM_APP_ASSESSMENT_STATUS;
        MJM_APP_VIEWED_STATUS; MJM_APP_REJECTED_STATUS ].
Proof.
  unfold MJM_parseBodyForStatus.
  repeat match goal with |- context [if ?b then _ else _] => destruct b end;
    intros [= <-]; set_solver.
Qed.

Lemma parseBodyForStatus_resolved (plainBody r : string) :
  MJM_parseBodyForStatus plainBody = Some r → statusMissing (Some r) = false.
Proof.
  intros Hr%parseBodyForStatus_range.
  repeat (apply elem_of_cons in Hr as [-> |Hr]; [by vm_compute|]).
  by apply elem_of_nil in Hr.
Qed.

Lemma statusFromBody_idem (s : option string) (body : string) :
  statusFromBody (statusFromBody s body) body = statusFromBody s body.
Proof.
  unfold statusFromBody at 2 3.
  destruct (statusMissing s) eqn:Hs.
  - destruct (MJM_parseBodyForStatus body) as [r|] eqn:Hr.
    + unfold statusFromBody. by rewrite (parseBodyForStatus_resolved _ _ Hr).
    + unfold statusFromBody. by rewrite Hs, Hr.
  - unfold statusFromBody. by rewrite Hs.
Qed.

(** The status after both tiers: the keyword fallback applied once to the
    status of the Gemini tier. *)
Lemma extractDetails_status (useGemini : bool) (emailSubject emailPlainBody : string)
    (fetch : nat → SheetUtils.FetchOutcome) (regexParseResult : string * string) :
  extractedStatus (extractDetails useGemini emailSubject emailPlainBody fetch regexParseResult)
  = statusFromBody
      (if geminiIsCalled useGemini emailPlainBody
       then Some (SheetUtils.status
              (SheetUtils.MJM_callGemini_forApplicationDetails emailSubject emailPlainBody fetch).1)
       else None) emailPlainBody.
Proof.
  unfold extractDetails, regexTier, geminiTier.
  destruct (geminiIsCalled useGemini emailPlainBody); cbn [extractedCompany extractedTitle extractedStatus].
  - match goal with |- context [if ?b then _ else _] => destruct b end;
      cbn [extractedStatus]; [apply statusFromBody_idem|done].
  - by rewrite bool_decide_eq_true_2.
Qed.

Lemma extractDetails_company (useGemini : bool) (emailSubject emailPlainBody : string)
    (fetch : nat → SheetUtils.FetchOutcome) (regexParseResult : string * string) :
  let geminiResult :=
    (SheetUtils.MJM_callGemini_forApplicationDetails emailSubject emailPlainBody fetch).1 in
  let d := extractDetails useGemini emailSubject emailPlainBody fetch regexParseResult in
  extractedCompany d
  = (if geminiIsCalled useGemini emailPlainBody
        && negb (bool_decide (SheetUtils.company geminiResult = MANUAL_REVIEW_NEEDED_TEXT))
     then SheetUtils.company geminiResult else regexParseResult.1)
  ∧ extractedTitle d
  = (if geminiIsCalled useGemini emailPlainBody
        && negb (bool_decide (SheetUtils.title geminiResult = MANUAL_REVIEW_NEEDED_TEXT))
     then SheetUtils.title geminiResult else regexParseResult.2).
Proof.
  intros geminiResult d. subst d. unfold extractDetails, regexTier, geminiTier.
  destruct (GeminiFacts.callGemini_fields_nonempty emailSubject emailPlainBody fetch)
    as (Hc & Ht & _). cbv zeta in Hc, Ht. fold geminiResult in Hc, Ht |- *.
  destruct (geminiIsCalled useGemini emailPlainBody);
    cbn [extractedCompany extractedTitle extractedStatus andb].
  - rewrite !orElse_keeps_nonempty by done.
    repeat case_bool_decide; cbn [orb negb extractedCompany extractedTitle];
      try done;
      match goal with |- context [if ?b then _ else _] => destruct b end; done.
  - by rewrite bool_decide_eq_true_2.
Qed.

(** X17.  The extracted status follows one priority rule, although the
    keyword fallback is written twice: the status that Gemini gave, when
    Gemini was called and its status is none of empty, the manual-review
    text and Update/Other; else the status that MJM_parseBodyForStatus
    finds in the body; else what Gemini gave (the manual-review text or
    Update/Other), or nothing when Gemini was not called.  The status that
    is logged is never empty. *)
Theorem extracted_status_priority (useGemini : bool) (emailSubject emailPlainBody : string)
    (fetch : nat → SheetUtils.FetchOutcome) (regexParseResult : string * string)
    (messageId : string) (emailDate : Z) (emailSender : string) :
  let called := geminiIsCalled useGemini emailPlainBody in
  let geminiStatus :=
    SheetUtils.status
      (SheetUtils.MJM_callGemini_forApplicationDetails emailSubject emailPlainBody fetch).1 in
  let d := extractDetails useGemini emailSubject emailPlainBody fetch regexParseResult in
  (called = true ∧ statusMissing (Some geminiStatus) = false →
     extractedStatus d = Some geminiStatus)
  ∧ (∀ r, called = false ∨ statusMissing (Some geminiStatus) = true →
       MJM_parseBodyForStatus emailPlainBody = Some r → extractedStatus d = Some r)
  ∧ (MJM_parseBodyForStatus emailPlainBody = None →
       extractedStatus d = if called then Some geminiStatus else None)
  ∧ Tracker.finalStatusToLog
      (extractedMessage messageId emailDate emailSubject emailSender d) ≠ "".
Proof.
  intros called geminiStatus d.
  assert (extractedStatus d
          = statusFromBody (if called then Some geminiStatus else None) emailPlainBody) as Hd
    by apply extractDetails_status.
  split_and!.
  - intros [Hc Hs]. rewrite Hd, Hc. unfold statusFromBody. by rewrite Hs.
  - intros r Hor Hr. rewrite Hd. unfold statusFromBody.
    destruct Hor as [-> | Hs].
    + cbn [statusMissing]. by rewrite Hr.
    + destruct called; [rewrite Hs|cbn [statusMissing]]; by rewrite Hr.
  - intros Hr. rewrite Hd. unfold statusFromBody. rewrite Hr.
    by destruct (statusMissing _).
  - unfold Tracker.finalStatusToLog, extractedMessage. cbn [Tracker.extractedStatus].
    destruct (extractedStatus d) as [s|]; [|done].
    unfold JS.orElse. by destruct (String.eqb_spec s "").
Qed.

(** X18.  Company and title are chosen field by field: the value of Gemini
    when Gemini was called and gave something other than the manual-review
    text for that field, and otherwise the value that
    MJM_extractCompanyAndTitle returned, whatever it is. *)
Theorem extracted_company_title_priority (useGemini : bool)
    (emailSubject emailPlainBody : string)
    (fetch : nat → SheetUtils.FetchOutcome) (regexParseResult : string * string) :
  let called := geminiIsCalled useGemini emailPlainBody in
  let geminiResult :=
    (SheetUtils.MJM_callGemini_forApplicationDetails emailSubject emailPlainBody fetch).1 in
  let d := extractDetails useGemini emailSubject emailPlainBody fetch regexParseResult in
  (called = true ∧ SheetUtils.company geminiResult ≠ MANUAL_REVIEW_NEEDED_TEXT →
     extractedCompany d = SheetUtils.company geminiResult)
  ∧ (called = false ∨ SheetUtils.company geminiResult = MANUAL_REVIEW_NEEDED_TEXT →
     extractedCompany d = regexParseResult.1)
  ∧ (called = true ∧ SheetUtils.title geminiResult ≠ MANUAL_REVIEW_NEEDED_TEXT →
     extractedTitle d = SheetUtils.title geminiResult)
  ∧ (called = false ∨ SheetUtils.title geminiResult = MANUAL_REVIEW_NEEDED_TEXT →
     extractedTitle d = regexParseResult.2).
Proof.
  intros called geminiResult d.
  destruct (extractDetails_company useGemini emailSubject emailPlainBody fetch regexParseResult)
    as [Hc Ht]. cbv zeta in Hc, Ht. fold called geminiResult d in Hc, Ht.
  split_and!.
  - intros [Hcall Hne]. by rewrite Hc, Hcall, bool_decide_eq_false_2.
  - intros [Hcall|Heq]; rewrite Hc.
    + by rewrite Hcall.
    + rewrite (bool_decide_eq_true_2 _ Heq). by rewrite andb_false_r.
  - intros [Hcall Hne]. by rewrite Ht, Hcall, bool_decide_eq_false_2.
  - intros [Hcall|Heq]; rewrite Ht.
    + by rewrite Hcall.
    + rewrite (bool_decide_eq_true_2 _ Heq). by rewrite andb_false_r.
Qed.

(** X19.  When Gemini is not called (no usable key, or a body that is blank
    or could not be fetched), the status logged for the message is Applied
    or one of the five statuses of the keyword fallback: such a message
    never sets Offer Accepted, Update/Other or the manual-review text. *)
Theorem status_without_gemini (useGemini : bool) (emailSubject emailPlainBody : string)
    (fetch : nat → SheetUtils.FetchOutcome) (regexParseResult : string * string)
    (messageId : string) (emailDate : Z) (emailSender : string) :
  geminiIsCalled useGemini emailPlainBody = false →
  Tracker.finalStatusToLog
    (extractedMessage messageId emailDate emailSubject emailSender
       (extractDetails useGemini emailSubject emailPlainBody fetch regexParseResult))
  ∈ statusesWithoutGemini.
Proof.
  intros Hcall. unfold Tracker.finalStatusToLog, extractedMessage.
  cbn [Tracker.extractedStatus]. rewrite extractDetails_status, Hcall.
  unfold statusFromBody. cbn [statusMissing].
  destruct (MJM_parseBodyForStatus emailPlainBody) as [r|] eqn:Hr.
  - apply parseBodyForStatus_range in Hr. unfold statusesWithoutGemini.
    repeat (apply elem_of_cons in Hr as [-> |Hr]; [vm_compute; set_solver|]).
    by apply elem_of_nil in Hr.
  - unfold statusesWithoutGemini. set_solver.
Qed.

End ExtractionFacts.

(** ** Platform detection *)

Module PlatformFacts.
Import Config Extraction.

Lemma lacks_cons (c a : ascii) (s : string) :
  lacks c (String a s) ↔ a ≠ c ∧ lacks c s.
Proof. unfold lacks. cbn [list_ascii_of_string In]. tauto. Qed.

Lemma upToGreaterThan_stops (dom post : string) :
  lacks ">"%char dom → upToGreaterThan (dom ++ String ">"%char post) = dom.
Proof.
  induction dom as [|a dom IH]; intros Hl.
  - done.
  - apply lacks_cons in Hl as [Ha Hl]. rewrite ColumnFacts.append_cons.
    cbn [upToGreaterThan]. destruct (Ascii.eqb_spec a ">"%char); [done|].
    by rewrite IH.
Qed.

Lemma upToGreaterThan_all (dom : string) :
  lacks ">"%char dom → upToGreaterThan dom = dom.
Proof.
  induction dom as [|a dom IH]; intros Hl; [done|].
  apply lacks_cons in Hl as [Ha Hl]. cbn [upToGreaterThan].
  destruct (Ascii.eqb_spec a ">"%char); [done|]. by rewrite IH.
Qed.

Lemma senderDomainMatch_skips (pre rest : string) :
  lacks "@"%char pre → senderDomainMatch (pre ++ rest) = senderDomainMatch rest.
Proof.
  induction pre as [|a pre IH]; intros Hl; [done|].
  apply lacks_cons in Hl as [Ha Hl]. rewrite ColumnFacts.append_cons.
  cbn [senderDomainMatch]. destruct (Ascii.eqb_spec a "@"%char); [done|]. by apply IH.
Qed.

Lemma senderDomainMatch_none (s : string) :
  lacks "@"%char s → senderDomainMatch s = None.
Proof.
  induction s as [|a s IH]; intros Hl; [done|].
  apply lacks_cons in Hl as [Ha Hl]. cbn [senderDomainMatch].
  destruct (Ascii.eqb_spec a "@"%char); [done|]. by apply IH.
Qed.

Lemma senderDomainMatch_at (dom rest : string) :
  dom ≠ "" → upToGreaterThan rest = dom →
  senderDomainMatch (String "@"%char rest) = Some dom.
Proof.
  intros Hne Hup. cbn [senderDomainMatch Ascii.eqb Bool.eqb]. rewrite Hup.
  by destruct dom.
Qed.

Lemma toLowerCase_nonempty (s : string) : s ≠ "" → JS.toLowerCase s ≠ "".
Proof. by destruct s. Qed.

Lemma platformOfDomain_range (senderDom : string) :
  platformOfDomain senderDom ∈ ["Other"; "LinkedIn"; "Indeed"; "Wellfound"].
Proof.
  unfold platformOfDomain, MJM_PLATFORM_DOMAIN_KEYWORDS. cbn [List.find fst snd].
  repeat match goal with |- context [if ?b then _ else _] => destruct b end;
    cbn [snd]; unfold MJM_APP_DEFAULT_PLATFORM; set_solver.
Qed.

(** X20.  For a sender written [Name <local@domain>] or [local@domain],
    with no [@] before the one of the address and no [>] in the domain, the
    platform depends on the domain alone, letter case ignored: that of the
    first of linkedin.com, indeed.com, wellfound.com and angel.co that the
    lower-cased domain contains, and Other when it contains none.  The
    display name plays no part. *)
Theorem detectedPlatform_by_domain (pre dom post : string) :
  lacks "@"%char pre → dom ≠ "" → lacks ">"%char dom →
  detectedPlatform (pre ++ String "@"%char (dom ++ String ">"%char post))
    = platformOfDomain (JS.toLowerCase dom)
  ∧ detectedPlatform (pre ++ String "@"%char dom)
    = platformOfDomain (JS.toLowerCase dom).
Proof.
  intros Hpre Hne Hdom. unfold detectedPlatform.
  rewrite !senderDomainMatch_skips by done.
  rewrite (senderDomainMatch_at dom) by (done || by apply upToGreaterThan_stops).
  rewrite (senderDomainMatch_at dom) by (done || by apply upToGreaterThan_all).
  cbv zeta. by rewrite bool_decide_eq_false_2 by by apply toLowerCase_nonempty.
Qed.

(** X21.  The platform is always one of Other, LinkedIn, Indeed and
    Wellfound, and it is Other for every sender without [@]. *)
Theorem detectedPlatform_range (emailSender : string) :
  detectedPlatform emailSender ∈ ["Other"; "LinkedIn"; "Indeed"; "Wellfound"]
  ∧ (lacks "@"%char emailSender → detectedPlatform emailSender = "Other").
Proof.
  split.
  - unfold detectedPlatform. destruct (senderDomainMatch emailSender) as [capture|].
    + cbv zeta. case_bool_decide; [set_solver|apply platformOfDomain_range].
    + set_solver.
  - intros Hl. unfold detectedPlatform. by rewrite senderDomainMatch_none.
Qed.

End PlatformFacts.

(** ** The keyword fallback and letter case *)

Module ParsingExtra.
Import Config Parsing JSFacts.

(** X22.  The keyword fallback ignores letter case: a body and its
    lower-cased form get the same status, under the length test too. *)
Theorem parseBodyForStatus_ignores_case (plainBody : string) :
  MJM_parseBodyForStatus (JS.toLowerCase plainBody) = MJM_parseBodyForStatus plainBody.
Proof.
  unfold MJM_parseBodyForStatus, normalizeBody.
  by rewrite toLowerCase_length, toLowerCase_idem.
Qed.

End ParsingExtra.

(** ** Thread outcomes and labels *)

Module LabelFacts.
Import Labels.

Lemma getOutcome_setOutcome (map : OutcomesMap) (k k' : string) (v : Outcome) :
  getOutcome (setOutcome map k v) k'
  = if bool_decide (k = k') then Some v else getOutcome map k'.
Proof.
  induction map as [|[k0 v0] map IH]; cbn [setOutcome getOutcome].
  - by case_bool_decide.
  - destruct (decide (k0 = k)) as [->|Hk0].
    + rewrite bool_decide_eq_true_2 by done. cbn [getOutcome]. by case_bool_decide.
    + rewrite (bool_decide_eq_false_2 (k0 = k)) by done. cbn [getOutcome].
      rewrite IH. repeat case_bool_decide; congruence.
Qed.

Lemma setOutcome_keys (map : OutcomesMap) (k : string) (v : Outcome) :
  (setOutcome map k v).*1 = (if bool_decide (k ∈ map.*1) then map.*1 else map.*1 ++ [k])%list.
Proof.
  induction map as [|[k0 v0] map IH]; cbn [setOutcome fmap list_fmap fst].
  - rewrite bool_decide_eq_false_2; [done|]. apply not_elem_of_nil.
  - destruct (decide (k0 = k)) as [->|Hk0].
    + rewrite !bool_decide_eq_true_2; [done|left|done].
    + rewrite (bool_decide_eq_false_2 (k0 = k)) by done. cbn [fmap list_fmap fst].
      change (list_fmap _ _ fst ?l) with (l.*1). rewrite IH.
      destruct (decide (k ∈ map.*1)) as [Hin|Hin].
      * rewrite !bool_decide_eq_true_2; [done|by right|done].
      * rewrite !bool_decide_eq_false_2; [done| |done].
        intros [?|?]%elem_of_cons; congruence.
Qed.

Lemma setOutcome_NoDup (map : OutcomesMap) (k : string) (v : Outcome) :
  NoDup (map.*1) → NoDup ((setOutcome map k v).*1).
Proof.
  intros Hnd. rewrite setOutcome_keys. case_bool_decide; [done|].
  apply NoDup_app. split_and!; [done| |apply NoDup_singleton].
  intros x Hx ->%list_elem_of_singleton. done.
Qed.

Lemma recordOutcome_NoDup (map : OutcomesMap) (ev : string * Attempt) :
  NoDup (map.*1) → NoDup ((recordOutcome map ev).*1).
Proof.
  intros Hnd. unfold recordOutcome. destruct ev as [k [[]|]]; cbn [fst snd];
    repeat case_bool_decide; by repeat apply setOutcome_NoDup.
Qed.

Lemma outcomes_NoDup (events : list (string * Attempt)) (map : OutcomesMap) :
  NoDup (map.*1) → NoDup ((fold_left recordOutcome events map).*1).
Proof.
  revert map. induction events as [|ev events IH]; intros map Hnd; [done|].
  cbn [fold_left]. by apply IH, recordOutcome_NoDup.
Qed.

Lemma getOutcome_recordOutcome (map : OutcomesMap) (k k' : string) (a : Attempt) :
  getOutcome (recordOutcome map (k, a)) k'
  = if bool_decide (k = k')
    then Some (if needsReview a || bool_decide (getOutcome map k = Some OutcomeManual)
               then OutcomeManual else OutcomeDone)
    else getOutcome map k'.
Proof.
  unfold recordOutcome. cbn [fst snd]. destruct a as [[]|]; cbn [needsReview orb].
  - rewrite (bool_decide_eq_true_2 (OutcomeManual = OutcomeManual)) by done.
    rewrite getOutcome_setOutcome. case_bool_decide as Hk; [done|].
    case_bool_decide; [|done]. rewrite getOutcome_setOutcome.
    by rewrite bool_decide_eq_false_2.
  - rewrite (bool_decide_eq_false_2 (OutcomeDone = OutcomeManual)) by done.
    destruct (decide (getOutcome map k = Some OutcomeManual)) as [Hm|Hm].
    + rewrite (bool_decide_eq_false_2 (getOutcome map k ≠ _)) by tauto.
      rewrite (bool_decide_eq_true_2 _ Hm). case_bool_decide; [by subst k'|done].
    + rewrite (bool_decide_eq_true_2 (getOutcome map k ≠ _)) by done.
      rewrite (bool_decide_eq_false_2 _ Hm). apply getOutcome_setOutcome.
  - apply getOutcome_setOutcome.
Qed.

Lemma eventsOfThread_cons (threadId k : string) (a : Attempt)
    (events : list (string * Attempt)) :
  eventsOfThread threadId ((k, a) :: events)
  = if bool_decide (k = threadId) then a :: eventsOfThread threadId events
    else eventsOfThread threadId events.
Proof.
  unfold eventsOfThread. rewrite filter_cons. cbn [fst].
  case_bool_decide; by rewrite ?decide_True, ?decide_False by done.
Qed.

Lemma outcomes_from (events : list (string * Attempt)) (map : OutcomesMap)
    (threadId : string) :
  getOutcome (fold_left recordOutcome events map) threadId
  = match eventsOfThread threadId events with
    | [] => getOutcome map threadId
    | evs => Some (if existsb needsReview evs
                      || bool_decide (getOutcome map threadId = Some OutcomeManual)
                   then OutcomeManual else OutcomeDone)
    end.
Proof.
  revert map. induction events as [|[k a] events IH]; intros map; [done|].
  cbn [fold_left]. rewrite IH, eventsOfThread_cons, getOutcome_recordOutcome.
  case_bool_decide as Hk; [subst k|done].
  destruct (eventsOfThread threadId events) as [|a' evs].
  { cbn [existsb]. by rewrite orb_false_r. }
  cbn [existsb]. f_equal.
  destruct (needsReview a), (bool_decide (getOutcome map threadId = Some OutcomeManual));
    cbn [orb]; rewrite ?bool_decide_eq_true_2, ?bool_decide_eq_false_2 by done;
    by rewrite ?orb_true_r, ?orb_false_r.
Qed.

(** The labels of a thread after its outcome was applied. *)
Lemma labelThread_lookup (src P M : string) (mailbox : Mailbox) (k : string) (o : Outcome)
    (threadId : string) :
  src ≠ P → src ≠ M →
  labelThread src P M mailbox (k, o) !! threadId
  = if bool_decide (k = threadId)
    then (λ ls, ls ∖ {[ src ]} ∪ {[ if bool_decide (o = OutcomeManual) then M else P ]})
           <$> mailbox !! threadId
    else mailbox !! threadId.
Proof.
  intros HP HM. unfold labelThread. cbn [fst snd].
  set (tgt := if bool_decide (o = OutcomeManual) then M else P).
  assert (src ≠ tgt) as Htgt by (subst tgt; by case_bool_decide).
  case_bool_decide as Hk.
  - subst k. destruct (mailbox !! threadId) as [ls|] eqn:Hls; [|by rewrite Hls].
    rewrite lookup_insert_eq. cbn [fmap option_fmap option_map]. f_equal.
    apply set_eq. intros x.
    destruct (decide (src ∈ ls)) as [Hs|Hs], (decide (tgt ∈ ls)) as [Ht|Ht];
      rewrite ?(bool_decide_eq_true_2 _ Hs), ?(bool_decide_eq_false_2 _ Hs),
        ?(bool_decide_eq_true_2 (tgt ∉ ls)), ?(bool_decide_eq_false_2 (tgt ∉ ls)) by tauto;
      rewrite ?elem_of_union, ?elem_of_difference, ?elem_of_singleton.
    + split; [tauto|]. intros [?|Hx]; [done|]. rewrite Hx. split; [done|congruence].
    + tauto.
    + split.
      * intros Hx. left. split; [done|]. intros Hxs. by rewrite Hxs in Hx.
      * intros [[? _]|Hx]; [done|by rewrite Hx].
    + split.
      * intros [Hx|?]; [left|by right]. split; [done|]. intros Hxs. by rewrite Hxs in Hx.
      * intros [[? _]|?]; [by left|by right].
  - destruct (mailbox !! k) as [ls|]; [|done]. by rewrite lookup_insert_ne.
Qed.

Lemma applyFinalLabels_lookup (src P M : string) (threadOutcomes : OutcomesMap)
    (mailbox : Mailbox) (threadId : string) :
  src ≠ P → src ≠ M → NoDup (threadOutcomes.*1) →
  MJM_applyFinalLabelsToThreads threadOutcomes src P M mailbox !! threadId
  = match getOutcome threadOutcomes threadId with
    | None => mailbox !! threadId
    | Some o =>
        (λ ls, ls ∖ {[ src ]} ∪ {[ if bool_decide (o = OutcomeManual) then M else P ]})
          <$> mailbox !! threadId
    end.
Proof.
  intros HP HM. unfold MJM_applyFinalLabelsToThreads. revert mailbox.
  induction threadOutcomes as [|[k o] rest IH]; intros mailbox Hnd; [done|].
  cbn [fold_left getOutcome]. cbn [fmap list_fmap fst] in Hnd.
  apply NoDup_cons in Hnd as [Hk Hnd]. rewrite IH by done.
  rewrite labelThread_lookup by done.
  case_bool_decide as Hkt; [|done]. subst k.
  assert (getOutcome rest threadId = None) as ->; [|done].
  clear -Hk. induction rest as [|[k' o'] rest IH]; [done|].
  cbn [getOutcome]. cbn [fmap list_fmap fst] in Hk.
  apply not_elem_of_cons in Hk as [Hne Hk]. rewrite bool_decide_eq_false_2 by done.
  by apply IH.
Qed.


(** X24.  With a To Process label that differs from the two target labels,
    the labelling after the loop does this to a thread of the mailbox:
    nothing when none of its messages was processed; otherwise it takes the
    To Process label off and puts on Manual Review when the thread's
    outcome is manual and Processed when it is done, and it leaves every
    other label, also an earlier Manual Review or Processed one.  It
    creates no thread. *)
Theorem labels_after_run (events : list (string * Attempt))
    (toProcess processed manualReview : string) (mailbox : Mailbox) (threadId : string) :
  toProcess ≠ processed → toProcess ≠ manualReview →
  MJM_applyFinalLabelsToThreads (threadProcessingOutcomesMap events)
    toProcess processed manualReview mailbox !! threadId
  = match eventsOfThread threadId events with
    | [] => mailbox !! threadId
    | evs =>
        (λ labels, labels ∖ {[ toProcess ]}
                   ∪ {[ if existsb needsReview evs then manualReview else processed ]})
          <$> mailbox !! threadId
    end.
Proof.
  intros HP HM. rewrite applyFinalLabels_lookup; [|done|done|].
  - unfold threadProcessingOutcomesMap. rewrite outcomes_from. cbn [getOutcome].
    destruct (eventsOfThread threadId events) as [|a evs]; [done|].
    rewrite (bool_decide_eq_false_2 (None = Some OutcomeManual)), orb_false_r by done.
    by destruct (existsb needsReview (a :: evs)).
  - apply outcomes_NoDup. constructor.
Qed.

End LabelFacts.

(** ** One record per company *)

Module CompanyFacts.
Import Config Tracker RunModel JSFacts ResolveFacts RunExtra.




(** After resolution the array of the key is the one before, or a
    permutation of it. *)
Lemma resolveIdentity_keeps_key (cache : Cache) (m : Message) (l : list Entry) :
  cache !! companyCacheKeyForSearch m = Some l →
  ∃ l', (resolveIdentity cache m).2 !! companyCacheKeyForSearch m = Some l' ∧ l' ≡ₚ l.
Proof.
  intros Hl. unfold resolveIdentity. case_bool_decide; [|by exists l].
  rewrite (cacheGet_own _ _ _ Hl).
  destruct (if bool_decide (extractedTitle m ≠ MANUAL_REVIEW_NEEDED_TEXT)
            then List.find (titleMatches (extractedTitle m)) l else None);
    [by exists l|].
  destruct l as [|e1 rest]; [by exists []|]. cbn [snd].
  eexists. split; [by rewrite lookup_insert_eq|apply sort_perm].
Qed.

(** Resolution gives the cache no new key. *)
Lemma resolveIdentity_no_new_key (cache : Cache) (m : Message) (k : string) :
  cache !! k = None → (resolveIdentity cache m).2 !! k = None.
Proof.
  intros Hk. unfold resolveIdentity. case_bool_decide; [|done].
  unfold cacheGet.
  destruct (cache !! companyCacheKeyForSearch m) as [l|] eqn:Hl.
  - destruct (if bool_decide (extractedTitle m ≠ MANUAL_REVIEW_NEEDED_TEXT)
              then List.find (titleMatches (extractedTitle m)) l else None); [done|].
    destruct l as [|e1 rest]; [done|]. cbn [snd].
    rewrite lookup_insert_ne; [done|]. intros <-. congruence.
  - by repeat case_match.
Qed.



End CompanyFacts.

(** ** Worked scenarios for the further properties *)

Module MoreScenarios.
Import Config Tracker Sweep RunModel Examples MoreExamples.

Lemma acmeState_in_range : cacheRowsInRange acmeState.
Proof. exact (RunExtra.preload_in_range acmeSheet). Qed.

(** Message m3 of Acme on the sheet with one record of Acme: the row that
    is written carries m3. *)
Lemma processMessage_one_row_witness :
  ∃ row', row' ∈ sheet (processMessage noDateParse acmeState msgAnalyst 4500)
          ∧ EMAIL_ID row' = "m3".
Proof.
  apply (proj1 (proj2 (proj2
    (RunExtra.processMessage_one_row noDateParse acmeState msgAnalyst 4500
       acmeState_in_range)))).
  intros H. vm_compute in H. discriminate H.
Defined.

(** After m3 was merged, the next run takes up m7 of the same thread and
    not m3 again. *)
Lemma processed_message_skipped_witness :
  cacheable (JS.toLowerCase (JS.trim (extractedCompany msgAnalyst))) = true
  ∧ msgBeta ∈ newMessagesList
      (preloadCache (sheet (processMessage noDateParse acmeState msgAnalyst 4500)))
      [threadAcmeBeta]
  ∧ messageId msgBeta ≠ messageId msgAnalyst.
Proof.
  assert (cacheable (JS.toLowerCase (JS.trim (extractedCompany msgAnalyst))) = true) as Hkey
    by (vm_compute; reflexivity).
  assert (msgBeta ∈ newMessagesList
            (preloadCache (sheet (processMessage noDateParse acmeState msgAnalyst 4500)))
            [threadAcmeBeta]) as Hnew
    by (vm_compute; left).
  assert (∀ r, r ∈ sheet acmeState →
            JS.inherited (JS.toLowerCase (JS.trim (COMPANY r))) = None) as Hrows.
  { intros r Hr. apply list_elem_of_singleton in Hr as ->. reflexivity. }
  split; [exact Hkey|]. split; [exact Hnew|].
  apply (RunExtra.processed_message_skipped_by_next_run noDateParse acmeState msgAnalyst 4500
           [threadAcmeBeta] msgBeta acmeState_in_range Hrows Hkey).
  - reflexivity.
  - vm_compute. discriminate.
  - vm_compute. reflexivity.
  - exact Hnew.
Defined.

(** The record last updated eight weeks before the sweep receives an
    interview invitation dated after the threshold: it is not stale. *)
Lemma recent_message_keeps_record_open_witness :
  (staleDateThreshold utc sweepTime ≤ emailDate msgRecent)%Z
  ∧ isStale noDateParse utc sweepTime
      (updateRow noDateParse rowAppliedOld "Applied" msgRecent 9500000000) = false.
Proof.
  assert (staleDateThreshold utc sweepTime ≤ emailDate msgRecent)%Z as Hd
    by (vm_compute; discriminate).
  split; [exact Hd|].
  exact (proj1 (SweepExtra.recent_message_keeps_record_open noDateParse utc
                  rowAppliedOld "Applied" msgRecent 9500000000 sweepTime Hd)).
Defined.


(** Column 28 is AB, and AB reads back as 28. *)
Lemma columnToLetter_round_trip_witness :
  (1 ≤ 28 ≤ 2 ^ 53)%Z
  ∧ SheetUtils.spec_lettersToColumn (SheetUtils.MJM_columnToLetter 28) = 28%Z.
Proof.
  assert (1 ≤ 28 ≤ 2 ^ 53)%Z as H1 by lia.
  split; [exact H1|].
  exact (proj1 (ColumnFacts.columnToLetter_round_trip 28 H1)).
Defined.

(** With the hourly trigger of the processing function installed, asking
    for one every two hours creates nothing. *)
Lemma createHourlyTrigger_creates_once_witness :
  Triggers.validFunctionName processName = true
  ∧ (1 ≤ 2 ≤ 23)%Z
  ∧ (Triggers.MJM_createHourlyTrigger processName 2 installedTriggers).1
    = negb (existsb (Triggers.isClockTriggerFor processName) installedTriggers).
Proof.
  assert (Triggers.validFunctionName processName = true) as Hv by (vm_compute; reflexivity).
  assert (1 ≤ 2 ≤ 23)%Z as Hn by lia.
  split; [exact Hv|]. split; [exact Hn|].
  exact (proj1 (TriggerFacts.createHourlyTrigger_creates_once processName 2
                  installedTriggers Hv Hn)).
Defined.

(** The daily trigger at hour 5 of the sweep is replaced by the one at
    hour 2. *)
Lemma createDailyAtHourTrigger_single_witness :
  Triggers.validFunctionName sweepName = true
  ∧ (0 ≤ 2 ≤ 23)%Z
  ∧ List.filter (Triggers.isClockTriggerFor sweepName)
      (Triggers.MJM_createDailyAtHourTrigger sweepName 2 installedTriggers).2
    = [Triggers.mkTrigger sweepName Triggers.CLOCK Triggers.SOURCE_CLOCK
         (Triggers.EveryDayAtHour 2)].
Proof.
  assert (Triggers.validFunctionName sweepName = true) as Hv by (vm_compute; reflexivity).
  assert (0 ≤ 2 ≤ 23)%Z as Hh by lia.
  split; [exact Hv|]. split; [exact Hh|].
  exact (proj1 (proj2 (TriggerFacts.createDailyAtHourTrigger_single sweepName 2
                         installedTriggers Hv Hh))).
Defined.

(** Deleting the triggers of the processing function, then creating the
    hourly one again. *)
Lemma deleteAllTriggersForFunction_clears_witness :
  Triggers.validFunctionName processName = true
  ∧ Triggers.MJM_deleteAllTriggersForFunction processName
      (Triggers.MJM_deleteAllTriggersForFunction processName installedTriggers)
    = Triggers.MJM_deleteAllTriggersForFunction processName installedTriggers.
Proof.
  assert (Triggers.validFunctionName processName = true) as Hv by (vm_compute; reflexivity).
  split; [exact Hv|].
  exact (proj1 (proj2 (proj2
    (TriggerFacts.deleteAllTriggersForFunction_clears processName installedTriggers Hv)))).
Defined.

(** Without a Gemini key, a body with an offer keyword. *)
Lemma status_without_gemini_witness :
  Extraction.geminiIsCalled false offerBody = false
  ∧ finalStatusToLog
      (Extraction.extractedMessage "m11" 7000 "Your application" "jobs@acme.com"
         (Extraction.extractDetails false "Your application" offerBody fetchAlwaysThrows
            ("Acme", "Engineer")))
    ∈ Extraction.statusesWithoutGemini.
Proof.
  assert (Extraction.geminiIsCalled false offerBody = false) as Hc by reflexivity.
  split; [exact Hc|].
  exact (ExtractionFacts.status_without_gemini false "Your application" offerBody
           fetchAlwaysThrows ("Acme", "Engineer") "m11" 7000 "jobs@acme.com" Hc).
Defined.

(** A sender whose display name says Acme and whose address is at
    LinkedIn. *)
Lemma detectedPlatform_by_domain_witness :
  Extraction.lacks "@"%char "Acme <jobs"
  ∧ Extraction.lacks ">"%char "mail.LinkedIn.com"
  ∧ Extraction.detectedPlatform
      ("Acme <jobs" ++ String "@"%char ("mail.LinkedIn.com" ++ String ">"%char ""))
    = Extraction.platformOfDomain (JS.toLowerCase "mail.LinkedIn.com").
Proof.
  assert (Extraction.lacks "@"%char "Acme <jobs") as Hpre.
  { unfold Extraction.lacks. cbn. intuition discriminate. }
  assert (Extraction.lacks ">"%char "mail.LinkedIn.com") as Hdom.
  { unfold Extraction.lacks. cbn. intuition discriminate. }
  assert ("mail.LinkedIn.com" ≠ "") as Hne by discriminate.
  split; [exact Hpre|]. split; [exact Hdom|].
  exact (proj1 (PlatformFacts.detectedPlatform_by_domain "Acme <jobs" "mail.LinkedIn.com" ""
                  Hpre Hne Hdom)).
Defined.

(** Thread t2, one of whose messages was left for review. *)
Lemma labels_after_run_witness :
  Labels.MJM_TRACKER_GMAIL_LABEL_TO_PROCESS ≠ Labels.MJM_TRACKER_GMAIL_LABEL_PROCESSED
  ∧ Labels.MJM_TRACKER_GMAIL_LABEL_TO_PROCESS ≠ Labels.MJM_TRACKER_GMAIL_LABEL_MANUAL_REVIEW
  ∧ Labels.MJM_applyFinalLabelsToThreads (Labels.threadProcessingOutcomesMap runEvents)
      Labels.MJM_TRACKER_GMAIL_LABEL_TO_PROCESS Labels.MJM_TRACKER_GMAIL_LABEL_PROCESSED
      Labels.MJM_TRACKER_GMAIL_LABEL_MANUAL_REVIEW mailboxBefore !! "t2"
    = match Labels.eventsOfThread "t2" runEvents with
      | [] => mailboxBefore !! "t2"
      | evs =>
          (λ labels, labels ∖ {[ Labels.MJM_TRACKER_GMAIL_LABEL_TO_PROCESS ]}
                     ∪ {[ if existsb Labels.needsReview evs
                          then Labels.MJM_TRACKER_GMAIL_LABEL_MANUAL_REVIEW
                          else Labels.MJM_TRACKER_GMAIL_LABEL_PROCESSED ]})
            <$> mailboxBefore !! "t2"
      end.
Proof.
  assert (Labels.MJM_TRACKER_GMAIL_LABEL_TO_PROCESS ≠ Labels.MJM_TRACKER_GMAIL_LABEL_PROCESSED)
    as HP by (vm_compute; discriminate).
  assert (Labels.MJM_TRACKER_GMAIL_LABEL_TO_PROCESS
          ≠ Labels.MJM_TRACKER_GMAIL_LABEL_MANUAL_REVIEW)
    as HM by (vm_compute; discriminate).
  split; [exact HP|]. split; [exact HM|].
  exact (LabelFacts.labels_after_run runEvents _ _ _ mailboxBefore "t2" HP HM).
Defined.


End MoreScenarios.
